(** * NedaraJS template engine: a shallow embedding of [renderTemplate]

    The development follows [nedara.js] (version 0.1.3-alpha): the private
    helpers [_getTemplate], [getValueFromPath] and [evaluateExpression], and
    the public [renderTemplate] with its local functions
    [processConditionals], [processSubConditionals] and [processNestedLoops].

    - JavaScript strings are sequences of code units; here a code unit is one
      byte ([ascii], the Latin-1 range), so [string] stands for a JS string.
    - The regular expressions of the source are kept as data ([regex]) and run
      by a backtracking matcher with the quantifier order of ECMAScript.
    - An exception is an explicit outcome ([Throw]) of the [completion] monad,
      and so is a computation that never returns ([Diverge]).
    - Numbers are the IEEE 754 binary64 values, printed as [Number::toString]
      prints them; the conversion of a value to a string is the [ToString] of
      ECMAScript, which throws on an object without a primitive form.
    - The host (the [Function] constructor used by [evaluateExpression], the
      functions found in the data, and the members every object inherits) is
      a parameter of the model.  Running a condition or a function of the
      data is taken to have no effect on the data or on later runs.
    - Of [createWidget], the methods [_bindEvents], [refresh] and [destroy]
      are modelled by the calls they make on the container. *)

From Stdlib Require Import String Ascii List Bool Arith ZArith Lia.
From Stdlib Require Import DecimalString DecimalZ SpecFloat.
Import ListNotations.

Local Open Scope string_scope.
Local Open Scope bool_scope.

(* ================================================================== *)
(** ** Completions: a value or a thrown exception *)
(* ================================================================== *)

Inductive exception : Type :=
| TypeError                 (* e.g. calling [.trim()] on [undefined] *)
| RangeError                (* call-stack exhaustion *)
| Thrown (name : string).   (* anything the host evaluator throws *)

(** [Diverge] is the outcome of code that never returns: a condition, or a
    conversion function of the data, that loops. *)
Inductive completion (A : Type) : Type :=
| Return (a : A)
| Throw (e : exception)
| Diverge.

Arguments Return {A} a.
Arguments Throw {A} e.
Arguments Diverge {A}.

Definition bind {A B : Type} (c : completion A) (k : A -> completion B)
  : completion B :=
  match c with
  | Return a => k a
  | Throw e => Throw e
  | Diverge => Diverge
  end.

Notation "x <- c ;; k" := (bind c (fun x => k))
  (at level 61, c at next level, right associativity).

Fixpoint mapM {A B : Type} (f : A -> completion B) (l : list A)
  : completion (list B) :=
  match l with
  | [] => Return []
  | x :: xs => y <- f x ;; ys <- mapM f xs ;; Return (y :: ys)
  end.

(* ================================================================== *)
(** ** JavaScript strings *)
(* ================================================================== *)

Module JsString.

Definition code (c : ascii) : nat := nat_of_ascii c.

Definition between (lo hi : nat) (c : ascii) : bool :=
  (lo <=? code c)%nat && (code c <=? hi)%nat.

(** [\w] : ASCII letters, digits and the underscore. *)
Definition isWord (c : ascii) : bool :=
  between 97 122 c || between 65 90 c || between 48 57 c || (code c =? 95)%nat.

(** [[\w.]] *)
Definition isWordOrDot (c : ascii) : bool := isWord c || (code c =? 46)%nat.

(** Line terminators among the one-byte code units: LF and CR. *)
Definition isLineTerminator (c : ascii) : bool :=
  (code c =? 10)%nat || (code c =? 13)%nat.

(** [.] (no [s] flag): anything but a line terminator. *)
Definition isDot (c : ascii) : bool := negb (isLineTerminator c).

(** [\s], also the set stripped by [trim]: TAB, LF, VT, FF, CR, SPACE and
    NBSP are the white space and line terminators below 256. *)
Definition isWhitespace (c : ascii) : bool :=
  between 9 13 c || (code c =? 32)%nat || (code c =? 160)%nat.

(** [[\s\S]] *)
Definition isAny (c : ascii) : bool := isWhitespace c || negb (isWhitespace c).

Definition isEmpty (s : string) : bool :=
  match s with EmptyString => true | String _ _ => false end.

Fixpoint startsWith (p s : string) : bool :=
  match p with
  | EmptyString => true
  | String a p' =>
      match s with
      | EmptyString => false
      | String b s' => Ascii.eqb a b && startsWith p' s'
      end
  end.

(** [dropPrefix p s] is the rest of [s] after its prefix [p]. *)
Fixpoint dropPrefix (p s : string) : option string :=
  match p with
  | EmptyString => Some s
  | String a p' =>
      match s with
      | EmptyString => None
      | String b s' => if Ascii.eqb a b then dropPrefix p' s' else None
      end
  end.

Fixpoint take (n : nat) (s : string) : string :=
  match n, s with
  | S k, String c s' => String c (take k s')
  | _, _ => EmptyString
  end.

Fixpoint drop (n : nat) (s : string) : string :=
  match n, s with
  | S k, String _ s' => drop k s'
  | _, _ => s
  end.

(** The last code unit of [s], or [d] when [s] is empty. *)
Fixpoint lastOr (d : option ascii) (s : string) : option ascii :=
  match s with
  | EmptyString => d
  | String c s' => lastOr (Some c) s'
  end.

Definition snoc (s : string) (c : ascii) : string := s ++ String c EmptyString.

(** [String.prototype.includes] *)
Fixpoint includes (sep s : string) : bool :=
  startsWith sep s ||
  match s with
  | EmptyString => false
  | String _ s' => includes sep s'
  end.

(** [String.prototype.indexOf] *)
Fixpoint indexOf (sep s : string) : option nat :=
  if startsWith sep s then Some 0
  else match s with
       | EmptyString => None
       | String _ s' => option_map S (indexOf sep s')
       end.

(** [String.prototype.split] for a non-empty separator: [piece] is the
    text gathered since the last separator and [skip] counts the code
    units of a separator still to be passed over. *)
Fixpoint splitFrom (sep s : string) (skip : nat) (piece : string)
  : list string :=
  match s with
  | EmptyString => [piece]
  | String c s' =>
      match skip with
      | S k => splitFrom sep s' k piece
      | 0 =>
          if startsWith sep s
          then piece :: splitFrom sep s' (String.length sep - 1) EmptyString
          else splitFrom sep s' 0 (snoc piece c)
      end
  end.

Definition split (sep s : string) : list string :=
  splitFrom sep s 0 EmptyString.

Fixpoint trimStart (s : string) : string :=
  match s with
  | EmptyString => EmptyString
  | String c s' => if isWhitespace c then trimStart s' else s
  end.

Fixpoint trimEnd (s : string) : string :=
  match s with
  | EmptyString => EmptyString
  | String c s' =>
      let t := trimEnd s' in
      if isWhitespace c && isEmpty t then EmptyString else String c t
  end.

(** [String.prototype.trim] *)
Definition trim (s : string) : string := trimEnd (trimStart s).

Fixpoint forallb (p : ascii -> bool) (s : string) : bool :=
  match s with
  | EmptyString => true
  | String c s' => p c && forallb p s'
  end.

(** [Array.prototype.join] with separator [sep]. *)
Fixpoint join (sep : string) (l : list string) : string :=
  match l with
  | [] => EmptyString
  | [x] => x
  | x :: xs => x ++ sep ++ join sep xs
  end.

End JsString.

Import JsString.

(* ================================================================== *)
(** ** Regular expressions and [String.prototype.replace] *)
(* ================================================================== *)

Module Regex.

Inductive greed : Type := Greedy | Lazy.

(** The atoms the six patterns of the source are made of.  [Many g n cls]
    is a quantified character class ([cls+] for [n = 1], [cls*] for
    [n = 0], with [?] after it when [g] is [Lazy]); [Group] is the same
    inside a capturing group; [Back n] is the back-reference [\n];
    [Bound] is the assertion [\b]. *)
Inductive atom : Type :=
| Lit (s : string)
| Many (g : greed) (min : nat) (cls : ascii -> bool)
| Group (g : greed) (min : nat) (cls : ascii -> bool)
| Back (n : nat)
| Bound.

Definition regex : Type := list atom.

(** A successful match: the captures in group order and the input left. *)
Definition matchResult : Type := (list string * string)%type.

(** What follows a quantifier: the code unit before the current position,
    the text the quantifier took, and the input left. *)
Definition cont : Type := option ascii -> string -> string -> option matchResult.

Definition isWordAt (o : option ascii) : bool :=
  match o with Some c => isWord c | None => false end.

Definition head (s : string) : option ascii :=
  match s with EmptyString => None | String c _ => Some c end.

(** Lazy quantifier: the shortest repetition first. *)
Fixpoint lazyRep (cls : ascii -> bool) (k : cont) (min : nat)
         (prev : option ascii) (taken s : string) {struct s}
  : option matchResult :=
  match min with
  | 0 =>
      match k prev taken s with
      | Some res => Some res
      | None =>
          match s with
          | EmptyString => None
          | String c s' =>
              if cls c then lazyRep cls k 0 (Some c) (snoc taken c) s' else None
          end
      end
  | S m =>
      match s with
      | EmptyString => None
      | String c s' =>
          if cls c then lazyRep cls k m (Some c) (snoc taken c) s' else None
      end
  end.

(** Greedy quantifier: the longest repetition first, then shorter ones. *)
Fixpoint greedyRep (cls : ascii -> bool) (k : cont) (min : nat)
         (prev : option ascii) (taken s : string) {struct s}
  : option matchResult :=
  let stop := match min with 0 => k prev taken s | S _ => None end in
  match s with
  | EmptyString => stop
  | String c s' =>
      if cls c then
        match greedyRep cls k (pred min) (Some c) (snoc taken c) s' with
        | Some res => Some res
        | None => stop
        end
      else stop
  end.

Definition rep (g : greed) : (ascii -> bool) -> cont -> nat ->
                             option ascii -> string -> string -> option matchResult :=
  match g with Greedy => greedyRep | Lazy => lazyRep end.

(** [exec r prev caps s] runs [r] at the start of [s]; [prev] is the code
    unit just before [s] in the whole input (for [\b]) and [caps] the
    captures made so far.  Alternatives are tried in ECMAScript order and
    the first success is the answer. *)
Fixpoint exec (r : regex) (prev : option ascii) (caps : list string)
         (s : string) {struct r} : option matchResult :=
  match r with
  | [] => Some (caps, s)
  | Lit l :: r' =>
      match dropPrefix l s with
      | Some s' => exec r' (lastOr prev l) caps s'
      | None => None
      end
  | Many g min cls :: r' =>
      rep g cls (fun p _ s' => exec r' p caps s') min prev EmptyString s
  | Group g min cls :: r' =>
      rep g cls (fun p taken s' => exec r' p (caps ++ [taken]) s')
          min prev EmptyString s
  | Back n :: r' =>
      match nth_error caps (n - 1) with
      | Some l =>
          match dropPrefix l s with
          | Some s' => exec r' (lastOr prev l) caps s'
          | None => None
          end
      | None => exec r' prev caps s
      end
  | Bound :: r' =>
      if xorb (isWordAt prev) (isWordAt (head s))
      then exec r' prev caps s
      else None
  end.

(** The arguments a replacer function receives: the matched text and the
    captured groups [p1], [p2], ... *)
Record matchInfo : Type := { matched : string; groups : list string }.

Definition group (n : nat) (m : matchInfo) : string :=
  nth (n - 1) (groups m) EmptyString.

Definition matchAt (s : string) (res : matchResult) : matchInfo :=
  {| matched := take (String.length s - String.length (snd res)) s;
     groups := fst res |}.

(** [s.replace(r, f)] for a global [r]: the matches are looked for from
    left to right, each search starting where the previous match ended
    ([skip] counts the code units of the last match still to be passed
    over); the text between matches is copied and every match is replaced
    by what [f] returns.  An empty match advances by one code unit. *)
Fixpoint replaceLoop (r : regex) (f : matchInfo -> completion string)
         (prev : option ascii) (s : string) (skip : nat) {struct s}
  : completion string :=
  match skip with
  | S k =>
      match s with
      | EmptyString => Return EmptyString
      | String c s' => replaceLoop r f (Some c) s' k
      end
  | 0 =>
      match exec r prev [] s with
      | Some res =>
          new <- f (matchAt s res) ;;
          match s with
          | EmptyString => Return new
          | String c s' =>
              match String.length s - String.length (snd res) with
              | 0 => out <- replaceLoop r f (Some c) s' 0 ;;
                     Return (new ++ String c out)
              | S k => out <- replaceLoop r f (Some c) s' k ;;
                       Return (new ++ out)
              end
          end
      | None =>
          match s with
          | EmptyString => Return EmptyString
          | String c s' => out <- replaceLoop r f (Some c) s' 0 ;;
                           Return (String c out)
          end
      end
  end.

Definition replace (r : regex) (f : matchInfo -> completion string)
           (s : string) : completion string :=
  replaceLoop r f None s 0.

End Regex.

Import Regex.

(* ================================================================== *)
(** ** Numbers and [Number::toString] *)
(* ================================================================== *)

Module Number.

Local Open Scope Z_scope.

Definition prec : Z := 53.
Definition emax : Z := 1024.

(** A Number value: an IEEE 754 binary64 datum in canonical form (there is
    one NaN). *)
Record number : Type := Make {
  bits : spec_float;
  canonical : valid_binary prec emax bits = true
}.

Definition nan : number := Make S754_nan eq_refl.
Definition infinity : number := Make (S754_infinity false) eq_refl.

Definition ofBits (x : spec_float) : number :=
  match valid_binary prec emax x as b
        return (valid_binary prec emax x = b -> number) with
  | true => fun H => Make x H
  | false => fun _ => nan
  end eq_refl.

(** The Number value for an integer: the nearest binary64, ties to even. *)
Definition ofZ (z : Z) : number := ofBits (binary_normalize prec emax z 0 false).

(** [ToBoolean] is false on [+0], [-0] and [NaN]. *)
Definition isZeroOrNaN (x : number) : bool :=
  match bits x with
  | S754_zero _ | S754_nan => true
  | _ => false
  end.

(** Exact non-negative rationals, as a numerator and a positive
    denominator. *)
Definition ratio : Type := (Z * Z)%type.

(** [y * 2^e2 * 10^e10] *)
Definition scaled (y e2 e10 : Z) : ratio :=
  (y * 2 ^ Z.max e2 0 * 10 ^ Z.max e10 0,
   2 ^ Z.max (- e2) 0 * 10 ^ Z.max (- e10) 0).

Definition rcompare (a b : ratio) : comparison :=
  fst a * snd b ?= fst b * snd a.

Definition rfloor (a b : ratio) : Z := (fst a * snd b) / (fst b * snd a).

Definition rdistance (a b : ratio) : ratio :=
  (Z.abs (fst a * snd b - fst b * snd a), snd a * snd b).

Definition decimal (z : Z) : string := NilEmpty.string_of_int (Z.to_int z).

Fixpoint zeros (n : nat) : string :=
  match n with
  | O => EmptyString
  | S n' => String "0" (zeros n')
  end.

Fixpoint takeUnits (n : nat) (s : string) : string :=
  match n, s with
  | S k, String c s' => String c (takeUnits k s')
  | _, _ => EmptyString
  end.

Fixpoint dropUnits (n : nat) (s : string) : string :=
  match n, s with
  | S k, String _ s' => dropUnits k s'
  | _, _ => s
  end.

(** Number::toString, steps 5 to 10, for a positive finite value
    [m * 2^e] in canonical form: [s], [k] and [n] are such that [s] has [k]
    digits, [s * 10^(n-k)] is a decimal that rounds to the value, and [k]
    is as small as possible; of several such [s] the one nearest to the
    value is taken, and the even one of two equally near. *)
Section Shortest.

Variable m : positive.
Variable e : Z.

(** The value and the two ends of the interval of the reals that round to
    it, in units of [2^(e-2)]: the lower neighbour is at half the distance
    when [m] is the least mantissa of a binade. *)
Definition lowGap : Z :=
  if (Zpos m =? 2 ^ 52) && (-1074 <? e) then 1 else 2.

Definition exact : ratio := scaled (4 * Zpos m) (e - 2) 0.
Definition low : ratio := scaled (4 * Zpos m - lowGap) (e - 2) 0.
Definition high : ratio := scaled (4 * Zpos m + 2) (e - 2) 0.

Definition roundsHere (d : ratio) : bool :=
  let even := Z.even (Zpos m) in
  match rcompare low d with
  | Lt => true
  | Eq => even
  | Gt => false
  end
  && match rcompare d high with
     | Lt => true
     | Eq => even
     | Gt => false
     end.

Fixpoint firstAbove (fuel : nat) (n : Z) : Z :=
  match fuel with
  | O => n
  | S fuel' =>
      match rcompare exact (scaled 1 0 n) with
      | Lt => n
      | _ => firstAbove fuel' (n + 1)
      end
  end.

(** The least [n] with [value < 10^n]. *)
Definition magnitude : Z :=
  let bitLength := Zpos (digits2_pos m) + e in
  firstAbove 6 ((bitLength - 1) * 30103 / 100000 - 1).

Definition candidates (k : Z) : list (Z * Z) :=
  flat_map
    (fun n =>
       let q := n - k in
       let s0 := rfloor exact (scaled 1 0 q) in
       filter (fun sn =>
                 let s := fst sn in
                 (10 ^ (k - 1) <=? s) && (s <? 10 ^ k)
                 && roundsHere (scaled s 0 q))
              [(s0, n); (s0 + 1, n)])
    [magnitude - 1; magnitude; magnitude + 1].

Definition nearer (k : Z) (a b : Z * Z) : Z * Z :=
  match rcompare (rdistance (scaled (fst b) 0 (snd b - k)) exact)
                 (rdistance (scaled (fst a) 0 (snd a - k)) exact) with
  | Lt => b
  | Eq => if Z.even (fst b) && Z.odd (fst a) then b else a
  | Gt => a
  end.

Fixpoint shortest (fuel : nat) (k : Z) : Z * Z * Z :=
  match candidates k with
  | c :: cs => let best := fold_left (nearer k) cs c in (fst best, k, snd best)
  | [] =>
      match fuel with
      | O => (0, 1, 0)
      | S fuel' => shortest fuel' (k + 1)
      end
  end.

End Shortest.

Definition exponentPart (n : Z) : string :=
  let e := n - 1 in
  String "e" (append (if 0 <=? e then "+"%string else "-"%string)
                     (decimal (Z.abs e))).

(** Steps 6 to 10: the notation chosen from [k] and [n]. *)
Definition notation (s k n : Z) : string :=
  let digits := decimal s in
  let whole := Z.to_nat n in
  if (k <=? n) && (n <=? 21) then
    (digits ++ zeros (Z.to_nat (n - k)))%string
  else if (0 <? n) && (n <=? 21) then
    (takeUnits whole digits ++ "." ++ dropUnits whole digits)%string
  else if (-6 <? n) && (n <=? 0) then
    ("0." ++ zeros (Z.to_nat (- n)) ++ digits)%string
  else if k =? 1 then
    (digits ++ exponentPart n)%string
  else
    (takeUnits 1 digits ++ "." ++ dropUnits 1 digits ++ exponentPart n)%string.

(** Number::toString(x), radix 10 *)
Definition toString (x : number) : string :=
  match bits x with
  | S754_nan => "NaN"
  | S754_zero _ => "0"
  | S754_infinity s => if s then "-Infinity"%string else "Infinity"%string
  | S754_finite s m e =>
      let '(d, k, n) := shortest m e 17 1 in
      if s then String "-" (notation d k n) else notation d k n
  end.

End Number.

(* ================================================================== *)
(** ** The render context and the host *)
(* ================================================================== *)

(** The data handed to [renderTemplate]: a tree of mappings, arrays and
    scalars.  A mapping is a plain object, given by its own properties in
    order; an array is given by its elements.  [VFun] is a function,
    represented by its source text (what calling it gives is asked of the
    host), and [VProto] one of the two prototype objects,
    [Object.prototype] ([VProto false]) and [Array.prototype]
    ([VProto true]); both are what the [in] operator and a property read
    may reach through inheritance. *)
#[warnings="-register-all"]
Inductive value : Type :=
| VUndefined
| VNull
| VBool (b : bool)
| VNumber (x : Number.number)
| VStr (s : string)
| VArr (items : list value)
| VObj (fields : list (string * value))
| VFun (text : string)
| VProto (array : bool).

(** The Number value of an integer. *)
Definition VNum (z : Z) : value := VNumber (Number.ofZ z).

(** The host: [runFunction body] is [Function(body)()], the value the
    generated function returns, the exception thrown while compiling or
    running it, or [Diverge] when it does not return; [call text this] is
    the outcome of calling, without arguments and on [this], the function
    of the data whose source text is [text]; the member lists give the
    function-valued members that objects and arrays inherit, each with its
    source text.  The outcome of a run or of a call depends on the text
    (and on [this]) alone: code that changes the global state or the data
    between two runs is outside the model. *)
Record Host : Type := {
  runFunction : string -> completion value;
  call : string -> value -> completion value;
  objectMembers : list (string * string);
  arrayMembers : list (string * string)
}.

(** The template store: [templateDoc] is [None] until templates are
    imported, and then a document answering [getElementById]. *)
Record element : Type := { innerHTML : string }.
Record document : Type := { getElementById : string -> option element }.

Module Nedara.

Definition dquote : ascii := "034"%char.
Definition backslash : ascii := "092"%char.

(** The decimal numeral of an integer.  It is used for the indexes of
    arrays only: for an index, which is below [2^32], it is the property
    key under which the array holds the element. *)
Definition numberToString (z : Z) : string :=
  NilEmpty.string_of_int (Z.to_int z).

(** [ToString] of a primitive value; an object has none. *)
Definition primitiveToString (v : value) : option string :=
  match v with
  | VUndefined => Some "undefined"
  | VNull => Some "null"
  | VBool true => Some "true"
  | VBool false => Some "false"
  | VNumber x => Some (Number.toString x)
  | VStr s => Some s
  | VArr _ | VObj _ | VFun _ | VProto _ => None
  end.

(** [ToBoolean] *)
Definition truthy (v : value) : bool :=
  match v with
  | VUndefined | VNull => false
  | VBool b => b
  | VNumber x => negb (Number.isZeroOrNaN x)
  | VStr s => negb (isEmpty s)
  | VArr _ | VObj _ | VFun _ | VProto _ => true
  end.

(** [typeof v === "object"] *)
Definition typeofObject (v : value) : bool :=
  match v with
  | VNull | VArr _ | VObj _ | VProto _ => true
  | _ => false
  end.

(** [Array.isArray]: the elements of an array, [None] for anything else. *)
Definition arrayItems (v : value) : option (list value) :=
  match v with
  | VArr items => Some items
  | VProto true => Some []
  | _ => None
  end.

(** Nesting depth of a context. *)
Fixpoint depth (v : value) : nat :=
  match v with
  | VArr items => S (fold_right (fun x d => Nat.max (depth x) d) 0 items)
  | VObj fields =>
      S (fold_right (fun kv d => Nat.max (depth (snd kv)) d) 0 fields)
  | _ => 0
  end.

Fixpoint assoc {A : Type} (key : string) (l : list (string * A)) : option A :=
  match l with
  | [] => None
  | (k, v) :: l' => if String.eqb k key then Some v else assoc key l'
  end.

(** The element of an array whose index, written in decimal, is [key]. *)
Fixpoint elementAt (items : list value) (i : nat) (key : string)
  : option value :=
  match items with
  | [] => None
  | x :: xs =>
      if String.eqb (numberToString (Z.of_nat i)) key then Some x
      else elementAt xs (S i) key
  end.

Definition orElse {A : Type} (a b : option A) : option A :=
  match a with Some _ => a | None => b end.

Definition inherited (members : list (string * string)) (key : string)
  : option value :=
  option_map VFun (assoc key members).

Definition protoOf (key : string) (proto : value) : option value :=
  if String.eqb key "__proto__" then Some proto else None.

Definition lengthOf (key : string) (n : nat) : option value :=
  if String.eqb key "length" then Some (VNum (Z.of_nat n)) else None.

Section WithHost.

Variable h : Host.

(** One method of [OrdinaryToPrimitive]: [own] is the property of that
    name when the mapping has it itself (it is called when it is a
    function, and passed over otherwise) and [builtin] what the inherited
    method gives.  The result is the string form of the primitive
    obtained, or [None] when the method gave no primitive. *)
Definition conversion (this : value) (own : option value)
           (builtin : option string) : completion (option string) :=
  match own with
  | Some (VFun text) => r <- call h text this ;; Return (primitiveToString r)
  | Some _ => Return None
  | None => Return builtin
  end.

(** [ToString] of a mapping: [OrdinaryToPrimitive] with hint string tries
    [toString], then [valueOf], and throws a [TypeError] when neither gives
    a primitive.  The inherited [toString] gives [[object Object]]; the
    inherited [valueOf] gives the mapping itself, which is no primitive. *)
Definition objectToString (fields : list (string * value))
  : completion string :=
  first <- conversion (VObj fields) (assoc "toString" fields)
                      (Some "[object Object]") ;;
  match first with
  | Some s => Return s
  | None =>
      second <- conversion (VObj fields) (assoc "valueOf" fields) None ;;
      match second with
      | Some s => Return s
      | None => Throw TypeError
      end
  end.

(** [ToString]: the conversion [String.prototype.replace] applies to what
    a replacer function returns.  An array is joined with commas, its
    elements converted in turn, [undefined] and [null] to the empty
    string. *)
Fixpoint toString (v : value) : completion string :=
  match v with
  | VUndefined => Return "undefined"
  | VNull => Return "null"
  | VBool true => Return "true"
  | VBool false => Return "false"
  | VNumber x => Return (Number.toString x)
  | VStr s => Return s
  | VArr items =>
      (fix joined (l : list value) : completion string :=
         match l with
         | [] => Return EmptyString
         | x :: xs =>
             first <- match x with
                      | VUndefined | VNull => Return EmptyString
                      | _ => toString x
                      end ;;
             match xs with
             | [] => Return first
             | _ :: _ => rest <- joined xs ;; Return (first ++ "," ++ rest)
             end
         end) items
  | VObj fields => objectToString fields
  | VFun text => Return text
  | VProto true => Return EmptyString
  | VProto false => Return "[object Object]"
  end.

(** [member acc key] is [Some (acc[key])] when [key in acc] holds, for an
    [acc] that is an object: own properties first, then the inherited
    ones. *)
Definition member (acc : value) (key : string) : option value :=
  match acc with
  | VObj fields =>
      orElse (assoc key fields)
     (orElse (inherited (objectMembers h) key)
             (protoOf key (VProto false)))
  | VArr items =>
      orElse (elementAt items 0 key)
     (orElse (lengthOf key (List.length items))
     (orElse (inherited (arrayMembers h) key)
     (orElse (inherited (objectMembers h) key)
             (protoOf key (VProto true)))))
  | VProto true =>
      orElse (lengthOf key 0)
     (orElse (inherited (arrayMembers h) key)
     (orElse (inherited (objectMembers h) key)
             (protoOf key (VProto false))))
  | VProto false =>
      orElse (inherited (objectMembers h) key) (protoOf key VNull)
  | _ => None
  end.

(** function getValueFromPath(obj, path) *)
Definition getValueFromPath (obj : value) (path : string) : value :=
  fold_left
    (fun acc key =>
       if truthy acc && typeofObject acc then
         match member acc key with
         | Some v => v
         | None => VUndefined
         end
       else VUndefined)
    (split "." path) obj.

End WithHost.

(** ** The patterns of the source *)

(** /\{\{#if (.+?)\}\}([\s\S]*?)\{\{\/if\}\}/gm *)
Definition ifPattern : regex :=
  [Lit "{{#if "; Group Lazy 1 isDot; Lit "}}"; Group Lazy 0 isAny;
   Lit "{{/if}}"].

(** /\{\{#subif (.+?)\}\}([\s\S]*?)\{\{\/subif\}\}/gm *)
Definition subifPattern : regex :=
  [Lit "{{#subif "; Group Lazy 1 isDot; Lit "}}"; Group Lazy 0 isAny;
   Lit "{{/subif}}"].

(** /\{\{#([\w.]+)\}\}([\s\S]*?)\{\{\/\1\}\}/gm *)
Definition loopPattern : regex :=
  [Lit "{{#"; Group Greedy 1 isWordOrDot; Lit "}}"; Group Lazy 0 isAny;
   Lit "{{/"; Back 1; Lit "}}"].

(** /\{\{([\w.]+)\}\}/g *)
Definition variablePattern : regex :=
  [Lit "{{"; Group Greedy 1 isWordOrDot; Lit "}}"].

(** /nedara-(\w+)/g *)
Definition tagPattern : regex := [Lit "nedara-"; Group Greedy 1 isWord].

(** /\b[\w.]+\b/g *)
Definition identifierPattern : regex := [Bound; Many Greedy 1 isWordOrDot; Bound].

(** ** [JSON.stringify] of a string *)

Definition hexDigit (n : nat) : ascii :=
  ascii_of_nat (if (n <? 10)%nat then 48 + n else 87 + n).

Definition escapeUnit (c : ascii) : string :=
  let n := code c in
  if (n =? 8)%nat then String backslash "b"
  else if (n =? 9)%nat then String backslash "t"
  else if (n =? 10)%nat then String backslash "n"
  else if (n =? 12)%nat then String backslash "f"
  else if (n =? 13)%nat then String backslash "r"
  else if (n =? 34)%nat then String backslash (String dquote EmptyString)
  else if (n =? 92)%nat then String backslash (String backslash EmptyString)
  else if (n <? 32)%nat then
    String backslash
      ("u00" ++ String (hexDigit (n / 16)) (String (hexDigit (n mod 16)) EmptyString))
  else String c EmptyString.

Fixpoint escapeUnits (s : string) : string :=
  match s with
  | EmptyString => EmptyString
  | String c s' => escapeUnit c ++ escapeUnits s'
  end.

Definition jsonStringify (s : string) : string :=
  String dquote (escapeUnits s ++ String dquote EmptyString).

(** The body handed to [Function]: '"use strict"; return (' + sanitized + ')' *)
Definition functionBody (sanitized : string) : string :=
  String dquote ("use strict" ++ String dquote ("; return (" ++ sanitized ++ ")")).

(** [a[i].trim()]: a [TypeError] when [a[i]] is [undefined]. *)
Definition trimAt (a : list string) (i : nat) : completion string :=
  match nth_error a i with
  | Some s => Return (trim s)
  | None => Throw TypeError
  end.

Section Render.

Variable h : Host.

(** const sanitized = expr.replace(/\b[\w.]+\b/g, ...) *)
Definition sanitize (expr : string) (context : value) : completion string :=
  replace identifierPattern
    (fun m =>
       let val := getValueFromPath h context (matched m) in
       match val with
       | VUndefined => Return (matched m)
       | VStr s => Return (jsonStringify s)
       | _ => toString h val
       end)
    expr.

(** function evaluateExpression(expr, context) *)
Definition evaluateExpression (expr : string) (context : value)
  : completion value :=
  sanitized <- sanitize expr context ;;
  match runFunction h (functionBody sanitized) with
  | Return v => Return v
  | Throw _ => Return (VBool false)
  | Diverge => Diverge
  end.

(** function processConditionals(content, context); [fuel] bounds the
    nesting of the recursive calls. *)
Fixpoint processConditionals_rec (fuel : nat) (content : string)
         (context : value) {struct fuel} : completion string :=
  replace ifPattern
    (fun m =>
       let conditionExpr := group 1 m in
       let inner := group 2 m in
       conditionValue <- evaluateExpression (trim conditionExpr) context ;;
       innerProcessed <-
         match fuel with
         | 0 => Throw RangeError
         | S n => processConditionals_rec n inner context
         end ;;
       if truthy conditionValue then
         trimAt (split "{{else}}" innerProcessed) 0
       else if includes "{{else}}" inner then
         trimAt (split "{{else}}" innerProcessed) 1
       else Return EmptyString)
    content.

(** A recursive call is made on a captured part of [content], which is
    shorter than [content]: its length bounds the nesting. *)
Definition processConditionals (content : string) (context : value)
  : completion string :=
  processConditionals_rec (String.length content) content context.

(** function processSubConditionals(content, context) *)
Definition processSubConditionals (content : string) (context : value)
  : completion string :=
  replace subifPattern
    (fun m =>
       let conditionExpr := group 1 m in
       let inner := group 2 m in
       conditionValue <- evaluateExpression (trim conditionExpr) context ;;
       innerProcessed <- processConditionals inner context ;;
       if truthy conditionValue then
         trimAt (split "{{subelse}}" innerProcessed) 0
       else if includes "{{subelse}}" inner then
         trimAt (split "{{subelse}}" innerProcessed) 1
       else Return EmptyString)
    content.

(** The variable pass, written twice in the source: inside
    [processNestedLoops] with the current item, and at the end of
    [renderTemplate] with [data]. *)
Definition substituteVariables (context : value) (content : string)
  : completion string :=
  replace variablePattern
    (fun m =>
       let val := getValueFromPath h context (group 1 m) in
       match val with
       | VUndefined => Return (matched m)
       | _ => toString h val
       end)
    content.

(** function processNestedLoops(content, context); [fuel] bounds the
    nesting of the recursive calls. *)
Fixpoint processNestedLoops_rec (fuel : nat) (content : string)
         (context : value) {struct fuel} : completion string :=
  replace loopPattern
    (fun m =>
       let key := group 1 m in
       let section := group 2 m in
       let array := getValueFromPath h context key in
       match arrayItems array with
       | None => Return EmptyString
       | Some items =>
           outs <- mapM
                     (fun item =>
                        processed <- processConditionals section item ;;
                        processed <- processSubConditionals processed item ;;
                        processed <- substituteVariables item processed ;;
                        match fuel with
                        | 0 => Throw RangeError
                        | S n => processNestedLoops_rec n processed item
                        end)
                     items ;;
           Return (join EmptyString outs)
       end)
    content.

(** A recursive call is made with an element of an array found in
    [context]: the depth of [context] bounds the nesting. *)
Definition processNestedLoops (content : string) (context : value)
  : completion string :=
  processNestedLoops_rec (depth context) content context.

(** What [processNestedLoops] maps over the array: the expansion of the
    captured [section] for one element [item]. *)
Definition expandItem (section : string) (item : value)
  : completion string :=
  processed <- processConditionals section item ;;
  processed <- processSubConditionals processed item ;;
  processed <- substituteVariables item processed ;;
  processNestedLoops processed item.

(** The conditional pass written inline in [renderTemplate]. *)
Definition globalConditionals (data : value) (rendered : string)
  : completion string :=
  replace ifPattern
    (fun m =>
       let condition := group 1 m in
       let section := group 2 m in
       conditionResult <- evaluateExpression (trim condition) data ;;
       if truthy conditionResult then
         trimAt (split "{{else}}" section) 0
       else if includes "{{else}}" section then
         trimAt (split "{{else}}" section) 1
       else Return EmptyString)
    rendered.

(** rendered.replace(/nedara-(\w+)/g, "$1") *)
Definition unescapeTags (rendered : string) : completion string :=
  replace tagPattern (fun m => Return (group 1 m)) rendered.

(** function _getTemplate(id): [None] stands for [null]. *)
Definition _getTemplate (templateDoc : option document) (id : string)
  : option string :=
  match templateDoc with
  | None => None
  | Some doc =>
      match getElementById doc id with
      | None => None
      | Some template => Some (trim (innerHTML template))
      end
  end.

(** What [renderTemplate] does with a non-empty template text. *)
Definition renderContent (templateContent : string) (data : value)
  : completion string :=
  rendered <- processNestedLoops templateContent data ;;
  rendered <- processConditionals rendered data ;;
  rendered <- processSubConditionals rendered data ;;
  rendered <- globalConditionals data rendered ;;
  rendered <- substituteVariables data rendered ;;
  rendered <- unescapeTags rendered ;;
  Return rendered.

(** function renderTemplate(id, data = {}) *)
Definition renderTemplate (templateDoc : option document) (id : string)
           (data : value) : completion string :=
  let data := match data with VUndefined => VObj [] | _ => data end in
  match _getTemplate templateDoc id with
  | None => Return EmptyString
  | Some templateContent =>
      if isEmpty templateContent then Return EmptyString
      else renderContent templateContent data
  end.

End Render.

End Nedara.

Import Nedara.

(* ================================================================== *)
(** ** Widgets: the event bindings of [createWidget] *)
(* ================================================================== *)

(** The object [createWidget] builds, as its methods [_bindEvents] and
    [destroy] read it: the [selector] option (a string), the entries of
    [events] in the order of [Object.keys], and [defined name], which tells
    whether [this[name]] is truthy.  What the two methods do is the list of
    the calls they make, in order: [On] and [Off] are the calls of the
    methods [on] and [off] of [$(this.container)], [Hook] a call of one of
    the widget's own functions. *)
Module Widget.

Record widget : Type := {
  selector : string;
  events : list (string * string);
  defined : string -> bool
}.

Inductive call : Type :=
| On (eventName target handler : string)
| Off (eventName target : string)
| Hook (name : string).

(** const [eventName, selector] = key.split(" "), and the two arguments
    [eventName] and [this.selector + (selector ? " " + selector : "")]
    built from them. *)
Definition eventTarget (widgetSelector key : string) : string * string :=
  let parts := split " " key in
  let eventName := nth 0 parts EmptyString in
  let target :=
    match nth_error parts 1 with
    | Some selector =>
        if isEmpty selector then widgetSelector
        else widgetSelector ++ " " ++ selector
    | None => widgetSelector
    end in
  (eventName, target).

(** _bindEvents: function () *)
Definition _bindEvents (w : widget) : list call :=
  flat_map
    (fun entry =>
       let (eventName, target) := eventTarget (selector w) (fst entry) in
       if defined w (snd entry) then [On eventName target (snd entry)] else [])
    (events w).

(** refresh: function () *)
Definition refresh (w : widget) : list call := _bindEvents w.

(** destroy: function () *)
Definition destroy (w : widget) : list call :=
  Hook "end"
  :: map (fun entry =>
            let (eventName, target) := eventTarget (selector w) (fst entry) in
            Off eventName target)
         (events w).

End Widget.

(* ================================================================== *)
(** ** A host for the closed examples *)
(* ================================================================== *)

(** [literalHost] evaluates the bodies [evaluateExpression] builds from a
    single literal ([true], [false], [null], a decimal integer with or
    without a minus sign, a double-quoted string without escapes) or from
    one of the global names [undefined], [NaN] and [Infinity]; another
    lone identifier is taken to be one that the global scope does not
    bind, and throws a [ReferenceError].  It is no JavaScript evaluator:
    it answers every other body with a [SyntaxError], and of the functions
    of the data it only calls those written [() => literal].  The
    conditions that the closed examples evaluate are within this
    fragment.  The theorems hold for every host; this one serves the
    closed examples. *)
Module LiteralHost.

Definition isDigit (c : ascii) : bool := between 48 57 c.

Definition isIdentifierStart (c : ascii) : bool :=
  (isWord c && negb (isDigit c)) || (code c =? 36)%nat.

Definition isIdentifierPart (c : ascii) : bool :=
  isWord c || (code c =? 36)%nat.

Fixpoint digitsValue (acc : Z) (s : string) : Z :=
  match s with
  | EmptyString => acc
  | String c s' => digitsValue (acc * 10 + Z.of_nat (code c - 48))%Z s'
  end.

(** [s] without its last code unit, when that one is [c]. *)
Fixpoint dropLast (c : ascii) (s : string) : option string :=
  match s with
  | EmptyString => None
  | String a EmptyString => if Ascii.eqb a c then Some EmptyString else None
  | String a s' => option_map (String a) (dropLast c s')
  end.

Definition isPlainUnit (c : ascii) : bool :=
  negb (Ascii.eqb c dquote) && negb (Ascii.eqb c backslash)
  && negb (isLineTerminator c).

Definition evalLiteral (src : string) : completion value :=
  let e := trim src in
  if String.eqb e "true" then Return (VBool true)
  else if String.eqb e "false" then Return (VBool false)
  else if String.eqb e "null" then Return VNull
  else if String.eqb e "undefined" then Return VUndefined
  else if String.eqb e "NaN" then Return (VNumber Number.nan)
  else if String.eqb e "Infinity" then Return (VNumber Number.infinity)
  else
    match e with
    | EmptyString => Throw (Thrown "SyntaxError")
    | String c rest =>
        if isDigit c then
          if JsString.forallb isDigit rest
             && (negb (Ascii.eqb c "0"%char) || isEmpty rest)
          then Return (VNum (digitsValue 0 e))
          else Throw (Thrown "SyntaxError")
        else if Ascii.eqb c "-"%char then
          match rest with
          | EmptyString => Throw (Thrown "SyntaxError")
          | String d rest' =>
              if JsString.forallb isDigit rest
                 && (negb (Ascii.eqb d "0"%char) || isEmpty rest')
              then Return (VNum (- digitsValue 0 rest))
              else Throw (Thrown "SyntaxError")
          end
        else if Ascii.eqb c dquote then
          match dropLast dquote rest with
          | Some text =>
              if JsString.forallb isPlainUnit text then Return (VStr text)
              else Throw (Thrown "SyntaxError")
          | None => Throw (Thrown "SyntaxError")
          end
        else if isIdentifierStart c && JsString.forallb isIdentifierPart rest
        then Throw (Thrown "ReferenceError")
        else Throw (Thrown "SyntaxError")
    end.

Definition run (body : string) : completion value :=
  match dropPrefix (String dquote ("use strict" ++ String dquote "; return ("))
                   body with
  | Some rest =>
      match dropLast ")"%char rest with
      | Some src => evalLiteral src
      | None => Throw (Thrown "SyntaxError")
      end
  | None => Throw (Thrown "SyntaxError")
  end.

(** A function of the data written [() => literal] returns the literal. *)
Definition callArrow (text : string) (this : value) : completion value :=
  match dropPrefix "() => " text with
  | Some body => evalLiteral body
  | None => Throw (Thrown "Error")
  end.

(** The source text of the built-in function [name]. *)
Definition nativeText (name : string) : string :=
  "function " ++ name ++ "() { [native code] }".

(** A method that a prototype holds under its own name. *)
Definition native (name : string) : string * string :=
  (name, nativeText name).

Definition host : Host :=
  {| runFunction := run;
     call := callArrow;
     objectMembers :=
       ("constructor", nativeText "Object")
       :: map native ["hasOwnProperty"; "isPrototypeOf";
                      "propertyIsEnumerable"; "toLocaleString"; "toString";
                      "valueOf"];
     arrayMembers :=
       ("constructor", nativeText "Array")
       :: map native ["at"; "concat"; "entries"; "every"; "fill"; "filter";
                      "find"; "findIndex"; "flat"; "flatMap"; "forEach";
                      "includes"; "indexOf"; "join"; "keys"; "lastIndexOf";
                      "map"; "pop"; "push"; "reduce"; "reduceRight";
                      "reverse"; "shift"; "slice"; "some"; "sort"; "splice";
                      "toLocaleString"; "toString"; "unshift"; "values"] |}.

End LiteralHost.

Definition literalHost : Host := LiteralHost.host.

(** A template store holding one template. *)
Definition oneTemplate (name source : string) : option document :=
  Some {| getElementById := fun id =>
            if String.eqb id name then Some {| innerHTML := source |} else None |}.

(** The inputs of the closed examples. *)
Module Examples.

Definition noData : value := VObj [].

Definition escapedTwice : string := "nedara-nedara-div".

Definition escapedParagraph : string := "<nedara-p>Hi</nedara-p>".

Definition annData : value := VObj [("name", VStr "Ann")].

Definition listData : value :=
  VObj [("items", VArr [VObj [("name", VStr "a")]; VObj [("name", VStr "b")]])].

Definition flagData : value := VObj [("flag", VBool true)].

(** An [if] block nested in the then part of another one. *)
Definition nestedConditional : string :=
  "{{#if 0}}A{{#if 1}}B{{/if}}C{{else}}D{{/if}}".

(** A [subif] block whose [subelse] marker sits inside an [if] block that
    is itself nested in another [if] block. *)
Definition slipTemplate : string :=
  "{{#subif c}}{{#if a}}{{#if b}}{{/if}}{{subelse}}{{/if}}{{/subif}}".

Definition slipData : value :=
  VObj [("a", VBool true); ("b", VBool false); ("c", VBool false)].

(** A loop whose body names a variable that only the root data have. *)
Definition scopeTemplate : string := "{{#items}}<li>{{title}}</li>{{/items}}".

Definition scopeData : value :=
  VObj [("title", VStr "T"); ("items", VArr [VObj []; VObj []])].

(** The nested loops of the README. *)
Definition catalogTemplate : string :=
  "{{#categories}}<h2>{{name}}</h2>{{#items}}<li>{{name}}</li>{{/items}}{{/categories}}".

Definition catalogData : value :=
  VObj [("categories",
         VArr [VObj [("name", VStr "Books");
                     ("items", VArr [VObj [("name", VStr "Fiction")]])]])].

(** A loop over two elements of which only the first has the variable of
    the body, under root data that have it too. *)
Definition mixedTemplate : string :=
  "<ul>{{#items}}<li>{{title}}</li>{{/items}}</ul>".

Definition mixedData : value :=
  VObj [("title", VStr "T");
        ("items", VArr [VObj [("title", VStr "own")]; VObj []])].

(** A condition naming a global that the data do not hold. *)
Definition globalCondition : string := "{{#if Infinity}}Y{{else}}N{{/if}}".

(** Data holding an object whose [toString] is not a function: the
    conversion of that object to a string throws. *)
Definition unprintableData : value :=
  VObj [("a", VObj [("toString", VNum 1)])].

End Examples.

(* ================================================================== *)
(** ** Notions used to state the properties *)
(* ================================================================== *)

Module Notions.

(** The input stops the class [cls]: it is empty or starts outside it. *)
Definition stopsAt (cls : ascii -> bool) (s : string) : bool :=
  match s with
  | EmptyString => true
  | String c _ => negb (cls c)
  end.

(** No match of [r] starts at any position of [s]. *)
Definition noMatch (r : regex) (s : string) : Prop :=
  forall n p, exec r p [] (drop n s) = None.

(** No match of [r] starts inside the prefix [pre] of [pre ++ s]. *)
Definition clearBefore (r : regex) (pre s : string) : Prop :=
  forall n, n < String.length pre ->
            forall p, exec r p [] (drop n pre ++ s) = None.

(** Only [\b] looks at the code unit before the current position. *)
Fixpoint boundFree (r : regex) : bool :=
  match r with
  | [] => true
  | Bound :: _ => false
  | _ :: r' => boundFree r'
  end.

(** The shape shared by [ifPattern] and [subifPattern]. *)
Definition conditionalPattern (opening closing : string) : regex :=
  [Lit opening; Group Lazy 1 isDot; Lit "}}"; Group Lazy 0 isAny; Lit closing].

(** A condition the matcher reads as a whole: not empty, on one line, and
    such that the first brace pair closing after its first code unit is the
    one that ends the marker. *)
Definition plainExpression (e : string) : bool :=
  match e with
  | EmptyString => false
  | String c e' =>
      isDot c && JsString.forallb isDot e'
      && match indexOf "}}" (e' ++ "}}") with
         | Some n => Nat.eqb n (String.length e')
         | None => false
         end
  end.

(** The closing marker of the loop on [key]. *)
Definition closingMarker (key : string) : string := "{{/" ++ key ++ "}}".

(** The text starts with the reserved prefix followed by a word
    character: that is where [tagPattern] matches. *)
Definition escapedTagAt (t : string) : bool :=
  match dropPrefix "nedara-" t with
  | Some rest => negb (stopsAt isWord rest)
  | None => false
  end.

Fixpoint hasEscapedTag (s : string) : bool :=
  escapedTagAt s ||
  match s with
  | EmptyString => false
  | String _ s' => hasEscapedTag s'
  end.

(** The replacer of the tag-escape pass: the replacement text "$1". *)
Definition keep (m : matchInfo) : completion string := Return (group 1 m).

(** One step of the walk of [getValueFromPath]. *)
Definition pathStep (h : Host) (acc : value) (key : string) : value :=
  if truthy acc && typeofObject acc then
    match member h acc key with
    | Some v => v
    | None => VUndefined
    end
  else VUndefined.

(** What the variable pass puts for the marker of [path]: the string
    form of the value found, when the conversion gives one, or the marker
    itself when the path does not resolve. *)
Definition resolvedText (h : Host) (context : value) (path : string)
  : completion string :=
  match getValueFromPath h context path with
  | VUndefined => Return ("{{" ++ path ++ "}}")
  | v => toString h v
  end.

(** A text made of variable markers, each after some text [pre], and of a
    last piece [tail]. *)
Fixpoint markup (segments : list (string * string)) (tail : string) : string :=
  match segments with
  | [] => tail
  | (pre, path) :: rest => pre ++ "{{" ++ path ++ "}}" ++ markup rest tail
  end.

(** The same text with every marker replaced by [resolvedText], from left
    to right. *)
Fixpoint substituted (h : Host) (context : value)
         (segments : list (string * string)) (tail : string)
  : completion string :=
  match segments with
  | [] => Return tail
  | (pre, path) :: rest =>
      text <- resolvedText h context path ;;
      out <- substituted h context rest tail ;;
      Return (pre ++ text ++ out)
  end.

(** [pre] is followed by a marker for [path]: no brace pair opens inside
    [pre], and [path] is a non-empty run of word characters and dots. *)
Definition variableSegment (segment : string * string) : Prop :=
  indexOf "{{" (fst segment ++ "{{") = Some (String.length (fst segment)) /\
  JsString.forallb isWordOrDot (snd segment) = true /\
  isEmpty (snd segment) = false.

(** The two kinds of conditional block and their markers. *)
Inductive conditionalKind : Type := IfBlock | SubIfBlock.

Definition openingMarker (k : conditionalKind) : string :=
  match k with IfBlock => "{{#if " | SubIfBlock => "{{#subif " end.

Definition closingOf (k : conditionalKind) : string :=
  match k with IfBlock => "{{/if}}" | SubIfBlock => "{{/subif}}" end.

Definition elseMarker (k : conditionalKind) : string :=
  match k with IfBlock => "{{else}}" | SubIfBlock => "{{subelse}}" end.

Definition conditionalPass (h : Host) (k : conditionalKind)
           (content : string) (context : value) : completion string :=
  match k with
  | IfBlock => processConditionals h content context
  | SubIfBlock => processSubConditionals h content context
  end.

(** Text without any opening brace. *)
Definition notBrace (c : ascii) : bool := negb (Ascii.eqb c "{"%char).

Definition plainText (s : string) : bool := JsString.forallb notBrace s.

(** [l] starts nowhere inside the prefix [body] of [body ++ rest]. *)
Fixpoint clearOf (l body rest : string) : bool :=
  match body with
  | EmptyString => true
  | String _ body' => negb (startsWith l (body ++ rest)) && clearOf l body' rest
  end.

(** The body of a loop that holds one variable marker between two plain
    texts. *)
Definition oneVariable (a v b : string) : string := a ++ "{{" ++ v ++ "}}" ++ b.

(** The default of the parameter [data = {}] of [renderTemplate]. *)
Definition orEmptyObject (data : value) : value :=
  match data with VUndefined => VObj [] | _ => data end.

(** A computation that does not throw: it returns, or it does not
    terminate. *)
Definition quiet {A : Type} (c : completion A) : Prop :=
  forall e, c <> Throw e.

(** A computation that returns. *)
Definition returns {A : Type} (c : completion A) : Prop :=
  exists a, c = Return a.

(** The matches of a global pattern in a text, in the order in which
    [replace] visits them (those of [String.prototype.matchAll]). *)
Fixpoint matchesFrom (r : regex) (prev : option ascii) (s : string)
         (skip : nat) {struct s} : list matchInfo :=
  match skip with
  | S k =>
      match s with
      | EmptyString => []
      | String c s' => matchesFrom r (Some c) s' k
      end
  | 0 =>
      match exec r prev [] s with
      | Some res =>
          matchAt s res
          :: match s with
             | EmptyString => []
             | String c s' =>
                 match String.length s - String.length (snd res) with
                 | 0 => matchesFrom r (Some c) s' 0
                 | S k => matchesFrom r (Some c) s' k
                 end
             end
      | None =>
          match s with
          | EmptyString => []
          | String c s' => matchesFrom r (Some c) s' 0
          end
      end
  end.

(** The identifier-like pieces of a condition: what [evaluateExpression]
    looks up in the context. *)
Definition identifiers (expr : string) : list string :=
  map matched (matchesFrom identifierPattern None expr 0).

(** The paths of the variable markers of a text. *)
Definition markers (text : string) : list string :=
  map (group 1) (matchesFrom variablePattern None text 0).

(** The code unit is white space ([None] stands for the end of the
    text). *)
Definition blankAt (o : option ascii) : bool :=
  match o with
  | Some c => isWhitespace c
  | None => false
  end.

End Notions.

Import Notions.

(** Settles [clearBefore r pre s] for a given text [pre]: the matcher is run
    at each of its positions. *)
Ltac clear_by_cases :=
  let n := fresh "n" in
  let Hn := fresh "Hn" in
  let p := fresh "p" in
  intros n Hn p;
  repeat (destruct n as [|n]; [reflexivity|]);
  simpl in Hn; lia.

(* ================================================================== *)
(** ** Facts about strings *)
(* ================================================================== *)

Section StringFacts.

Lemma append_nil_r (s : string) : s ++ "" = s.
Proof. induction s as [|c s IH]; simpl; [reflexivity | now rewrite IH]. Qed.

Lemma append_assoc (a b c : string) : (a ++ b) ++ c = a ++ (b ++ c).
Proof. induction a as [|x a IH]; simpl; [reflexivity | now rewrite IH]. Qed.

Lemma length_append (a b : string) :
  String.length (a ++ b) = String.length a + String.length b.
Proof. induction a as [|x a IH]; simpl; [reflexivity | now rewrite IH]. Qed.

Lemma snoc_append (t : string) (c : ascii) (s : string) :
  snoc t c ++ s = t ++ String c s.
Proof. unfold snoc. now rewrite append_assoc. Qed.

Lemma lastOr_append (d : option ascii) (a b : string) :
  lastOr d (a ++ b) = lastOr (lastOr d a) b.
Proof. revert d; induction a as [|x a IH]; intros d; simpl; auto. Qed.

Lemma dropPrefix_app (p s : string) : dropPrefix p (p ++ s) = Some s.
Proof.
  induction p as [|a p IH]; simpl; [reflexivity|].
  now rewrite Ascii.eqb_refl.
Qed.

Lemma dropPrefix_inv (p s r : string) : dropPrefix p s = Some r -> s = p ++ r.
Proof.
  revert s; induction p as [|a p IH]; intros s; simpl.
  - now intros [= ->].
  - destruct s as [|b s]; [discriminate|].
    destruct (Ascii.eqb_spec a b) as [->|]; [|discriminate].
    intros H. now rewrite (IH _ H).
Qed.

Lemma startsWith_dropPrefix (p s : string) :
  startsWith p s = true <-> exists r, dropPrefix p s = Some r.
Proof.
  revert s; induction p as [|a p IH]; intros s; simpl.
  - split; eauto.
  - destruct s as [|b s].
    + split; [discriminate | intros [r [=]]].
    + destruct (Ascii.eqb a b); simpl; [apply IH|].
      split; [discriminate | intros [r [=]]].
Qed.

Lemma dropPrefix_none (p s : string) :
  startsWith p s = false -> dropPrefix p s = None.
Proof.
  intros H. destruct (dropPrefix p s) eqn:E; [|reflexivity].
  assert (startsWith p s = true) by (apply startsWith_dropPrefix; eauto).
  congruence.
Qed.

Lemma startsWith_app (p s : string) : startsWith p (p ++ s) = true.
Proof. apply startsWith_dropPrefix. exists s. apply dropPrefix_app. Qed.

Lemma startsWith_inv (p s : string) :
  startsWith p s = true -> exists r, s = p ++ r.
Proof.
  intros H. apply startsWith_dropPrefix in H as [r H].
  exists r. now apply dropPrefix_inv.
Qed.

Lemma startsWith_weaken (p x y : string) :
  startsWith p x = true -> startsWith p (x ++ y) = true.
Proof.
  intros H. apply startsWith_inv in H as [r ->].
  rewrite append_assoc. apply startsWith_app.
Qed.

Lemma startsWith_shorter (a b s : string) :
  startsWith (a ++ b) s = true -> startsWith a s = true.
Proof.
  intros H. apply startsWith_inv in H as [r ->].
  rewrite append_assoc. apply startsWith_app.
Qed.

Lemma includes_shorter (a b s : string) :
  includes a s = false -> includes (a ++ b) s = false.
Proof.
  induction s as [|c s IH]; simpl; intros H;
    apply orb_false_iff in H as [H1 H2]; apply orb_false_iff; split; auto;
    destruct (startsWith (a ++ b) _) eqn:E; auto;
    apply startsWith_shorter in E; congruence.
Qed.

Lemma includes_tail (l : string) (c : ascii) (s : string) :
  includes l (String c s) = false -> includes l s = false.
Proof. simpl. intros H. now apply orb_false_iff in H. Qed.

Lemma includes_head (l s : string) :
  includes l s = false -> startsWith l s = false.
Proof. destruct s; simpl; intros H; now apply orb_false_iff in H. Qed.

Lemma includes_drop (l s : string) (n : nat) :
  includes l s = false -> includes l (drop n s) = false.
Proof.
  revert s; induction n as [|n IH]; intros s H; [now destruct s|].
  destruct s as [|c s]; [exact H|]. simpl. apply IH.
  now apply includes_tail in H.
Qed.

Lemma take_app (m s : string) : take (String.length m) (m ++ s) = m.
Proof. induction m as [|c m IH]; simpl; [now destruct s | now rewrite IH]. Qed.

Lemma drop_app (m s : string) : drop (String.length m) (m ++ s) = s.
Proof. induction m as [|c m IH]; simpl; [now destruct s | exact IH]. Qed.

Lemma take_drop n : forall s, take n s ++ drop n s = s.
Proof.
  induction n as [|n IH]; intros [|c s]; try reflexivity.
  cbn [take drop append]. now rewrite IH.
Qed.

Lemma length_app_sub (m s : string) :
  String.length (m ++ s) - String.length s = String.length m.
Proof. rewrite length_append. lia. Qed.

End StringFacts.

(* ================================================================== *)
(** ** Facts about the matcher and the replace loop *)
(* ================================================================== *)

Section EngineFacts.

Implicit Types (r : regex) (f : matchInfo -> completion string).

Lemma bind_assoc {A B C : Type} (c : completion A)
      (k1 : A -> completion B) (k2 : B -> completion C) :
  bind (bind c k1) k2 = bind c (fun a => bind (k1 a) k2).
Proof. now destruct c. Qed.

Lemma bind_ext {A B : Type} (c : completion A) (k1 k2 : A -> completion B) :
  (forall a, k1 a = k2 a) -> bind c k1 = bind c k2.
Proof. intros H. destruct c; simpl; auto. Qed.

Lemma exec_lit_none r l p caps s :
  startsWith l s = false -> exec (Lit l :: r) p caps s = None.
Proof. intros H. simpl. now rewrite (dropPrefix_none _ _ H). Qed.

Lemma exec_lit_app r l p caps s :
  exec (Lit l :: r) p caps (l ++ s) = exec r (lastOr p l) caps s.
Proof. simpl. now rewrite dropPrefix_app. Qed.

Lemma exec_lit_inv r l p caps s res :
  exec (Lit l :: r) p caps s = Some res ->
  exists s', s = l ++ s' /\ exec r (lastOr p l) caps s' = Some res.
Proof.
  simpl. destruct (dropPrefix l s) as [s'|] eqn:E; [|discriminate].
  intros H. exists s'. split; [now apply dropPrefix_inv | exact H].
Qed.

(** One step of the loop at a position where a search starts. *)
Lemma replaceLoop_search r f p s :
  replaceLoop r f p s 0 =
  match exec r p [] s with
  | Some res =>
      new <- f (matchAt s res) ;;
      match s with
      | EmptyString => Return new
      | String c s' =>
          match String.length s - String.length (snd res) with
          | 0 => out <- replaceLoop r f (Some c) s' 0 ;;
                 Return (new ++ String c out)
          | S k => out <- replaceLoop r f (Some c) s' k ;;
                   Return (new ++ out)
          end
      end
  | None =>
      match s with
      | EmptyString => Return EmptyString
      | String c s' => out <- replaceLoop r f (Some c) s' 0 ;;
                       Return (String c out)
      end
  end.
Proof. destruct s; reflexivity. Qed.

Lemma noMatch_tail r c s : noMatch r (String c s) -> noMatch r s.
Proof. intros H n p. exact (H (S n) p). Qed.

Lemma replaceLoop_noMatch r f s :
  noMatch r s -> forall p, replaceLoop r f p s 0 = Return s.
Proof.
  induction s as [|c s IH]; intros H p; rewrite replaceLoop_search;
    pose proof (H 0 p) as E; simpl in E; rewrite E; [reflexivity|].
  now rewrite (IH (noMatch_tail _ _ _ H)).
Qed.

Lemma noMatch_absent r l s : includes l s = false -> noMatch (Lit l :: r) s.
Proof.
  intros H n p. apply exec_lit_none, includes_head. now apply includes_drop.
Qed.

Lemma replace_absent r f l s :
  includes l s = false -> replace (Lit l :: r) f s = Return s.
Proof. intros H. apply replaceLoop_noMatch. now apply noMatch_absent. Qed.

(** Passing over the rest of a match. *)
Lemma replaceLoop_skip r f m s p :
  replaceLoop r f p (m ++ s) (String.length m) =
  replaceLoop r f (lastOr p m) s 0.
Proof.
  revert p; induction m as [|c m IH]; intros p; simpl.
  - now destruct s.
  - apply IH.
Qed.

Lemma clearBefore_tail r c pre s :
  clearBefore r (String c pre) s -> clearBefore r pre s.
Proof. intros H n Hn p. apply (H (S n)). simpl. lia. Qed.

Lemma replaceLoop_prefix r f pre s :
  clearBefore r pre s ->
  forall p,
    replaceLoop r f p (pre ++ s) 0 =
    out <- replaceLoop r f (lastOr p pre) s 0 ;; Return (pre ++ out).
Proof.
  induction pre as [|c pre IH]; intros H p.
  - simpl. now destruct (replaceLoop r f p s 0).
  - rewrite replaceLoop_search.
    assert (E : exec r p [] (String c pre ++ s) = None)
      by (apply (H 0); simpl; lia).
    rewrite E. simpl.
    rewrite (IH (clearBefore_tail _ _ _ _ H)), bind_assoc.
    reflexivity.
Qed.

Lemma replaceLoop_match r f c m s p caps :
  exec r p [] (String c m ++ s) = Some (caps, s) ->
  replaceLoop r f p (String c m ++ s) 0 =
  new <- f {| matched := String c m; groups := caps |} ;;
  out <- replaceLoop r f (lastOr p (String c m)) s 0 ;;
  Return (new ++ out).
Proof.
  intros H. rewrite replaceLoop_search, H.
  unfold matchAt. cbn [fst snd].
  rewrite length_app_sub, take_app.
  apply bind_ext; intros new.
  cbn [append String.length].
  rewrite replaceLoop_skip. reflexivity.
Qed.

Lemma indexOf_clear (l pre s : string) :
  indexOf l (pre ++ s) = Some (String.length pre) ->
  forall n, n < String.length pre -> startsWith l (drop n pre ++ s) = false.
Proof.
  induction pre as [|c pre IH]; intros H n Hn; [simpl in Hn; lia|].
  simpl in H.
  destruct (startsWith l (String c (pre ++ s))) eqn:E; [discriminate|].
  destruct (indexOf l (pre ++ s)) as [i|] eqn:Ei; [|discriminate].
  simpl in H. injection H as ->.
  destruct n as [|n]; [exact E|].
  simpl. apply IH; [reflexivity | simpl in Hn; lia].
Qed.

Lemma clearBefore_indexOf r l pre s :
  indexOf l (pre ++ s) = Some (String.length pre) ->
  clearBefore (Lit l :: r) pre s.
Proof.
  intros H n Hn p. apply exec_lit_none. now apply indexOf_clear.
Qed.

End EngineFacts.

(* ================================================================== *)
(** ** Facts about the quantifiers *)
(* ================================================================== *)

Section QuantifierFacts.

Variable cls : ascii -> bool.

Lemma lazyRep_now (k : cont) p t s res :
  k p t s = Some res -> lazyRep cls k 0 p t s = Some res.
Proof. intros H. destruct s; simpl; now rewrite H. Qed.

Lemma lazyRep_scan (k : cont) body :
  forall s p t,
    JsString.forallb cls body = true ->
    (forall n, n < String.length body ->
               k (lastOr p (take n body)) (t ++ take n body)
                 (drop n body ++ s) = None) ->
    lazyRep cls k 0 p t (body ++ s) =
    lazyRep cls k 0 (lastOr p body) (t ++ body) s.
Proof.
  induction body as [|c body IH]; intros s p t Hc Hk.
  - simpl. now rewrite append_nil_r.
  - simpl in Hc. apply andb_true_iff in Hc as [Hc1 Hc2].
    pose proof (Hk 0 ltac:(simpl; lia)) as H0. simpl in H0.
    rewrite append_nil_r in H0.
    cbn [append lazyRep]. rewrite H0, Hc1.
    rewrite (IH s (Some c) (snoc t c) Hc2).
    + now rewrite snoc_append.
    + intros n Hn. rewrite snoc_append.
      apply (Hk (S n)). simpl. lia.
Qed.

Lemma lazyRep_inv (k : cont) :
  forall s min p t res,
    lazyRep cls k min p t s = Some res ->
    exists body s2,
      s = body ++ s2 /\ min <= String.length body /\
      JsString.forallb cls body = true /\
      k (lastOr p body) (t ++ body) s2 = Some res /\
      (forall n, min <= n < String.length body ->
                 k (lastOr p (take n body)) (t ++ take n body)
                   (drop n body ++ s2) = None).
Proof.
  induction s as [|c s IH]; intros min p t res H.
  - destruct min as [|m]; simpl in H; [|discriminate].
    destruct (k p t "") eqn:E; [|discriminate].
    exists "", "". simpl. rewrite append_nil_r.
    repeat split; auto; [congruence | intros n Hn; lia].
  - destruct min as [|m]; simpl in H.
    + destruct (k p t (String c s)) eqn:E.
      * exists "", (String c s). simpl. rewrite append_nil_r.
        repeat split; auto; [congruence | intros n Hn; lia].
      * destruct (cls c) eqn:Ec; [|discriminate].
        apply IH in H as (body & s2 & -> & _ & Hb & Hk & Hmin).
        exists (String c body), s2. simpl. rewrite Ec, Hb.
        rewrite snoc_append in Hk.
        repeat split; auto; [lia|].
        intros [|n] Hn; simpl.
        -- now rewrite append_nil_r.
        -- specialize (Hmin n ltac:(lia)).
           now rewrite snoc_append in Hmin.
    + destruct (cls c) eqn:Ec; [|discriminate].
      apply IH in H as (body & s2 & -> & Hm & Hb & Hk & Hmin).
      exists (String c body), s2. simpl. rewrite Ec, Hb.
      rewrite snoc_append in Hk.
      repeat split; auto; [lia|].
      intros [|n] Hn; [lia|]. simpl.
      specialize (Hmin n ltac:(lia)).
      now rewrite snoc_append in Hmin.
Qed.

Lemma greedyRep_full (k : cont) w :
  forall s min p t res,
    JsString.forallb cls w = true ->
    min <= String.length w ->
    stopsAt cls s = true ->
    k (lastOr p w) (t ++ w) s = Some res ->
    greedyRep cls k min p t (w ++ s) = Some res.
Proof.
  induction w as [|c w IH]; intros s min p t res Hc Hm Hs Hk.
  - simpl in Hm. assert (min = 0) as -> by lia.
    simpl in Hk. rewrite append_nil_r in Hk. simpl.
    destruct s as [|c s]; simpl; [exact Hk|].
    simpl in Hs. apply negb_true_iff in Hs. now rewrite Hs.
  - simpl in Hc. apply andb_true_iff in Hc as [Hc1 Hc2].
    cbn [append greedyRep]. rewrite Hc1.
    rewrite (IH s (pred min) (Some c) (snoc t c) res); auto.
    + simpl in Hm. lia.
    + now rewrite snoc_append.
Qed.

Lemma greedyRep_inv (k : cont) :
  forall s min p t res,
    greedyRep cls k min p t s = Some res ->
    exists w s2,
      s = w ++ s2 /\ min <= String.length w /\
      JsString.forallb cls w = true /\
      k (lastOr p w) (t ++ w) s2 = Some res.
Proof.
  assert (Stop : forall s min p t res,
             match min with 0 => k p t s | S _ => None end = Some res ->
             exists w s2,
               s = w ++ s2 /\ min <= String.length w /\
               JsString.forallb cls w = true /\
               k (lastOr p w) (t ++ w) s2 = Some res).
  { intros s min p t res H. destruct min; [|discriminate].
    exists "", s. simpl. rewrite append_nil_r. auto. }
  induction s as [|c s IH]; intros min p t res H; simpl in H.
  - now apply Stop.
  - destruct (cls c) eqn:Ec; [|now apply Stop].
    destruct (greedyRep cls k (pred min) (Some c) (snoc t c) s) eqn:E;
      [|now apply Stop].
    injection H as ->.
    apply IH in E as (w & s2 & -> & Hm & Hw & Hk).
    exists (String c w), s2. simpl. rewrite Ec, Hw.
    rewrite snoc_append in Hk. repeat split; auto. lia.
Qed.

Lemma lazyRep_prev (k k' : cont) :
  (forall p p' t s, k p t s = k' p' t s) ->
  forall s min p p' t, lazyRep cls k min p t s = lazyRep cls k' min p' t s.
Proof.
  intros Hk. induction s as [|c s IH]; intros min p p' t;
    destruct min; simpl; rewrite ?(Hk p p'); auto.
  - destruct (k' p' t (String c s)); auto. destruct (cls c); auto.
  - destruct (cls c); auto.
Qed.

Lemma greedyRep_prev (k k' : cont) :
  (forall p p' t s, k p t s = k' p' t s) ->
  forall s min p p' t, greedyRep cls k min p t s = greedyRep cls k' min p' t s.
Proof.
  intros Hk. induction s as [|c s IH]; intros min p p' t; simpl.
  - destruct min; auto.
  - rewrite (IH (pred min) (Some c) (Some c)).
    destruct (cls c), min; rewrite ?(Hk p p'); auto.
Qed.

End QuantifierFacts.

Section PreviousUnit.

Lemma exec_prev r :
  boundFree r = true ->
  forall p p' caps s, exec r p caps s = exec r p' caps s.
Proof.
  induction r as [|a r IH]; intros Hb p p' caps s; [reflexivity|].
  destruct a as [l|g min cls|g min cls|n|]; simpl in Hb; simpl.
  - destruct (dropPrefix l s); auto.
  - destruct g; [apply greedyRep_prev | apply lazyRep_prev]; auto.
  - destruct g; [apply greedyRep_prev | apply lazyRep_prev]; auto.
  - destruct (nth_error caps (n - 1)); auto.
    destruct (dropPrefix s0 s); auto.
  - discriminate.
Qed.

Lemma replaceLoop_prev r f :
  boundFree r = true ->
  forall s skip p p', replaceLoop r f p s skip = replaceLoop r f p' s skip.
Proof.
  intros Hb. induction s as [|c s IH]; intros skip p p'.
  - destruct skip; [|reflexivity].
    rewrite (replaceLoop_search r f p ""), (replaceLoop_search r f p' "").
    now rewrite (exec_prev r Hb p p').
  - destruct skip; [|reflexivity].
    rewrite (replaceLoop_search r f p (String c s)),
            (replaceLoop_search r f p' (String c s)).
    now rewrite (exec_prev r Hb p p').
Qed.

Lemma replaceLoop_replace r f p s :
  boundFree r = true -> replaceLoop r f p s 0 = replace r f s.
Proof. intros Hb. apply replaceLoop_prev, Hb. Qed.

End PreviousUnit.

(* ================================================================== *)
(** ** How the patterns of the source match *)
(* ================================================================== *)

Section PatternFacts.

Lemma isAny_true c : isAny c = true.
Proof. unfold isAny. apply orb_negb_r. Qed.

Lemma forallb_isAny s : JsString.forallb isAny s = true.
Proof. induction s; simpl; [reflexivity | now rewrite isAny_true]. Qed.

Lemma forallb_drop (q : ascii -> bool) s n :
  JsString.forallb q s = true -> n < String.length s ->
  exists c t, drop n s = String c t /\ q c = true.
Proof.
  revert n; induction s as [|c s IH]; intros n Hq Hn; [simpl in Hn; lia|].
  simpl in Hq. apply andb_true_iff in Hq as [Hc Hs].
  destruct n as [|n]; [exists c, s; auto|].
  simpl. apply IH; [exact Hs | simpl in Hn; lia].
Qed.

Lemma dropPrefix_append a b s :
  dropPrefix (a ++ b) s =
  match dropPrefix a s with Some s1 => dropPrefix b s1 | None => None end.
Proof.
  revert s; induction a as [|x a IH]; intros s; simpl; [reflexivity|].
  destruct s as [|y s]; [reflexivity|]. destruct (Ascii.eqb x y); auto.
Qed.

Lemma startsWith_long l : forall a b,
  String.length l <= String.length a ->
  startsWith l (a ++ b) = startsWith l a.
Proof.
  induction l as [|x l IH]; intros a b H; [reflexivity|].
  destruct a as [|y a]; [simpl in H; lia|].
  simpl. rewrite IH; [reflexivity | simpl in H; lia].
Qed.

(** The first [l] of [pre ++ l] stays the first one when text follows. *)
Lemma indexOf_extend l pre rest :
  indexOf l (pre ++ l) = Some (String.length pre) ->
  indexOf l (pre ++ l ++ rest) = Some (String.length pre).
Proof.
  induction pre as [|c pre IH]; simpl; intros H.
  - destruct (l ++ rest) eqn:E; simpl; rewrite <- E, startsWith_app;
      reflexivity.
  - assert (E0 : startsWith l (String c (pre ++ l ++ rest))
                   = startsWith l (String c (pre ++ l))).
    { rewrite <- append_assoc.
      change (String c ((pre ++ l) ++ rest)) with (String c (pre ++ l) ++ rest).
      apply startsWith_long. simpl. rewrite length_append. lia. }
    rewrite E0.
    destruct (startsWith l (String c (pre ++ l))); [discriminate|].
    destruct (indexOf l (pre ++ l)) as [i|] eqn:E; [|discriminate].
    simpl in H. injection H as ->. now rewrite IH.
Qed.

(** Where the first [l] of [pre ++ l] is the appended one, no match of a
    pattern that begins with [l] starts inside [pre]. *)
Lemma clearBefore_first r l pre rest :
  indexOf l (pre ++ l) = Some (String.length pre) ->
  clearBefore (Lit l :: r) pre (l ++ rest).
Proof. intros H. apply clearBefore_indexOf. now apply indexOf_extend. Qed.

Lemma clearBefore_nil r s : clearBefore r "" s.
Proof. intros n Hn. simpl in Hn. lia. Qed.

Lemma includes_unfold l s :
  includes l s =
  startsWith l s
  || match s with EmptyString => false | String _ s' => includes l s' end.
Proof. destruct s; reflexivity. Qed.

Lemma includes_app l a b : includes l (a ++ l ++ b) = true.
Proof.
  induction a as [|c a IH]; simpl.
  - now rewrite includes_unfold, startsWith_app.
  - rewrite IH. apply orb_true_r.
Qed.

Lemma includes_clear l body s :
  isEmpty l = false ->
  (forall n, n < String.length body -> startsWith l (drop n body ++ s) = false) ->
  includes l body = false.
Proof.
  intros Hl. induction body as [|c body IH]; intros H.
  - simpl. destruct l; [discriminate | reflexivity].
  - simpl. apply orb_false_iff. split.
    + specialize (H 0 ltac:(simpl; lia)). simpl in H.
      destruct (startsWith l (String c body)) eqn:E; [|reflexivity].
      apply (startsWith_weaken _ _ s) in E. simpl in E. congruence.
    + apply IH. intros n Hn. apply (H (S n)). simpl. lia.
Qed.

(** *** The two conditional patterns *)

Lemma forallb_weaken (q q' : ascii -> bool) s :
  (forall c, q c = true -> q' c = true) ->
  JsString.forallb q s = true -> JsString.forallb q' s = true.
Proof.
  intros H. induction s as [|c s IH]; simpl; [auto|].
  intros E. apply andb_true_iff in E as [E1 E2].
  now rewrite (H _ E1), IH.
Qed.

Lemma startsWith_head_diff a l b s :
  Ascii.eqb a b = false -> startsWith (String a l) (String b s) = false.
Proof. intros H. cbn [startsWith]. now rewrite H. Qed.

Lemma exec_group r g min cls p caps s :
  exec (Group g min cls :: r) p caps s =
  rep g cls (fun p' taken s' => exec r p' (caps ++ [taken]) s') min p "" s.
Proof. reflexivity. Qed.

Lemma exec_done p caps s : exec [] p caps s = Some (caps, s).
Proof. reflexivity. Qed.

Lemma lazyRep_more cls (k : cont) m p t c s :
  cls c = true ->
  lazyRep cls k (S m) p t (String c s) = lazyRep cls k m (Some c) (snoc t c) s.
Proof. intros H. simpl. now rewrite H. Qed.

Lemma plainExpression_inv e :
  plainExpression e = true ->
  exists c e',
    e = String c e' /\ isDot c = true /\ JsString.forallb isDot e' = true /\
    indexOf "}}" (e' ++ "}}") = Some (String.length e').
Proof.
  destruct e as [|c e']; [discriminate|]. cbn [plainExpression].
  intros H. apply andb_true_iff in H as [H H3].
  apply andb_true_iff in H as [H1 H2].
  exists c, e'. repeat split; auto.
  destruct (indexOf "}}" (e' ++ "}}")) as [n|]; [|discriminate].
  now apply Nat.eqb_eq in H3 as ->.
Qed.

Lemma conditional_match opening closing e body post p :
  plainExpression e = true ->
  indexOf closing (body ++ closing) = Some (String.length body) ->
  exec (conditionalPattern opening closing) p []
       (opening ++ e ++ "}}" ++ body ++ closing ++ post)
  = Some ([e; body], post).
Proof.
  intros He Hb. unfold conditionalPattern.
  rewrite exec_lit_app, exec_group. unfold rep.
  apply plainExpression_inv in He as (c & e' & -> & Hc & Hd & Hi).
  change (String c e' ++ "}}" ++ body ++ closing ++ post)
    with (String c (e' ++ "}}" ++ body ++ closing ++ post)).
  rewrite (lazyRep_more _ _ _ _ _ _ _ Hc).
  rewrite lazyRep_scan.
  - apply lazyRep_now. rewrite exec_lit_app, exec_group. unfold rep.
    rewrite lazyRep_scan.
    + apply lazyRep_now. rewrite exec_lit_app. reflexivity.
    + apply forallb_isAny.
    + intros n Hn. apply exec_lit_none.
      apply indexOf_clear; [|exact Hn]. now apply indexOf_extend.
  - exact Hd.
  - intros n Hn. apply exec_lit_none.
    apply indexOf_clear; [|exact Hn]. now apply (indexOf_extend "}}").
Qed.

Lemma exec_lit_only l p caps s :
  exec [Lit l] p caps s = None -> startsWith l s = false.
Proof.
  simpl. destruct (dropPrefix l s) eqn:E; [discriminate|]. intros _.
  destruct (startsWith l s) eqn:E2; [|reflexivity].
  apply startsWith_dropPrefix in E2 as [x E2]. congruence.
Qed.

Lemma conditional_inv opening closing p t caps rest :
  isEmpty closing = false ->
  exec (conditionalPattern opening closing) p [] t = Some (caps, rest) ->
  exists e body,
    caps = [e; body] /\
    t = opening ++ e ++ "}}" ++ body ++ closing ++ rest /\
    includes closing body = false.
Proof.
  intros Hc H. unfold conditionalPattern in H.
  apply exec_lit_inv in H as (t1 & -> & H).
  rewrite exec_group in H. unfold rep in H.
  apply lazyRep_inv in H as (e & t2 & -> & _ & _ & H & _).
  cbv beta in H.
  apply exec_lit_inv in H as (t3 & -> & H).
  rewrite exec_group in H. unfold rep in H.
  apply lazyRep_inv in H as (body & t4 & -> & _ & _ & H & Hmin).
  cbv beta in H.
  apply exec_lit_inv in H as (t5 & -> & H). rewrite exec_done in H.
  injection H as <- <-.
  exists e, body. split; [reflexivity|]. split.
  - now rewrite ?append_assoc.
  - apply (includes_clear closing body (closing ++ t5) Hc).
    intros n Hn. specialize (Hmin n ltac:(lia)).
    cbv beta in Hmin. now apply exec_lit_only in Hmin.
Qed.

End PatternFacts.

(* ================================================================== *)
(** ** The first block of a text *)
(* ================================================================== *)

Section BlockFacts.

(** The replace loop on [pre ++ m ++ post], when the first match is [m]. *)
Lemma replace_block r f pre m post caps :
  boundFree r = true ->
  clearBefore r pre (m ++ post) ->
  isEmpty m = false ->
  (forall p, exec r p [] (m ++ post) = Some (caps, post)) ->
  replace r f (pre ++ m ++ post) =
  new <- f {| matched := m; groups := caps |} ;;
  out <- replace r f post ;;
  Return (pre ++ new ++ out).
Proof.
  intros Hb Hpre Hm Hex. unfold replace at 1.
  rewrite (replaceLoop_prefix _ _ _ _ Hpre).
  destruct m as [|c m]; [discriminate|].
  rewrite (replaceLoop_match _ _ _ _ _ _ _ (Hex _)).
  rewrite bind_assoc. apply bind_ext; intros new.
  rewrite (replaceLoop_replace _ _ _ _ Hb).
  rewrite bind_assoc. reflexivity.
Qed.

(** Two replacer functions that agree on every match give the same
    result. *)
Lemma replaceLoop_ext r f g :
  (forall p t res, exec r p [] t = Some res ->
                   f (matchAt t res) = g (matchAt t res)) ->
  forall s skip p, replaceLoop r f p s skip = replaceLoop r g p s skip.
Proof.
  intros H. induction s as [|c s IH]; intros skip p.
  - destruct skip; [|reflexivity].
    rewrite (replaceLoop_search r f p ""), (replaceLoop_search r g p "").
    destruct (exec r p [] "") eqn:E; [|reflexivity].
    now rewrite (H _ _ _ E).
  - destruct skip; [|apply IH].
    rewrite (replaceLoop_search r f p (String c s)),
            (replaceLoop_search r g p (String c s)).
    destruct (exec r p [] (String c s)) eqn:E.
    + rewrite (H _ _ _ E). apply bind_ext; intros new.
      destruct (String.length (String c s) - String.length (snd m));
        now rewrite IH.
    + now rewrite IH.
Qed.

Lemma replace_ext r f g s :
  (forall p t res, exec r p [] t = Some res ->
                   f (matchAt t res) = g (matchAt t res)) ->
  replace r f s = replace r g s.
Proof. intros H. now apply replaceLoop_ext. Qed.

Lemma noMatch_conditional opening closing s :
  isEmpty closing = false ->
  includes closing s = false ->
  noMatch (conditionalPattern opening closing) s.
Proof.
  intros Hc Hs n p.
  destruct (exec _ p [] (drop n s)) as [[caps rest]|] eqn:E; [|reflexivity].
  apply conditional_inv in E as (e & body & _ & E & _); [|exact Hc].
  pose proof (includes_drop closing s n Hs) as Hd.
  rewrite E in Hd.
  replace (opening ++ e ++ "}}" ++ body ++ closing ++ rest)
    with ((opening ++ e ++ "}}" ++ body) ++ closing ++ rest) in Hd
    by now rewrite !append_assoc.
  rewrite includes_app in Hd. discriminate.
Qed.

Lemma ifPattern_shape : ifPattern = conditionalPattern "{{#if " "{{/if}}".
Proof. reflexivity. Qed.

Lemma subifPattern_shape :
  subifPattern = conditionalPattern "{{#subif " "{{/subif}}".
Proof. reflexivity. Qed.

Lemma conditional_block opening closing f pre e body post :
  isEmpty opening = false ->
  clearBefore (conditionalPattern opening closing) pre
              (opening ++ e ++ "}}" ++ body ++ closing ++ post) ->
  plainExpression e = true ->
  indexOf closing (body ++ closing) = Some (String.length body) ->
  replace (conditionalPattern opening closing) f
          (pre ++ opening ++ e ++ "}}" ++ body ++ closing ++ post) =
  new <- f {| matched := opening ++ e ++ "}}" ++ body ++ closing;
              groups := [e; body] |} ;;
  out <- replace (conditionalPattern opening closing) f post ;;
  Return (pre ++ new ++ out).
Proof.
  intros Ho Hpre He Hbody.
  replace (opening ++ e ++ "}}" ++ body ++ closing ++ post)
    with ((opening ++ e ++ "}}" ++ body ++ closing) ++ post)
    by now rewrite !append_assoc.
  apply replace_block.
  - reflexivity.
  - now rewrite !append_assoc.
  - now destruct opening.
  - intros p. rewrite !append_assoc. now apply conditional_match.
Qed.

End BlockFacts.

(* ================================================================== *)
(** ** Facts about [split] *)
(* ================================================================== *)

Section SplitFacts.

Lemma splitFrom_skip sep m b piece :
  splitFrom sep (m ++ b) (String.length m) piece = splitFrom sep b 0 piece.
Proof.
  induction m as [|c m IH]; simpl; [now destruct b | exact IH].
Qed.

Lemma splitFrom_absent sep s :
  includes sep s = false ->
  forall piece, splitFrom sep s 0 piece = [piece ++ s].
Proof.
  induction s as [|c s IH]; intros H piece; simpl.
  - now rewrite append_nil_r.
  - simpl in H. apply orb_false_iff in H as [H1 H2].
    rewrite H1, (IH H2). now rewrite snoc_append.
Qed.

(** Without a separator the text is the only piece. *)
Lemma split_absent sep s : includes sep s = false -> split sep s = [s].
Proof. intros H. unfold split. now rewrite splitFrom_absent. Qed.

Lemma splitFrom_first sep a b :
  isEmpty sep = false ->
  indexOf sep (a ++ sep) = Some (String.length a) ->
  forall piece,
    splitFrom sep (a ++ sep ++ b) 0 piece = (piece ++ a) :: split sep b.
Proof.
  intros Hsep. induction a as [|c a IH]; intros H piece.
  - destruct sep as [|x sep]; [discriminate|].
    cbn [append splitFrom]. 
    change (String x (sep ++ b)) with (String x sep ++ b).
    rewrite startsWith_app, append_nil_r.
    replace (String.length (String x sep) - 1) with (String.length sep)
      by (simpl; lia).
    now rewrite splitFrom_skip.
  - pose proof (indexOf_clear _ _ _ (indexOf_extend _ _ b H) 0
                              ltac:(simpl; lia)) as H0.
    simpl in H0. cbn [append splitFrom]. rewrite H0.
    rewrite IH.
    + now rewrite snoc_append.
    + simpl in H.
      destruct (startsWith sep (String c (a ++ sep))); [discriminate|].
      destruct (indexOf sep (a ++ sep)); [|discriminate].
      simpl in H. now injection H as ->.
Qed.

(** The first piece ends at the first separator. *)
Lemma split_first sep a b :
  isEmpty sep = false ->
  indexOf sep (a ++ sep) = Some (String.length a) ->
  split sep (a ++ sep ++ b) = a :: split sep b.
Proof. intros Hs H. unfold split at 1. now rewrite splitFrom_first. Qed.

Lemma splitFrom_nonempty sep s :
  forall skip piece, splitFrom sep s skip piece <> [].
Proof.
  induction s as [|c s IH]; intros skip piece; simpl; [discriminate|].
  destruct skip; [|apply IH].
  destruct (startsWith sep (String c s)); [discriminate | apply IH].
Qed.

Lemma splitFrom_two sep s :
  isEmpty sep = false ->
  includes sep s = true ->
  forall piece, exists x y l, splitFrom sep s 0 piece = x :: y :: l.
Proof.
  intros Hsep. induction s as [|c s IH]; intros H piece.
  - destruct sep; discriminate.
  - cbn [splitFrom]. destruct (startsWith sep (String c s)) eqn:E.
    + destruct (splitFrom sep s (String.length sep - 1) "") eqn:E2.
      * now apply splitFrom_nonempty in E2.
      * eauto.
    + simpl in H. rewrite E in H. simpl in H. now apply IH.
Qed.

Lemma trimAt_first sep s :
  trimAt (split sep s) 0 = Return (trim (nth 0 (split sep s) "")).
Proof.
  unfold trimAt, split.
  destruct (splitFrom sep s 0 "") eqn:E; [|reflexivity].
  now apply splitFrom_nonempty in E.
Qed.

Lemma trimAt_second sep s :
  isEmpty sep = false ->
  includes sep s = true ->
  trimAt (split sep s) 1 = Return (trim (nth 1 (split sep s) "")).
Proof.
  intros Hsep H. unfold trimAt, split.
  destruct (splitFrom_two sep s Hsep H "") as (x & y & l & ->).
  reflexivity.
Qed.

End SplitFacts.

(* ================================================================== *)
(** ** Facts about the conditional passes *)
(* ================================================================== *)

Section ConditionalFacts.

Variable h : Host.

(** A body without a closing marker holds no conditional block. *)
Lemma processConditionals_rec_noop fuel inner context :
  includes "{{/if}}" inner = false ->
  processConditionals_rec h fuel inner context = Return inner.
Proof.
  intros H. destruct fuel; cbn [processConditionals_rec]; unfold replace;
    apply replaceLoop_noMatch;
    now apply (noMatch_conditional "{{#if " "{{/if}}").
Qed.

(** The body captured by the pattern never holds a closing marker, so
    the recursive call returns it as it is: with any fuel,
    [processConditionals] is the inline pass of [renderTemplate]. *)
Lemma processConditionals_rec_global fuel content context :
  processConditionals_rec h (S fuel) content context =
  globalConditionals h context content.
Proof.
  cbn [processConditionals_rec]. unfold globalConditionals.
  apply replace_ext. intros p t [caps rest] E.
  apply (conditional_inv "{{#if " "{{/if}}") in E
    as (e & body & -> & _ & Hbody); [|reflexivity].
  unfold matchAt, group. cbn [fst snd groups nth Nat.sub].
  apply bind_ext; intros v.
  now rewrite processConditionals_rec_noop.
Qed.

Lemma processConditionals_global content context :
  processConditionals h content context =
  globalConditionals h context content.
Proof.
  unfold processConditionals. destruct content as [|c s].
  - reflexivity.
  - apply processConditionals_rec_global.
Qed.

(** The equation of the source, free of fuel. *)
Lemma processConditionals_equation content context :
  processConditionals h content context =
  replace ifPattern
    (fun m =>
       conditionValue <- evaluateExpression h (trim (group 1 m)) context ;;
       innerProcessed <- processConditionals h (group 2 m) context ;;
       if truthy conditionValue then
         trimAt (split "{{else}}" innerProcessed) 0
       else if includes "{{else}}" (group 2 m) then
         trimAt (split "{{else}}" innerProcessed) 1
       else Return "")
    content.
Proof.
  rewrite processConditionals_global. unfold globalConditionals.
  apply replace_ext. intros p t [caps rest] E.
  apply (conditional_inv "{{#if " "{{/if}}") in E
    as (e & body & -> & _ & Hbody); [|reflexivity].
  unfold matchAt, group. cbn [fst snd groups nth Nat.sub].
  apply bind_ext; intros v. unfold processConditionals.
  now rewrite processConditionals_rec_noop.
Qed.

Lemma globalConditionals_absent context s :
  includes "{{#if " s = false -> globalConditionals h context s = Return s.
Proof. intros H. now apply replace_absent. Qed.

Lemma processSubConditionals_absent context s :
  includes "{{#subif " s = false ->
  processSubConditionals h s context = Return s.
Proof. intros H. now apply replace_absent. Qed.

(** The first [if] block of a text. *)
Lemma globalConditionals_block context pre e body post :
  clearBefore ifPattern pre
              ("{{#if " ++ e ++ "}}" ++ body ++ "{{/if}}" ++ post) ->
  plainExpression e = true ->
  indexOf "{{/if}}" (body ++ "{{/if}}") = Some (String.length body) ->
  globalConditionals h context
    (pre ++ "{{#if " ++ e ++ "}}" ++ body ++ "{{/if}}" ++ post) =
  conditionValue <- evaluateExpression h (trim e) context ;;
  new <- (if truthy conditionValue then trimAt (split "{{else}}" body) 0
          else if includes "{{else}}" body
               then trimAt (split "{{else}}" body) 1
               else Return "") ;;
  out <- globalConditionals h context post ;;
  Return (pre ++ new ++ out).
Proof.
  intros Hpre He Hbody. unfold globalConditionals.
  change ifPattern with (conditionalPattern "{{#if " "{{/if}}").
  rewrite conditional_block by (reflexivity || assumption).
  unfold group. cbn [groups nth Nat.sub].
  now rewrite bind_assoc.
Qed.

(** The first [subif] block of a text. *)
Lemma processSubConditionals_block context pre e body post :
  clearBefore subifPattern pre
              ("{{#subif " ++ e ++ "}}" ++ body ++ "{{/subif}}" ++ post) ->
  plainExpression e = true ->
  indexOf "{{/subif}}" (body ++ "{{/subif}}") = Some (String.length body) ->
  processSubConditionals h
    (pre ++ "{{#subif " ++ e ++ "}}" ++ body ++ "{{/subif}}" ++ post)
    context =
  conditionValue <- evaluateExpression h (trim e) context ;;
  innerProcessed <- globalConditionals h context body ;;
  new <- (if truthy conditionValue
          then trimAt (split "{{subelse}}" innerProcessed) 0
          else if includes "{{subelse}}" body
               then trimAt (split "{{subelse}}" innerProcessed) 1
               else Return "") ;;
  out <- processSubConditionals h post context ;;
  Return (pre ++ new ++ out).
Proof.
  intros Hpre He Hbody. unfold processSubConditionals.
  change subifPattern with (conditionalPattern "{{#subif " "{{/subif}}").
  rewrite conditional_block by (reflexivity || assumption).
  unfold group. cbn [groups nth Nat.sub].
  rewrite !bind_assoc. apply bind_ext; intros v.
  rewrite processConditionals_global, !bind_assoc. reflexivity.
Qed.

End ConditionalFacts.

(* ================================================================== *)
(** ** Facts about the variable and the loop patterns *)
(* ================================================================== *)

Section MarkerFacts.

Lemma nonempty_length s : isEmpty s = false -> 1 <= String.length s.
Proof. destruct s; [discriminate | simpl; lia]. Qed.

Lemma variable_match v post p :
  JsString.forallb isWordOrDot v = true ->
  isEmpty v = false ->
  exec variablePattern p [] ("{{" ++ v ++ "}}" ++ post) = Some ([v], post).
Proof.
  intros Hv Hne. unfold variablePattern.
  rewrite exec_lit_app, exec_group. unfold rep.
  apply greedyRep_full;
    [exact Hv | now apply nonempty_length | reflexivity |].
  now rewrite exec_lit_app.
Qed.

Lemma exec_closing r a b key caps p s :
  exec (Lit a :: Back 1 :: Lit b :: r) p (key :: caps) s =
  exec (Lit (a ++ key ++ b) :: r) p (key :: caps) s.
Proof.
  cbn [exec nth_error Nat.sub]. rewrite dropPrefix_append.
  destruct (dropPrefix a s) as [s1|]; [|reflexivity].
  rewrite dropPrefix_append.
  destruct (dropPrefix key s1) as [s2|]; [|reflexivity].
  destruct (dropPrefix b s2) as [s3|]; [|reflexivity].
  now rewrite !lastOr_append.
Qed.

Lemma loop_match key body post p :
  JsString.forallb isWordOrDot key = true ->
  isEmpty key = false ->
  indexOf (closingMarker key) (body ++ closingMarker key)
  = Some (String.length body) ->
  exec loopPattern p []
       ("{{#" ++ key ++ "}}" ++ body ++ closingMarker key ++ post)
  = Some ([key; body], post).
Proof.
  intros Hk Hne Hb. unfold loopPattern.
  rewrite exec_lit_app, exec_group. unfold rep.
  apply greedyRep_full;
    [exact Hk | now apply nonempty_length | reflexivity |].
  rewrite exec_lit_app, exec_group. unfold rep.
  cbn [app append].
  rewrite lazyRep_scan.
  - apply lazyRep_now. rewrite exec_closing.
    fold (closingMarker key). rewrite exec_lit_app. reflexivity.
  - apply forallb_isAny.
  - intros n Hn. rewrite exec_closing. fold (closingMarker key).
    apply exec_lit_none. apply indexOf_clear; [|exact Hn].
    now apply indexOf_extend.
Qed.

Lemma variable_block f pre v post :
  clearBefore variablePattern pre ("{{" ++ v ++ "}}" ++ post) ->
  JsString.forallb isWordOrDot v = true ->
  isEmpty v = false ->
  replace variablePattern f (pre ++ "{{" ++ v ++ "}}" ++ post) =
  new <- f {| matched := "{{" ++ v ++ "}}"; groups := [v] |} ;;
  out <- replace variablePattern f post ;;
  Return (pre ++ new ++ out).
Proof.
  intros Hpre Hv Hne.
  replace ("{{" ++ v ++ "}}" ++ post) with (("{{" ++ v ++ "}}") ++ post)
    by now rewrite !append_assoc.
  apply replace_block.
  - reflexivity.
  - now rewrite !append_assoc.
  - reflexivity.
  - intros p. rewrite !append_assoc. now apply variable_match.
Qed.

Lemma loop_block f pre key body post :
  clearBefore loopPattern pre
              ("{{#" ++ key ++ "}}" ++ body ++ closingMarker key ++ post) ->
  JsString.forallb isWordOrDot key = true ->
  isEmpty key = false ->
  indexOf (closingMarker key) (body ++ closingMarker key)
  = Some (String.length body) ->
  replace loopPattern f
          (pre ++ "{{#" ++ key ++ "}}" ++ body ++ closingMarker key ++ post) =
  new <- f {| matched := "{{#" ++ key ++ "}}" ++ body ++ closingMarker key;
              groups := [key; body] |} ;;
  out <- replace loopPattern f post ;;
  Return (pre ++ new ++ out).
Proof.
  intros Hpre Hk Hne Hb.
  replace ("{{#" ++ key ++ "}}" ++ body ++ closingMarker key ++ post)
    with (("{{#" ++ key ++ "}}" ++ body ++ closingMarker key) ++ post)
    by now rewrite !append_assoc.
  apply replace_block.
  - reflexivity.
  - now rewrite !append_assoc.
  - reflexivity.
  - intros p. rewrite !append_assoc. now apply loop_match.
Qed.

End MarkerFacts.

(* ================================================================== *)
(** ** Facts about the loop pass *)
(* ================================================================== *)

Section LoopFacts.

Variable h : Host.

Lemma depth_in x l :
  In x l -> depth x <= fold_right (fun y d => Nat.max (depth y) d) 0 l.
Proof.
  induction l as [|y l IH]; simpl; [tauto|].
  intros [->|H]; [lia | specialize (IH H); lia].
Qed.

Lemma depth_assoc key (fields : list (string * value)) v :
  assoc key fields = Some v ->
  depth v <= fold_right (fun kv d => Nat.max (depth (snd kv)) d) 0 fields.
Proof.
  induction fields as [|[k x] l IH]; simpl; [discriminate|].
  destruct (String.eqb k key).
  - intros [= ->]. lia.
  - intros H. specialize (IH H). lia.
Qed.

Lemma elementAt_in items : forall i key v,
  elementAt items i key = Some v -> In v items.
Proof.
  induction items as [|x l IH]; intros i key v; simpl; [discriminate|].
  destruct (String.eqb _ key).
  - intros [= ->]. now left.
  - intros H. right. eapply IH, H.
Qed.

Lemma depth_inherited members key v :
  inherited members key = Some v -> depth v = 0.
Proof.
  unfold inherited. destruct (assoc key members); [|discriminate].
  now intros [= <-].
Qed.

Lemma depth_lengthOf key n v : lengthOf key n = Some v -> depth v = 0.
Proof.
  unfold lengthOf. destruct (String.eqb key "length"); [|discriminate].
  now intros [= <-].
Qed.

Lemma orElse_some {A} (a b : option A) v :
  orElse a b = Some v -> a = Some v \/ b = Some v.
Proof. destruct a; simpl; auto. Qed.

Lemma depth_member acc key v :
  member h acc key = Some v -> depth v <= pred (depth acc).
Proof.
  unfold member, protoOf.
  destruct acc as [| | | | |items|fields| |[]]; try discriminate;
    intros H;
    repeat (apply orElse_some in H as [H|H]);
    try (apply depth_inherited in H; lia);
    try (apply depth_lengthOf in H; lia);
    try (destruct (String.eqb key "__proto__"); [|discriminate];
         injection H as <-; simpl; lia).
  - apply elementAt_in in H. apply depth_in in H. simpl. lia.
  - apply depth_assoc in H. simpl. lia.
Qed.

Lemma depth_pathStep acc key : depth (pathStep h acc key) <= pred (depth acc).
Proof.
  unfold pathStep. destruct (truthy acc && typeofObject acc); simpl; [|lia].
  destruct (member h acc key) eqn:E; simpl; [|lia].
  now apply depth_member in E.
Qed.

Lemma depth_fold keys : forall acc,
  depth (fold_left (pathStep h) keys acc) <= depth acc.
Proof.
  induction keys as [|k keys IH]; intros acc; simpl; [lia|].
  specialize (IH (pathStep h acc k)).
  pose proof (depth_pathStep acc k). lia.
Qed.

Lemma depth_getValueFromPath obj path :
  depth (getValueFromPath h obj path) <= pred (depth obj).
Proof.
  unfold getValueFromPath. fold (pathStep h).
  destruct (split "." path) as [|k keys] eqn:E.
  - now apply splitFrom_nonempty in E.
  - simpl. pose proof (depth_fold keys (pathStep h obj k)).
    pose proof (depth_pathStep obj k). lia.
Qed.

(** An element of an array found in a context is less deep than it. *)
Lemma depth_item context key items item :
  arrayItems (getValueFromPath h context key) = Some items ->
  In item items ->
  depth item < depth context.
Proof.
  intros Ha Hin. pose proof (depth_getValueFromPath context key) as Hd.
  destruct (getValueFromPath h context key) as [| | | | |l| | |[]];
    try discriminate; injection Ha as <-; [|destruct Hin].
  apply depth_in in Hin. simpl in Hd. lia.
Qed.

Lemma mapM_ext {A B} (f g : A -> completion B) l :
  (forall x, In x l -> f x = g x) -> mapM f l = mapM g l.
Proof.
  induction l as [|x l IH]; intros H; simpl; [reflexivity|].
  rewrite (H x) by now left.
  apply bind_ext; intros y. rewrite IH; [reflexivity|].
  intros z Hz. apply H. now right.
Qed.

(** Any fuel above the depth of the context gives the same result. *)
Lemma processNestedLoops_rec_fuel n :
  forall m content context,
    depth context <= n -> depth context <= m ->
    processNestedLoops_rec h n content context =
    processNestedLoops_rec h m content context.
Proof.
  induction n as [|n IH]; intros m content context Hn Hm;
    destruct m as [|m]; cbn [processNestedLoops_rec];
    apply replace_ext; intros p t res _; cbv beta zeta;
    destruct (arrayItems _) as [items|] eqn:Ea; try reflexivity;
    apply (f_equal (fun c => bind c _));
    apply mapM_ext; intros item Hin;
    pose proof (depth_item _ _ _ _ Ea Hin) as Hd;
    try lia.
  do 3 (apply bind_ext; intros ?).
  apply IH; lia.
Qed.

Lemma processNestedLoops_rec_adequate n content context :
  depth context <= n ->
  processNestedLoops_rec h n content context =
  processNestedLoops h content context.
Proof. intros H. now apply processNestedLoops_rec_fuel. Qed.

(** The equation of the source, free of fuel: the loop pass is a replace
    whose replacer expands the captured section for every element. *)
Lemma processNestedLoops_equation content context :
  processNestedLoops h content context =
  replace loopPattern
    (fun m =>
       match arrayItems (getValueFromPath h context (group 1 m)) with
       | None => Return ""
       | Some items =>
           outs <- mapM (expandItem h (group 2 m)) items ;;
           Return (join "" outs)
       end)
    content.
Proof.
  unfold processNestedLoops.
  destruct (depth context) as [|n] eqn:En; cbn [processNestedLoops_rec];
    apply replace_ext; intros p t res _; cbv beta zeta;
    destruct (arrayItems _) as [items|] eqn:Ea; try reflexivity;
    apply (f_equal (fun c => bind c _));
    apply mapM_ext; intros item Hin;
    pose proof (depth_item _ _ _ _ Ea Hin) as Hd; try lia.
  unfold expandItem. do 3 (apply bind_ext; intros ?).
  apply processNestedLoops_rec_adequate. lia.
Qed.

Lemma processNestedLoops_absent context s :
  includes "{{#" s = false -> processNestedLoops h s context = Return s.
Proof.
  intros H. unfold processNestedLoops.
  destruct (depth context); now apply replace_absent.
Qed.

(** The first loop block of a text. *)
Lemma processNestedLoops_block context pre key body post :
  clearBefore loopPattern pre
              ("{{#" ++ key ++ "}}" ++ body ++ closingMarker key ++ post) ->
  JsString.forallb isWordOrDot key = true ->
  isEmpty key = false ->
  indexOf (closingMarker key) (body ++ closingMarker key)
  = Some (String.length body) ->
  processNestedLoops h
    (pre ++ "{{#" ++ key ++ "}}" ++ body ++ closingMarker key ++ post)
    context =
  new <- match arrayItems (getValueFromPath h context key) with
         | None => Return ""
         | Some items =>
             outs <- mapM (expandItem h body) items ;;
             Return (join "" outs)
         end ;;
  out <- processNestedLoops h post context ;;
  Return (pre ++ new ++ out).
Proof.
  intros Hpre Hk Hne Hb. unfold processNestedLoops.
  destruct (depth context) as [|n] eqn:En; cbn [processNestedLoops_rec];
    rewrite loop_block by assumption;
    unfold group; cbn [groups nth Nat.sub];
    apply (f_equal (fun c => bind c _));
    destruct (arrayItems _) as [items|] eqn:Ea; try reflexivity;
    apply (f_equal (fun c => bind c _));
    apply mapM_ext; intros item Hin;
    pose proof (depth_item _ _ _ _ Ea Hin) as Hd; try lia.
  unfold expandItem. do 3 (apply bind_ext; intros ?).
  apply processNestedLoops_rec_adequate. lia.
Qed.

End LoopFacts.

(* ================================================================== *)
(** ** Facts about the tag-escape pass *)
(* ================================================================== *)

Section TagFacts.

Lemma greedyRep_some cls (k : cont) :
  (forall p t s, k p t s <> None) ->
  forall s min p t,
    min = 0 \/ (min = 1 /\ stopsAt cls s = false) ->
    greedyRep cls k min p t s <> None.
Proof.
  intros Hk. induction s as [|c s IH]; intros min p t Hmin; simpl.
  - destruct Hmin as [->|[_ H]]; [apply Hk | discriminate].
  - destruct (cls c) eqn:Ec.
    + assert (E : pred min = 0) by (destruct Hmin as [->|[-> _]]; reflexivity).
      rewrite E.
      specialize (IH 0 (Some c) (snoc t c) (or_introl eq_refl)).
      destruct (greedyRep cls k 0 (Some c) (snoc t c) s); congruence.
    + destruct Hmin as [->|[_ H]]; [apply Hk|].
      simpl in H. rewrite Ec in H. discriminate.
Qed.

Lemma greedyRep_stop cls (k : cont) m p t s :
  stopsAt cls s = true -> greedyRep cls k (S m) p t s = None.
Proof.
  destruct s as [|c s]; simpl; [reflexivity|].
  intros H. apply negb_true_iff in H. now rewrite H.
Qed.

Lemma tag_exec_none t p caps :
  escapedTagAt t = false -> exec tagPattern p caps t = None.
Proof.
  unfold escapedTagAt, tagPattern. cbn [exec].
  destruct (dropPrefix "nedara-" t) as [rest|]; [|reflexivity].
  intros H. apply negb_false_iff in H. unfold rep.
  now apply greedyRep_stop.
Qed.

Lemma tag_exec_some t p caps :
  escapedTagAt t = true -> exec tagPattern p caps t <> None.
Proof.
  unfold escapedTagAt, tagPattern. cbn [exec].
  destruct (dropPrefix "nedara-" t) as [rest|]; [|discriminate].
  intros H. apply negb_true_iff in H. unfold rep.
  apply greedyRep_some; [discriminate | now right].
Qed.

Lemma tag_exec_inv t p caps rest :
  exec tagPattern p [] t = Some (caps, rest) ->
  exists w, caps = [w] /\ t = "nedara-" ++ w ++ rest /\
            1 <= String.length w.
Proof.
  unfold tagPattern. intros H.
  apply exec_lit_inv in H as (t1 & -> & H).
  rewrite exec_group in H. unfold rep in H.
  apply greedyRep_inv in H as (w & s2 & -> & Hw & _ & H).
  rewrite exec_done in H. injection H as <- <-.
  exists w. auto.
Qed.

Lemma hasEscapedTag_drop s n :
  hasEscapedTag s = false -> escapedTagAt (drop n s) = false.
Proof.
  revert s; induction n as [|n IH]; intros s H;
    (destruct s as [|c s]; [reflexivity|]);
    change (hasEscapedTag (String c s))
      with (escapedTagAt (String c s) || hasEscapedTag s) in H;
    apply orb_false_iff in H as [H1 H2]; [exact H1 | apply IH, H2].
Qed.

Lemma unescapeTags_clear s :
  hasEscapedTag s = false -> unescapeTags s = Return s.
Proof.
  intros H. apply replaceLoop_noMatch. intros n p.
  apply tag_exec_none. now apply hasEscapedTag_drop.
Qed.

Lemma unescape_length s :
  forall p skip out,
    replaceLoop tagPattern keep p s skip = Return out ->
    skip <= String.length s ->
    String.length out + skip <= String.length s.
Proof.
  induction s as [|c s IH]; intros p skip out H Hs.
  - simpl in Hs. assert (skip = 0) as -> by lia.
    rewrite replaceLoop_search in H. simpl in H. injection H as <-.
    simpl. lia.
  - destruct skip as [|k].
    + rewrite replaceLoop_search in H.
      destruct (exec tagPattern p [] (String c s)) as [[caps rest]|] eqn:E.
      * apply tag_exec_inv in E as (w & -> & E & Hw).
        unfold keep, matchAt, group in H.
        cbn [fst snd groups nth Nat.sub bind] in H.
        rewrite E, !length_append in H.
        change (String.length "nedara-") with 7 in H.
        replace (7 + (String.length w + String.length rest)
                 - String.length rest)
          with (S (6 + String.length w)) in H by lia.
        destruct (replaceLoop tagPattern _ (Some c) s (6 + String.length w))
          as [out'| |] eqn:E2; [|discriminate..].
        simpl in H. injection H as <-.
        assert (Hlen : String.length (String c s)
                       = 7 + (String.length w + String.length rest))
          by (rewrite E, !length_append; reflexivity).
        simpl in Hlen.
        apply IH in E2; [|lia].
        rewrite length_append. simpl. lia.
      * destruct (replaceLoop tagPattern _ (Some c) s 0) as [out'| |] eqn:E2;
          [|discriminate..].
        simpl in H. injection H as <-.
        apply IH in E2; simpl in *; lia.
    + simpl in H. apply IH in H; simpl in *; lia.
Qed.

Lemma unescape_shrinks s :
  hasEscapedTag s = true ->
  forall p out,
    replaceLoop tagPattern keep p s 0 = Return out ->
    String.length out < String.length s.
Proof.
  induction s as [|c s IH]; intros Ht p out H; [discriminate|].
  rewrite replaceLoop_search in H.
  destruct (exec tagPattern p [] (String c s)) as [[caps rest]|] eqn:E.
  - apply tag_exec_inv in E as (w & -> & E & Hw).
    unfold keep, matchAt, group in H.
    cbn [fst snd groups nth Nat.sub bind] in H.
    rewrite E, !length_append in H.
    change (String.length "nedara-") with 7 in H.
    replace (7 + (String.length w + String.length rest)
             - String.length rest)
      with (S (6 + String.length w)) in H by lia.
    destruct (replaceLoop tagPattern _ (Some c) s (6 + String.length w))
      as [out'| |] eqn:E2; [|discriminate..].
    simpl in H. injection H as <-.
    assert (Hlen : String.length (String c s)
                   = 7 + (String.length w + String.length rest))
      by (rewrite E, !length_append; reflexivity).
    simpl in Hlen.
    apply unescape_length in E2; [|lia].
    rewrite length_append. simpl. lia.
  - destruct (replaceLoop tagPattern _ (Some c) s 0) as [out'| |] eqn:E2;
      [|discriminate..].
    simpl in H. injection H as <-.
    assert (Hs : hasEscapedTag s = true).
    { change (hasEscapedTag (String c s))
        with (escapedTagAt (String c s) || hasEscapedTag s) in Ht.
      apply orb_true_iff in Ht as [Ht|Ht]; [|exact Ht].
      now apply (tag_exec_some _ p []) in Ht. }
    specialize (IH Hs _ _ E2). simpl. lia.
Qed.

(** A replacer that always returns makes [replace] return. *)
Lemma replaceLoop_total r f :
  (forall m, exists x, f m = Return x) ->
  forall s skip p, exists out, replaceLoop r f p s skip = Return out.
Proof.
  intros Hf. induction s as [|c s IH]; intros skip p.
  - destruct skip; [|now exists ""]. rewrite replaceLoop_search.
    destruct (exec r p [] ""); [|now exists ""].
    destruct (Hf (matchAt "" m)) as [x ->]. now exists x.
  - destruct skip as [|k]; [|apply IH]. rewrite replaceLoop_search.
    destruct (exec r p [] (String c s)) as [m|].
    + destruct (Hf (matchAt (String c s) m)) as [x ->]. cbn [bind].
      destruct (String.length (String c s) - String.length (snd m)) as [|k];
        [destruct (IH 0 (Some c)) as [o ->] |
         destruct (IH k (Some c)) as [o ->]]; cbn [bind]; eauto.
    + destruct (IH 0 (Some c)) as [o ->]. cbn [bind]. eauto.
Qed.

Lemma unescapeTags_total s : exists out, unescapeTags s = Return out.
Proof. apply replaceLoop_total. intros m. now exists (group 1 m). Qed.

End TagFacts.

(* ================================================================== *)
(** ** Facts about [trim] *)
(* ================================================================== *)

Section TrimFacts.

Lemma trimStart_lead lead s :
  JsString.forallb isWhitespace lead = true ->
  trimStart (lead ++ s) = trimStart s.
Proof.
  induction lead as [|c l IH]; simpl; [reflexivity|].
  intros H. apply andb_true_iff in H as [H1 H2]. now rewrite H1, IH.
Qed.

Lemma trimEnd_blank trail :
  JsString.forallb isWhitespace trail = true -> trimEnd trail = "".
Proof.
  induction trail as [|c l IH]; simpl; [reflexivity|].
  intros H. apply andb_true_iff in H as [H1 H2]. now rewrite H1, IH.
Qed.

Lemma trimEnd_trail s trail :
  JsString.forallb isWhitespace trail = true ->
  trimEnd (s ++ trail) = trimEnd s.
Proof.
  intros H. induction s as [|c s IH]; simpl.
  - now apply trimEnd_blank.
  - now rewrite IH.
Qed.

Lemma trimStart_trail s trail :
  JsString.forallb isWhitespace trail = true ->
  exists trail',
    JsString.forallb isWhitespace trail' = true /\
    trimStart (s ++ trail) = trimStart s ++ trail'.
Proof.
  intros H. induction s as [|c s IH]; simpl.
  - exists "". split; [reflexivity|]. induction trail as [|x t IHt];
      simpl in *; [reflexivity|].
    apply andb_true_iff in H as [H1 H2]. rewrite H1. now apply IHt.
  - destruct (isWhitespace c); [exact IH|].
    exists trail. now split.
Qed.

(** White space around a text does not survive [trim]. *)
Lemma trim_around lead s trail :
  JsString.forallb isWhitespace lead = true ->
  JsString.forallb isWhitespace trail = true ->
  trim (lead ++ s ++ trail) = trim s.
Proof.
  intros Hl Ht. unfold trim. rewrite (trimStart_lead _ _ Hl).
  destruct (trimStart_trail s trail Ht) as (t' & Ht' & ->).
  now apply trimEnd_trail.
Qed.

End TrimFacts.

(* ================================================================== *)
(** ** Facts about [evaluateExpression] *)
(* ================================================================== *)

Section EvaluateFacts.

Variable h : Host.

(** What [replace] does is decided by what the replacer does on the
    matches of the text. *)
Lemma replaceLoop_matches r f : forall s skip p,
  (forall m, In m (matchesFrom r p s skip) -> f m = Return (matched m)) ->
  replaceLoop r f p s skip = Return (drop skip s).
Proof.
  induction s as [|c s IH]; intros skip p Hf.
  - destruct skip; [|reflexivity]. rewrite replaceLoop_search.
    cbn [matchesFrom] in Hf.
    destruct (exec r p [] "") as [res|] eqn:E; [|reflexivity].
    rewrite (Hf _ (or_introl eq_refl)). reflexivity.
  - destruct skip as [|k]; [|now apply IH]. rewrite replaceLoop_search.
    cbn [matchesFrom] in Hf.
    destruct (exec r p [] (String c s)) as [res|] eqn:E.
    + rewrite (Hf _ (or_introl eq_refl)). cbn [bind].
      unfold matchAt. cbn [matched].
      destruct (String.length (String c s) - String.length (snd res)) as [|k];
        rewrite IH by (intros m Hm; apply Hf; now right);
        cbn [bind take drop append]; [reflexivity|].
      now rewrite take_drop.
    + rewrite IH by exact Hf. reflexivity.
Qed.

Lemma bind_quiet {A B : Type} (c : completion A) (k : A -> completion B) :
  quiet c -> (forall a, c = Return a -> quiet (k a)) -> quiet (bind c k).
Proof.
  intros Hc Hk e. destruct c as [a|x|]; cbn [bind].
  - now apply Hk.
  - now destruct (Hc x).
  - discriminate.
Qed.

Lemma bind_returns {A B : Type} (c : completion A) (k : A -> completion B) :
  returns c -> (forall a, c = Return a -> returns (k a)) -> returns (bind c k).
Proof. intros [a ->] Hk. now apply Hk. Qed.

Lemma return_quiet {A : Type} (a : A) : quiet (Return a).
Proof. intros e. discriminate. Qed.

Lemma return_returns {A : Type} (a : A) : returns (Return a).
Proof. now exists a. Qed.

Lemma replaceLoop_quiet r f : forall s skip p,
  (forall m, In m (matchesFrom r p s skip) -> quiet (f m)) ->
  quiet (replaceLoop r f p s skip).
Proof.
  induction s as [|c s IH]; intros skip p Hf.
  - destruct skip; [|apply return_quiet]. rewrite replaceLoop_search.
    cbn [matchesFrom] in Hf.
    destruct (exec r p [] "") as [res|] eqn:E; [|apply return_quiet].
    apply bind_quiet; [now apply Hf; left|]. intros; apply return_quiet.
  - destruct skip as [|k]; [|now apply IH]. rewrite replaceLoop_search.
    cbn [matchesFrom] in Hf.
    destruct (exec r p [] (String c s)) as [res|] eqn:E.
    + apply bind_quiet; [now apply Hf; left|]. intros new _.
      destruct (String.length (String c s) - String.length (snd res)) as [|k];
        (apply bind_quiet;
         [apply IH; intros m Hm; apply Hf; now right
         | intros; apply return_quiet]).
    + apply bind_quiet; [now apply IH | intros; apply return_quiet].
Qed.

Lemma replaceLoop_returns r f : forall s skip p,
  (forall m, In m (matchesFrom r p s skip) -> returns (f m)) ->
  returns (replaceLoop r f p s skip).
Proof.
  induction s as [|c s IH]; intros skip p Hf.
  - destruct skip; [|apply return_returns]. rewrite replaceLoop_search.
    cbn [matchesFrom] in Hf.
    destruct (exec r p [] "") as [res|] eqn:E; [|apply return_returns].
    apply bind_returns; [now apply Hf; left|]. intros; apply return_returns.
  - destruct skip as [|k]; [|now apply IH]. rewrite replaceLoop_search.
    cbn [matchesFrom] in Hf.
    destruct (exec r p [] (String c s)) as [res|] eqn:E.
    + apply bind_returns; [now apply Hf; left|]. intros new _.
      destruct (String.length (String c s) - String.length (snd res)) as [|k];
        (apply bind_returns;
         [apply IH; intros m Hm; apply Hf; now right
         | intros; apply return_returns]).
    + apply bind_returns; [now apply IH | intros; apply return_returns].
Qed.

(** A match that [replace] visits is a match of the pattern at some
    position of the text. *)
Lemma matchesFrom_inv r : forall s skip p m,
  In m (matchesFrom r p s skip) ->
  exists n q res,
    exec r q [] (drop n s) = Some res /\ m = matchAt (drop n s) res.
Proof.
  induction s as [|c s IH]; intros skip p m Hm.
  - destruct skip; [|contradiction]. cbn [matchesFrom] in Hm.
    destruct (exec r p [] "") as [res|] eqn:E; [|contradiction].
    destruct Hm as [<-|[]]. now exists 0, p, res.
  - assert (Htail : forall k q, In m (matchesFrom r q s k) ->
                exists n q' res,
                  exec r q' [] (drop n (String c s)) = Some res /\
                  m = matchAt (drop n (String c s)) res).
    { intros k q H. apply IH in H as (n & q' & res & E & ->).
      now exists (S n), q', res. }
    destruct skip as [|k]; [|now apply (Htail k (Some c))].
    cbn [matchesFrom] in Hm.
    destruct (exec r p [] (String c s)) as [res|] eqn:E.
    + destruct Hm as [<-|Hm]; [now exists 0, p, res|].
      destruct (String.length (String c s) - String.length (snd res));
        now apply Htail in Hm.
    + now apply Htail in Hm.
Qed.

Lemma evaluateExpression_quiet expr context :
  quiet (sanitize h expr context) ->
  quiet (evaluateExpression h expr context).
Proof.
  intros Hs. unfold evaluateExpression. apply bind_quiet; [exact Hs|].
  intros s _ e. now destruct (runFunction h (functionBody s)).
Qed.

Lemma evaluateExpression_returns expr context :
  (forall body, runFunction h body <> Diverge) ->
  returns (sanitize h expr context) ->
  returns (evaluateExpression h expr context).
Proof.
  intros Hrun Hs. unfold evaluateExpression. apply bind_returns; [exact Hs|].
  intros s _. pose proof (Hrun (functionBody s)) as Hd.
  destruct (runFunction h (functionBody s)) as [v|e|];
    [now exists v | now exists (VBool false) | contradiction].
Qed.

Lemma sanitize_quiet expr context :
  (forall path, quiet (toString h (getValueFromPath h context path))) ->
  quiet (sanitize h expr context).
Proof.
  intros Hc. unfold sanitize, replace. apply replaceLoop_quiet.
  intros m _. cbv beta zeta. pose proof (Hc (matched m)) as Hm.
  destruct (getValueFromPath h context (matched m));
    try exact Hm; apply return_quiet.
Qed.

Lemma sanitize_returns expr context :
  (forall path, returns (toString h (getValueFromPath h context path))) ->
  returns (sanitize h expr context).
Proof.
  intros Hc. unfold sanitize, replace. apply replaceLoop_returns.
  intros m _. cbv beta zeta. pose proof (Hc (matched m)) as Hm.
  destruct (getValueFromPath h context (matched m));
    try exact Hm; apply return_returns.
Qed.

End EvaluateFacts.

(* ================================================================== *)
(** ** Texts without markers *)
(* ================================================================== *)

Section PlainTemplates.

Variable h : Host.

Lemma trimStart_suffix s : exists lead, s = lead ++ trimStart s.
Proof.
  induction s as [|c s [lead IH]]; simpl; [now exists ""|].
  destruct (isWhitespace c); [|now exists ""].
  exists (String c lead). simpl. now rewrite <- IH.
Qed.

Lemma trimEnd_prefix s : exists trail, s = trimEnd s ++ trail.
Proof.
  induction s as [|c s [trail IH]]; simpl; [now exists ""|].
  destruct (isWhitespace c && isEmpty (trimEnd s)).
  - now exists (String c s).
  - exists trail. simpl. now rewrite <- IH.
Qed.

Lemma trim_middle s : exists lead trail, s = lead ++ trim s ++ trail.
Proof.
  destruct (trimStart_suffix s) as [lead H].
  destruct (trimEnd_prefix (trimStart s)) as [trail H'].
  exists lead, trail. unfold trim. now rewrite <- H', <- H.
Qed.

Lemma includes_suffix l lead s :
  includes l (lead ++ s) = false -> includes l s = false.
Proof.
  induction lead as [|c lead IH]; simpl; [auto|].
  intros H. apply orb_false_iff in H as [_ H]. auto.
Qed.

Lemma includes_prefix l s trail :
  includes l (s ++ trail) = false -> includes l s = false.
Proof.
  induction s as [|c s IH]; simpl; intros H.
  - rewrite includes_unfold in H. apply orb_false_iff in H as [H _].
    destruct l; [|reflexivity]. now destruct trail.
  - apply orb_false_iff in H as [H1 H2]. apply orb_false_iff. split; auto.
    destruct (startsWith l (String c s)) eqn:E; [|reflexivity].
    apply (startsWith_weaken _ _ trail) in E. simpl in E. congruence.
Qed.

Lemma includes_trim l s : includes l s = false -> includes l (trim s) = false.
Proof.
  intros H. destruct (trim_middle s) as (lead & trail & E).
  rewrite E in H. now apply includes_suffix, includes_prefix in H.
Qed.

Lemma escapedTagAt_weaken s trail :
  escapedTagAt s = true -> escapedTagAt (s ++ trail) = true.
Proof.
  unfold escapedTagAt.
  destruct (dropPrefix "nedara-" s) as [rest|] eqn:E; [|discriminate].
  apply dropPrefix_inv in E as ->. rewrite append_assoc, dropPrefix_app.
  now destruct rest.
Qed.

Lemma hasEscapedTag_unfold s :
  hasEscapedTag s =
  escapedTagAt s
  || match s with EmptyString => false | String _ s' => hasEscapedTag s' end.
Proof. destruct s; reflexivity. Qed.

Lemma hasEscapedTag_suffix lead s :
  hasEscapedTag (lead ++ s) = false -> hasEscapedTag s = false.
Proof.
  induction lead as [|c lead IH]; [auto|].
  cbn [append]. rewrite hasEscapedTag_unfold.
  intros H. apply orb_false_iff in H as [_ H]. auto.
Qed.

Lemma hasEscapedTag_prefix s trail :
  hasEscapedTag (s ++ trail) = false -> hasEscapedTag s = false.
Proof.
  induction s as [|c s IH]; [reflexivity|].
  cbn [append]. rewrite !(hasEscapedTag_unfold (String c _)).
  intros H. apply orb_false_iff in H as [H1 H2].
  apply orb_false_iff. split; [|auto].
  destruct (escapedTagAt (String c s)) eqn:E; [|reflexivity].
  apply (escapedTagAt_weaken _ trail) in E. simpl in E. congruence.
Qed.

Lemma hasEscapedTag_trim s :
  hasEscapedTag s = false -> hasEscapedTag (trim s) = false.
Proof.
  intros H. destruct (trim_middle s) as (lead & trail & E).
  rewrite E in H. now apply hasEscapedTag_suffix, hasEscapedTag_prefix in H.
Qed.

Lemma substituteVariables_absent context s :
  includes "{{" s = false -> substituteVariables h context s = Return s.
Proof. intros H. now apply replace_absent. Qed.

(** Without an opening brace pair only the tag-escape pass does
    anything. *)
Lemma renderContent_plain s data :
  includes "{{" s = false -> renderContent h s data = unescapeTags s.
Proof.
  intros H. unfold renderContent.
  rewrite processNestedLoops_absent
    by now apply (includes_shorter "{{" "#").
  cbn [bind]. rewrite processConditionals_global, globalConditionals_absent
    by now apply (includes_shorter "{{" "#if ").
  cbn [bind]. rewrite processSubConditionals_absent
    by now apply (includes_shorter "{{" "#subif ").
  cbn [bind]. rewrite globalConditionals_absent
    by now apply (includes_shorter "{{" "#if ").
  cbn [bind]. rewrite substituteVariables_absent by exact H.
  cbn [bind]. now destruct (unescapeTags s).
Qed.

End PlainTemplates.

(* ================================================================== *)
(** ** Facts about the variable pass *)
(* ================================================================== *)

Section VariableFacts.

Variable h : Host.

(** The first marker of a text. *)
Lemma substituteVariables_block context pre path post :
  clearBefore variablePattern pre ("{{" ++ path ++ "}}" ++ post) ->
  JsString.forallb isWordOrDot path = true ->
  isEmpty path = false ->
  substituteVariables h context (pre ++ "{{" ++ path ++ "}}" ++ post) =
  text <- resolvedText h context path ;;
  out <- substituteVariables h context post ;;
  Return (pre ++ text ++ out).
Proof.
  intros Hpre Hp Hne. unfold substituteVariables.
  rewrite variable_block by assumption.
  unfold group, resolvedText. cbn [groups nth Nat.sub matched].
  now destruct (getValueFromPath h context path).
Qed.

(** Every marker of a text. *)
Lemma substituteVariables_markup context segments tail :
  Forall variableSegment segments ->
  includes "{{" tail = false ->
  substituteVariables h context (markup segments tail) =
  substituted h context segments tail.
Proof.
  intros Hs Ht. induction Hs as [|[pre path] rest (Hpre & Hp & Hne) _ IH];
    cbn [markup substituted].
  - now apply substituteVariables_absent.
  - cbn [fst snd] in *. rewrite substituteVariables_block;
      [now rewrite IH | now apply clearBefore_first | assumption..].
Qed.

End VariableFacts.

(* ================================================================== *)
(** ** The nearest closing marker *)
(* ================================================================== *)

Section NearestFacts.

Lemma includes_nearest closing body :
  isEmpty closing = false ->
  indexOf closing (body ++ closing) = Some (String.length body) ->
  includes closing body = false.
Proof.
  intros Hc H. apply (includes_clear closing body closing Hc).
  now apply indexOf_clear.
Qed.

Lemma bind_return {A B : Type} (a : A) (k : A -> completion B) :
  bind (Return a) k = k a.
Proof. reflexivity. Qed.

End NearestFacts.

(* ================================================================== *)
(** ** Plain text around markers *)
(* ================================================================== *)

Section PlainFacts.

Lemma wordOrDot_units c :
  isWordOrDot c = true ->
  Ascii.eqb "{"%char c = false /\ Ascii.eqb "#"%char c = false /\
  Ascii.eqb "/"%char c = false /\ notBrace c = true.
Proof.
  destruct c as [[] [] [] [] [] [] [] []]; vm_compute; intros H;
    try discriminate; repeat split; reflexivity.
Qed.

Lemma wordOrDot_plain v :
  JsString.forallb isWordOrDot v = true -> plainText v = true.
Proof.
  apply forallb_weaken. intros c H. now apply wordOrDot_units in H.
Qed.

Lemma forallb_append q a b :
  JsString.forallb q (a ++ b) = JsString.forallb q a && JsString.forallb q b.
Proof.
  induction a as [|c a IH]; simpl; [reflexivity|].
  now rewrite IH, andb_assoc.
Qed.

Lemma clearOf_append l x y rest :
  clearOf l (x ++ y) rest = clearOf l x (y ++ rest) && clearOf l y rest.
Proof.
  induction x as [|c x IH]; [reflexivity|].
  cbn [append clearOf]. rewrite IH, andb_assoc.
  now rewrite <- append_assoc.
Qed.

Lemma clearOf_plain l a rest :
  plainText a = true -> clearOf (String "{" l) a rest = true.
Proof.
  induction a as [|c a IH]; [reflexivity|].
  cbn [plainText JsString.forallb]. intros H.
  apply andb_true_iff in H as [Hc Ha].
  cbn [clearOf append]. rewrite (IH Ha), andb_true_r.
  apply negb_true_iff, startsWith_head_diff.
  unfold notBrace in Hc. apply negb_true_iff in Hc.
  now rewrite Ascii.eqb_sym.
Qed.

(** A variable marker holds no opening marker of a block and no closing
    marker of a loop: after its brace pair comes a word character or a
    dot. *)
Lemma clearOf_cons l c body rest :
  clearOf l (String c body) rest =
  negb (startsWith l (String c (body ++ rest))) && clearOf l body rest.
Proof. reflexivity. Qed.

Lemma clearOf_marker x l v rest :
  isWordOrDot x = false ->
  JsString.forallb isWordOrDot v = true ->
  isEmpty v = false ->
  clearOf (String "{" (String "{" (String x l))) ("{{" ++ v ++ "}}") rest = true.
Proof.
  intros Hx Hv Hne. destruct v as [|c v]; [discriminate|].
  pose proof Hv as Hv'. cbn [JsString.forallb] in Hv'.
  apply andb_true_iff in Hv' as [Hc _].
  pose proof (wordOrDot_units c Hc) as (Hb & _).
  change ("{{" ++ String c v ++ "}}")
    with (String "{" (String "{" (String c v ++ "}}"))).
  rewrite !clearOf_cons.
  rewrite (clearOf_plain _ (String c v ++ "}}")).
  - cbn [append startsWith]. rewrite Hb, !Ascii.eqb_refl. cbn [andb negb].
    destruct (Ascii.eqb_spec x c) as [->|]; [congruence | reflexivity].
  - pose proof (wordOrDot_plain _ Hv) as Hp. unfold plainText in *.
    now rewrite forallb_append, Hp.
Qed.

Lemma startsWith_refl l : startsWith l l = true.
Proof. rewrite <- (append_nil_r l) at 2. apply startsWith_app. Qed.

Lemma indexOf_clearOf l body rest :
  clearOf l body rest = true ->
  startsWith l rest = true ->
  indexOf l (body ++ rest) = Some (String.length body).
Proof.
  intros Hc Hr. induction body as [|c body IH].
  - cbn [append]. destruct rest; simpl in *; now rewrite Hr.
  - cbn [clearOf] in Hc. apply andb_true_iff in Hc as [H1 H2].
    apply negb_true_iff in H1. cbn [append] in *. cbn [indexOf].
    now rewrite H1, (IH H2).
Qed.

Lemma includes_clearOf l body rest :
  clearOf l body rest = true ->
  includes l (body ++ rest) = includes l rest.
Proof.
  intros Hc. induction body as [|c body IH]; [reflexivity|].
  cbn [clearOf] in Hc. apply andb_true_iff in Hc as [H1 H2].
  apply negb_true_iff in H1. cbn [append] in *. cbn [includes].
  now rewrite H1, (IH H2).
Qed.

Lemma clearBefore_clearOf r l pre s :
  clearOf l pre s = true -> clearBefore (Lit l :: r) pre s.
Proof.
  induction pre as [|c pre IH]; intros Hc n Hn p; [simpl in Hn; lia|].
  cbn [clearOf] in Hc. apply andb_true_iff in Hc as [H1 H2].
  apply negb_true_iff in H1.
  destruct n as [|n]; [now apply exec_lit_none|].
  apply (IH H2). simpl in Hn. lia.
Qed.

(** The text of a loop body with one marker holds no block marker. *)
Lemma clearOf_oneVariable x l a v b rest :
  isWordOrDot x = false ->
  plainText a = true ->
  JsString.forallb isWordOrDot v = true ->
  isEmpty v = false ->
  plainText b = true ->
  clearOf (String "{" (String "{" (String x l))) (oneVariable a v b) rest = true.
Proof.
  intros Hx Ha Hv Hne Hb. unfold oneVariable.
  replace (a ++ "{{" ++ v ++ "}}" ++ b) with (a ++ ("{{" ++ v ++ "}}") ++ b)
    by now rewrite !append_assoc.
  rewrite (clearOf_append _ a), (clearOf_append _ ("{{" ++ v ++ "}}") b).
  rewrite (clearOf_plain _ a _ Ha), (clearOf_marker x l v _ Hx Hv Hne),
          (clearOf_plain _ b _ Hb).
  reflexivity.
Qed.

Lemma join_cons x xs : join "" (x :: xs) = x ++ join "" xs.
Proof. destruct xs; [now rewrite append_nil_r | reflexivity]. Qed.

Lemma mapM_return {A B} (f : A -> completion B) (g : A -> B) l :
  (forall x, In x l -> f x = Return (g x)) -> mapM f l = Return (map g l).
Proof.
  induction l as [|x l IH]; intros H; [reflexivity|].
  cbn [mapM map]. rewrite (H x) by now left.
  rewrite bind_return, IH; [reflexivity|].
  intros y Hy. apply H. now right.
Qed.

End PlainFacts.

(* ================================================================== *)
(** ** A loop body with one variable *)
(* ================================================================== *)

Section ScopeFacts.

Variable h : Host.

Lemma fold_undefined keys :
  fold_left (pathStep h) keys VUndefined = VUndefined.
Proof. induction keys as [|k keys IH]; [reflexivity | exact IH]. Qed.

Lemma getValueFromPath_undefined path :
  getValueFromPath h VUndefined path = VUndefined.
Proof. unfold getValueFromPath. apply fold_undefined. Qed.

Lemma includes_whole l body :
  clearOf l body "" = true -> includes l "" = false -> includes l body = false.
Proof.
  intros Hc He. rewrite <- (append_nil_r body).
  now rewrite includes_clearOf.
Qed.

Lemma substituteVariables_plain_prefix context b rest :
  plainText b = true ->
  substituteVariables h context (b ++ rest) =
  out <- substituteVariables h context rest ;; Return (b ++ out).
Proof.
  intros Hb. unfold substituteVariables, replace at 1.
  rewrite replaceLoop_prefix
    by now apply clearBefore_clearOf, clearOf_plain.
  now rewrite replaceLoop_replace.
Qed.

Section OneVariable.

Variables a v b : string.
Hypothesis Ha : plainText a = true.
Hypothesis Hv : JsString.forallb isWordOrDot v = true.
Hypothesis Hne : isEmpty v = false.
Hypothesis Hb : plainText b = true.

Lemma oneVariable_no_block : includes "{{#" (oneVariable a v b) = false.
Proof.
  apply includes_whole; [|reflexivity].
  now apply clearOf_oneVariable.
Qed.

Lemma substituteVariables_oneVariable context rest :
  substituteVariables h context (oneVariable a v b ++ rest) =
  text <- resolvedText h context v ;;
  out <- substituteVariables h context rest ;;
  Return ((a ++ text ++ b) ++ out).
Proof.
  unfold oneVariable. rewrite !append_assoc.
  rewrite substituteVariables_block; auto.
  - apply bind_ext; intros text.
    rewrite substituteVariables_plain_prefix by exact Hb.
    rewrite bind_assoc. apply bind_ext; intros out.
    now rewrite bind_return, !append_assoc.
  - now apply clearBefore_clearOf, clearOf_plain.
Qed.

(** Inside the loop the marker is looked up on the element only. *)
Lemma expandItem_oneVariable item :
  getValueFromPath h item v = VUndefined ->
  expandItem h (oneVariable a v b) item = Return (oneVariable a v b).
Proof.
  intros Hu. unfold expandItem. pose proof oneVariable_no_block as Hn.
  rewrite processConditionals_global, globalConditionals_absent
    by now apply (includes_shorter "{{#" "if ").
  rewrite bind_return, processSubConditionals_absent
    by now apply (includes_shorter "{{#" "subif ").
  rewrite bind_return.
  rewrite <- (append_nil_r (oneVariable a v b)) at 1.
  rewrite substituteVariables_oneVariable.
  rewrite substituteVariables_absent by reflexivity.
  unfold resolvedText. rewrite Hu, !bind_return, append_nil_r.
  rewrite !append_assoc.
  change (a ++ "{{" ++ v ++ "}}" ++ b) with (oneVariable a v b).
  now apply processNestedLoops_absent.
Qed.

End OneVariable.

End ScopeFacts.

(* ================================================================== *)
(** ** Outputs: concatenation, trimming, unresolved names *)
(* ================================================================== *)

Section OutcomeFacts.

Variable h : Host.

(** [Array.prototype.join] is the concatenation of the Standard Library. *)
Lemma join_concat sep l : join sep l = String.concat sep l.
Proof.
  induction l as [|x l IH]; [reflexivity|].
  destruct l as [|y l]; [reflexivity|].
  change (join sep (x :: y :: l)) with (x ++ sep ++ join sep (y :: l)).
  now rewrite IH.
Qed.

Lemma concat_cons x xs : String.concat "" (x :: xs) = x ++ String.concat "" xs.
Proof. rewrite <- !join_concat. apply join_cons. Qed.

Lemma mapM_Forall2 {A B : Type} (f : A -> completion B) l outs :
  Forall2 (fun x y => f x = Return y) l outs -> mapM f l = Return outs.
Proof.
  induction 1 as [|x y l outs Hx _ IH]; cbn [mapM]; [reflexivity|].
  now rewrite Hx, IH.
Qed.

Lemma trimStart_core s : blankAt (head s) = false -> trimStart s = s.
Proof.
  destruct s as [|c s]; [reflexivity|]. cbn [head blankAt trimStart].
  now intros ->.
Qed.

Lemma trimEnd_core s : forall d,
  blankAt (lastOr d s) = false -> isEmpty s = false -> trimEnd s = s.
Proof.
  induction s as [|c s IH]; intros d Hl Hne; [discriminate|].
  cbn [trimEnd lastOr] in *. destruct s as [|c' s].
  - cbn [trimEnd lastOr blankAt isEmpty] in *. now rewrite Hl.
  - rewrite (IH (Some c) Hl eq_refl). cbn [isEmpty].
    now rewrite andb_false_r.
Qed.

(** [trim] gives the text between the white space around it. *)
Lemma trim_core lead s trail :
  JsString.forallb isWhitespace lead = true ->
  JsString.forallb isWhitespace trail = true ->
  blankAt (head s) = false ->
  blankAt (lastOr None s) = false ->
  trim (lead ++ s ++ trail) = s.
Proof.
  intros Hl Ht Hh He. rewrite trim_around by assumption. unfold trim.
  rewrite trimStart_core by exact Hh.
  destruct s as [|c s]; [reflexivity|].
  now apply (trimEnd_core _ None).
Qed.

(** The loop pass reads its context through the arrays its keys resolve
    to, and through nothing else. *)
Lemma processNestedLoops_context content c1 c2 :
  (forall key items, getValueFromPath h c1 key = VArr items <->
                     getValueFromPath h c2 key = VArr items) ->
  processNestedLoops h content c1 = processNestedLoops h content c2.
Proof.
  intros H. rewrite !processNestedLoops_equation.
  apply replace_ext. intros p t res _. cbv beta zeta.
  pose proof (H (group 1 (matchAt t res))) as Hkey.
  destruct (getValueFromPath h c1 (group 1 (matchAt t res)))
    as [| | | | |items1| | |[|]];
    destruct (getValueFromPath h c2 (group 1 (matchAt t res)))
      as [| | | | |items2| | |[|]];
    cbn [arrayItems mapM bind join]; try reflexivity;
    try (pose proof (proj1 (Hkey items1) eq_refl) as E);
    try (pose proof (proj2 (Hkey items2) eq_refl) as E);
    try discriminate.
  now injection E as ->.
Qed.

(** A body in which no block opens is expanded by the variable pass
    alone, run with the element as its context. *)
Lemma expandItem_flat body item out :
  includes "{{#" body = false ->
  substituteVariables h item body = Return out ->
  includes "{{#" out = false ->
  expandItem h body item = Return out.
Proof.
  intros Hb Hs Ho. unfold expandItem.
  rewrite processConditionals_global, globalConditionals_absent
    by now apply (includes_shorter "{{#" "if ").
  rewrite bind_return, processSubConditionals_absent
    by now apply (includes_shorter "{{#" "subif ").
  rewrite bind_return, Hs, bind_return.
  now apply processNestedLoops_absent.
Qed.

Lemma includes_pieces l outs rest :
  includes l (String.concat "" outs ++ rest) = false ->
  Forall (fun out => includes l out = false) outs /\ includes l rest = false.
Proof.
  induction outs as [|out outs IH]; intros H; [now split|].
  rewrite concat_cons, append_assoc in H.
  destruct (IH (includes_suffix _ _ _ H)) as [H1 H2].
  split; [constructor|]; auto. now apply includes_prefix in H.
Qed.

Lemma sanitize_unresolved expr context :
  Forall (fun t => getValueFromPath h context t = VUndefined)
         (identifiers expr) ->
  sanitize h expr context = Return expr.
Proof.
  intros H. unfold sanitize, replace.
  rewrite replaceLoop_matches; [reflexivity|].
  intros m Hm. cbv beta zeta.
  rewrite Forall_forall in H. rewrite (H (matched m)); [reflexivity|].
  unfold identifiers. now apply in_map.
Qed.

Lemma substituteVariables_unresolved context text :
  Forall (fun p => getValueFromPath h context p = VUndefined)
         (markers text) ->
  substituteVariables h context text = Return text.
Proof.
  intros H. unfold substituteVariables, replace.
  rewrite replaceLoop_matches; [reflexivity|].
  intros m Hm. cbv beta zeta.
  rewrite Forall_forall in H. rewrite (H (group 1 m)); [reflexivity|].
  unfold markers. now apply in_map.
Qed.

Lemma plain_clear l s : plainText s = true -> includes (String "{" l) s = false.
Proof.
  intros Hs. apply includes_whole; [|reflexivity].
  now apply clearOf_plain.
Qed.

Lemma plainText_append a b :
  plainText (a ++ b) = plainText a && plainText b.
Proof. apply forallb_append. Qed.

Lemma expandItem_plain body item :
  plainText body = true -> expandItem h body item = Return body.
Proof.
  intros Hb. unfold expandItem.
  rewrite processConditionals_global, globalConditionals_absent
    by now apply plain_clear.
  rewrite bind_return, processSubConditionals_absent by now apply plain_clear.
  rewrite bind_return, substituteVariables_absent by now apply plain_clear.
  rewrite bind_return. now apply processNestedLoops_absent, plain_clear.
Qed.

Section OneMarker.

Variables a v b : string.
Hypothesis Ha : plainText a = true.
Hypothesis Hv : JsString.forallb isWordOrDot v = true.
Hypothesis Hne : isEmpty v = false.
Hypothesis Hb : plainText b = true.

Lemma piece_marker : a ++ ("{{" ++ v ++ "}}") ++ b = oneVariable a v b.
Proof. unfold oneVariable. now rewrite !append_assoc. Qed.

(** A piece of loop output: the body with its marker kept, or replaced by
    a text without braces. *)
Lemma piece_clear x l t rest :
  isWordOrDot x = false ->
  t = "{{" ++ v ++ "}}" \/ plainText t = true ->
  clearOf (String "{" (String "{" (String x l))) (a ++ t ++ b) rest = true.
Proof.
  intros Hx [->|Ht].
  - rewrite piece_marker. now apply clearOf_oneVariable.
  - apply clearOf_plain. now rewrite !plainText_append, Ha, Ht, Hb.
Qed.

Lemma expandItem_text item t :
  resolvedText h item v = Return t ->
  t = "{{" ++ v ++ "}}" \/ plainText t = true ->
  expandItem h (oneVariable a v b) item = Return (a ++ t ++ b).
Proof.
  intros Hr Ht. unfold expandItem.
  pose proof (oneVariable_no_block a v b Ha Hv Hne Hb) as Hn.
  rewrite processConditionals_global, globalConditionals_absent
    by now apply (includes_shorter "{{#" "if ").
  rewrite bind_return, processSubConditionals_absent
    by now apply (includes_shorter "{{#" "subif ").
  rewrite bind_return.
  rewrite <- (append_nil_r (oneVariable a v b)) at 1.
  rewrite substituteVariables_oneVariable by assumption.
  rewrite Hr, substituteVariables_absent by reflexivity.
  rewrite !bind_return, append_nil_r.
  apply processNestedLoops_absent, includes_whole; [|reflexivity].
  now apply piece_clear.
Qed.

(** The variable pass over loop output: the markers that were kept are
    looked up in the context given now. *)
Lemma substituteVariables_pieces context root (texts : list string) rest :
  resolvedText h context v = Return root ->
  Forall (fun t => t = "{{" ++ v ++ "}}" \/ plainText t = true) texts ->
  substituteVariables h context
    (String.concat "" (map (fun t => a ++ t ++ b) texts) ++ rest) =
  out <- substituteVariables h context rest ;;
  Return (String.concat ""
            (map (fun t => a ++ (if plainText t then t else root) ++ b) texts)
          ++ out).
Proof.
  intros Hr H. induction H as [|t texts Ht _ IH].
  - cbn [map String.concat append]. now destruct (substituteVariables _ _ _).
  - cbn [map]. rewrite !concat_cons, append_assoc.
    destruct Ht as [->|Ht].
    + replace (plainText ("{{" ++ v ++ "}}")) with false by reflexivity.
      rewrite piece_marker.
      rewrite substituteVariables_oneVariable by assumption.
      rewrite Hr, bind_return, IH, bind_assoc.
      apply bind_ext; intros out. now rewrite bind_return, !append_assoc.
    + rewrite Ht.
      rewrite (substituteVariables_plain_prefix h context (a ++ t ++ b))
        by now rewrite !plainText_append, Ha, Ht, Hb.
      rewrite IH, bind_assoc.
      apply bind_ext; intros out. now rewrite bind_return, !append_assoc.
Qed.

End OneMarker.

End OutcomeFacts.
(* ================================================================== *)
(** ** The claims *)
(* ================================================================== *)

Section Claims.

Variable h : Host.

(** C9. A template identifier that the store cannot resolve, because no
    templates were imported or because no element has that identifier,
    makes [renderTemplate] return the empty string, whatever the data. *)
Theorem renderTemplate_unresolved templateDoc id data :
  (forall doc, templateDoc = Some doc -> getElementById doc id = None) ->
  renderTemplate h templateDoc id data = Return "".
Proof.
  intros H. unfold renderTemplate, _getTemplate.
  destruct templateDoc as [doc|]; [|reflexivity].
  now rewrite (H doc eq_refl).
Qed.

(** C10. The template text is trimmed when it is fetched.  A stored
    source is a text that neither begins nor ends with white space, with
    white space before and after it: [_getTemplate] gives that text
    alone, the render is that of the text stored without the white space,
    and, when the text holds no marker and no escaped tag, the output is
    the text itself, so none of the white space around it is in the
    output. *)
Theorem renderTemplate_trimmed doc doc' id lead source trail data :
  getElementById doc id = Some {| innerHTML := lead ++ source ++ trail |} ->
  getElementById doc' id = Some {| innerHTML := source |} ->
  JsString.forallb isWhitespace lead = true ->
  JsString.forallb isWhitespace trail = true ->
  blankAt (head source) = false ->
  blankAt (lastOr None source) = false ->
  _getTemplate (Some doc) id = Some source /\
  renderTemplate h (Some doc) id data = renderTemplate h (Some doc') id data /\
  (includes "{{" source = false ->
   hasEscapedTag source = false ->
   renderTemplate h (Some doc) id data = Return source).
Proof.
  intros Hd Hd' Hl Ht Hh He.
  assert (E : trim (lead ++ source ++ trail) = source)
    by now apply trim_core.
  assert (E' : trim source = source).
  { pose proof (trim_core "" source "" eq_refl eq_refl Hh He) as H.
    cbn [append] in H. now rewrite append_nil_r in H. }
  unfold renderTemplate, _getTemplate. rewrite Hd, Hd'. cbn [innerHTML].
  rewrite E, E'. split; [reflexivity|]. split; [reflexivity|].
  intros Hb Hn. destruct source as [|c s]; [reflexivity|]. cbn [isEmpty].
  rewrite renderContent_plain by exact Hb.
  now apply unescapeTags_clear.
Qed.

(** C7, as amended. The tag-escape pass returns a text unchanged exactly
    when the text holds no reserved prefix followed by a word character.
    The pass makes one sweep and does not look at its own output again,
    so its result may still hold such a prefix. *)
Theorem unescapeTags_fixed_iff text :
  unescapeTags text = Return text <-> hasEscapedTag text = false.
Proof.
  split; [|apply unescapeTags_clear].
  intros H. destruct (hasEscapedTag text) eqn:E; [|reflexivity].
  pose proof (unescape_shrinks text E None text H). lia.
Qed.

(** C8, as amended. A template whose source holds no opening brace pair
    and no reserved prefix followed by a word character renders as its
    source with the white space around it removed. *)
Theorem renderTemplate_plain doc id template data :
  getElementById doc id = Some template ->
  includes "{{" (innerHTML template) = false ->
  hasEscapedTag (innerHTML template) = false ->
  renderTemplate h (Some doc) id data = Return (trim (innerHTML template)).
Proof.
  intros Hd Hb Ht. unfold renderTemplate, _getTemplate. rewrite Hd.
  destruct (isEmpty (trim (innerHTML template))) eqn:E.
  - now destruct (trim (innerHTML template)).
  - rewrite renderContent_plain by now apply includes_trim.
    apply unescapeTags_clear. now apply hasEscapedTag_trim.
Qed.

(** C6, as amended.  The variable pass is fail-open for the paths that do
    not resolve.  The first marker [{{path}}] of a text is left as it is
    written when the path does not resolve, and no error comes of it; when
    the path resolves, the marker is replaced by the string form of the
    value, which is what the conversion of the value to a string gives
    (for a string held by a mapping, the string itself): the outcome of
    that conversion, an exception included, is the outcome of the pass.
    The rest of the text is treated the same way, and a text none of
    whose markers resolves is returned as it is. *)
Theorem substituteVariables_fail_open context pre path post :
  clearBefore variablePattern pre ("{{" ++ path ++ "}}" ++ post) ->
  JsString.forallb isWordOrDot path = true ->
  isEmpty path = false ->
  (getValueFromPath h context path = VUndefined ->
   substituteVariables h context (pre ++ "{{" ++ path ++ "}}" ++ post) =
   out <- substituteVariables h context post ;;
   Return (pre ++ "{{" ++ path ++ "}}" ++ out)) /\
  (getValueFromPath h context path <> VUndefined ->
   substituteVariables h context (pre ++ "{{" ++ path ++ "}}" ++ post) =
   text <- toString h (getValueFromPath h context path) ;;
   out <- substituteVariables h context post ;;
   Return (pre ++ text ++ out)) /\
  (forall fields s,
     context = VObj fields ->
     assoc path fields = Some (VStr s) ->
     includes "." path = false ->
     substituteVariables h context (pre ++ "{{" ++ path ++ "}}" ++ post) =
     out <- substituteVariables h context post ;;
     Return (pre ++ s ++ out)) /\
  (forall text,
     Forall (fun p => getValueFromPath h context p = VUndefined)
            (markers text) ->
     substituteVariables h context text = Return text).
Proof.
  intros Hpre Hp Hne.
  pose proof (substituteVariables_block h context pre path post Hpre Hp Hne)
    as Hblock.
  unfold resolvedText in Hblock.
  split; [|split; [|split]].
  - intros Hu. rewrite Hblock, Hu, bind_return.
    destruct (substituteVariables h context post) as [out| |];
      cbn [bind]; [|reflexivity..].
    cbn [append]. now rewrite !append_assoc.
  - intros Hd. rewrite Hblock.
    now destruct (getValueFromPath h context path).
  - intros fields s -> Hs Hdot. rewrite Hblock.
    assert (E : getValueFromPath h (VObj fields) path = VStr s).
    { unfold getValueFromPath. rewrite split_absent by exact Hdot.
      cbn [fold_left truthy typeofObject andb member]. now rewrite Hs. }
    now rewrite E.
  - intros text. apply substituteVariables_unresolved.
Qed.

(** C3. Loop expansion.  The first loop block of a text runs from its
    opening marker to the nearest closing marker of the same key.  When
    the key resolves to nothing or to a value that is not an array, the
    block, markers included, is replaced by the empty string, without any
    error.  When it resolves to an array, the block is replaced by the
    outputs for the elements, concatenated in the order of the array
    without separator (so by the empty string for an empty array); the
    output for an element comes from the body by the conditional passes,
    the variable pass and the loop pass, each run with the element as its
    context.  What follows the block is expanded in the same way. *)
Theorem processNestedLoops_expansion context pre key body post :
  clearBefore loopPattern pre
              ("{{#" ++ key ++ "}}" ++ body ++ closingMarker key ++ post) ->
  JsString.forallb isWordOrDot key = true ->
  isEmpty key = false ->
  indexOf (closingMarker key) (body ++ closingMarker key)
  = Some (String.length body) ->
  ((forall items, getValueFromPath h context key <> VArr items) ->
   processNestedLoops h
     (pre ++ "{{#" ++ key ++ "}}" ++ body ++ closingMarker key ++ post)
     context =
   out <- processNestedLoops h post context ;;
   Return (pre ++ out)) /\
  (forall items outs,
     getValueFromPath h context key = VArr items ->
     Forall2
       (fun item out =>
          (processed <- processConditionals h body item ;;
           processed <- processSubConditionals h processed item ;;
           processed <- substituteVariables h item processed ;;
           processNestedLoops h processed item) = Return out)
       items outs ->
     processNestedLoops h
       (pre ++ "{{#" ++ key ++ "}}" ++ body ++ closingMarker key ++ post)
       context =
     out <- processNestedLoops h post context ;;
     Return (pre ++ String.concat "" outs ++ out)).
Proof.
  intros Hpre Hk Hne Hbody.
  pose proof (processNestedLoops_block h context pre key body post
                Hpre Hk Hne Hbody) as Hblock.
  split.
  - intros Hno. rewrite Hblock.
    destruct (getValueFromPath h context key) as [| | | | |items| | |[|]];
      cbn [arrayItems mapM bind join append]; try reflexivity.
    now destruct (Hno items).
  - intros items outs Harr Houts. rewrite Hblock, Harr.
    cbn [arrayItems]. rewrite (mapM_Forall2 (expandItem h body) items outs Houts).
    now rewrite !bind_return, join_concat.
Qed.

(** C5, as amended.  When building or running the substituted condition
    throws, [evaluateExpression] returns [false]: the exception does not
    reach the caller.  An identifier that the context does not resolve
    is left as it is written and is then read in the scope of the
    evaluator: a condition made of such identifiers reaches the evaluator
    unchanged.  When the evaluator throws on it (no global has that
    name), the condition is false and the block gives its else part, or
    nothing when it has none; when the evaluator returns a value for it,
    that value is the value of the condition. *)
Theorem evaluateExpression_failure context pre e body post :
  clearBefore ifPattern pre
              ("{{#if " ++ e ++ "}}" ++ body ++ "{{/if}}" ++ post) ->
  plainExpression e = true ->
  indexOf "{{/if}}" (body ++ "{{/if}}") = Some (String.length body) ->
  Forall (fun name => getValueFromPath h context name = VUndefined)
         (identifiers (trim e)) ->
  (forall expr c sanitized err,
     sanitize h expr c = Return sanitized ->
     runFunction h (functionBody sanitized) = Throw err ->
     evaluateExpression h expr c = Return (VBool false)) /\
  sanitize h (trim e) context = Return (trim e) /\
  (forall err,
     runFunction h (functionBody (trim e)) = Throw err ->
     evaluateExpression h (trim e) context = Return (VBool false) /\
     processConditionals h
       (pre ++ "{{#if " ++ e ++ "}}" ++ body ++ "{{/if}}" ++ post) context =
     out <- processConditionals h post context ;;
     Return (pre
             ++ (if includes "{{else}}" body
                 then trim (nth 1 (split "{{else}}" body) "")
                 else "")
             ++ out)) /\
  (forall v,
     runFunction h (functionBody (trim e)) = Return v ->
     evaluateExpression h (trim e) context = Return v).
Proof.
  intros Hpre He Hbody Hun.
  assert (Hcatch : forall expr c sanitized err,
             sanitize h expr c = Return sanitized ->
             runFunction h (functionBody sanitized) = Throw err ->
             evaluateExpression h expr c = Return (VBool false)).
  { intros expr c s x Hs Hx. unfold evaluateExpression.
    now rewrite Hs, bind_return, Hx. }
  pose proof (sanitize_unresolved h (trim e) context Hun) as Hs.
  split; [exact Hcatch|]. split; [exact Hs|]. split.
  - intros err Herr. pose proof (Hcatch _ _ _ _ Hs Herr) as Hv.
    split; [exact Hv|].
    rewrite !processConditionals_global.
    rewrite globalConditionals_block by assumption.
    rewrite Hv, bind_return. cbn [truthy].
    destruct (includes "{{else}}" body) eqn:E; [|now rewrite bind_return].
    now rewrite trimAt_second, bind_return.
  - intros v Hv. unfold evaluateExpression.
    now rewrite Hs, bind_return, Hv.
Qed.

(** C1, as amended.  Inside the loop pass the context of a body is the
    current element and nothing else: the output of the pass depends on
    the enclosing context only through the arrays that loop keys resolve
    to.  For a loop whose body opens no block, the pass puts, for each
    element in order, the body after the variable pass run with that
    element as its context, in which a marker whose path the element
    lacks is kept as it is written, also when the enclosing data have the
    path.  The variable pass that ends [renderTemplate] then runs over
    the whole text, the output of the loop included, with the root data.
    So for a body that is one marker between two texts: in the output
    the marker is replaced by the string form of the element's own value
    when the element has the path, by that of the root's value when only
    the root has it, and stays as written only when both lack it. *)
Theorem loop_marker_scope templateDoc id data key items pre body post outs :
  _getTemplate templateDoc id
  = Some (pre ++ "{{#" ++ key ++ "}}" ++ body ++ closingMarker key ++ post) ->
  plainText pre = true ->
  JsString.forallb isWordOrDot key = true ->
  isEmpty key = false ->
  includes "{{#" body = false ->
  indexOf (closingMarker key) (body ++ closingMarker key)
  = Some (String.length body) ->
  plainText post = true ->
  getValueFromPath h data key = VArr items ->
  Forall2 (fun item out => substituteVariables h item body = Return out)
          items outs ->
  includes "{{#" (String.concat "" outs ++ post) = false ->
  (forall content c1 c2,
     (forall k elements, getValueFromPath h c1 k = VArr elements <->
                         getValueFromPath h c2 k = VArr elements) ->
     processNestedLoops h content c1 = processNestedLoops h content c2) /\
  processNestedLoops h
    (pre ++ "{{#" ++ key ++ "}}" ++ body ++ closingMarker key ++ post) data
  = Return (pre ++ String.concat "" outs ++ post) /\
  renderTemplate h templateDoc id data
  = (rendered <- substituteVariables h data
                   (pre ++ String.concat "" outs ++ post) ;;
     unescapeTags rendered) /\
  (forall a v b (text : value -> string) root,
     body = oneVariable a v b ->
     plainText a = true ->
     JsString.forallb isWordOrDot v = true ->
     isEmpty v = false ->
     plainText b = true ->
     (forall item, In item items ->
        match getValueFromPath h item v with
        | VUndefined => text item = "{{" ++ v ++ "}}"
        | value => toString h value = Return (text item) /\
                   plainText (text item) = true
        end) ->
     resolvedText h data v = Return root ->
     outs = map (fun item => a ++ text item ++ b) items /\
     renderTemplate h templateDoc id data
     = unescapeTags
         (pre
          ++ String.concat ""
               (map (fun item =>
                       a ++ match getValueFromPath h item v with
                            | VUndefined => root
                            | _ => text item
                            end ++ b) items)
          ++ post)).
Proof.
  intros Ht Hpre Hk Hkne Hbody Hclose Hpost Harr Houts Hflat.
  split; [apply processNestedLoops_context|].
  destruct (includes_pieces _ _ _ Hflat) as [Hout Hp].
  assert (Hloop : processNestedLoops h
            (pre ++ "{{#" ++ key ++ "}}" ++ body ++ closingMarker key ++ post)
            data
          = Return (pre ++ String.concat "" outs ++ post)).
  { rewrite processNestedLoops_block; auto.
    - rewrite Harr. cbn [arrayItems].
      rewrite (mapM_Forall2 (expandItem h body) items outs).
      + rewrite !bind_return, join_concat.
        rewrite processNestedLoops_absent by exact Hp.
        now rewrite bind_return.
      + clear Harr Hflat. induction Houts as [|item out items outs E _ IH];
          constructor.
        * apply expandItem_flat; auto. now inversion Hout.
        * apply IH. now inversion Hout.
    - now apply clearBefore_clearOf, clearOf_plain. }
  assert (Hrender : renderTemplate h templateDoc id data
                    = (rendered <- substituteVariables h data
                                     (pre ++ String.concat "" outs ++ post) ;;
                       unescapeTags rendered)).
  { unfold renderTemplate. rewrite Ht.
    replace (match data with VUndefined => VObj [] | _ => data end) with data.
    2:{ destruct data; try reflexivity.
        now rewrite getValueFromPath_undefined in Harr. }
    assert (Hfull : isEmpty (pre ++ "{{#" ++ key ++ "}}" ++ body
                             ++ closingMarker key ++ post) = false)
      by now destruct pre.
    rewrite Hfull. unfold renderContent. rewrite Hloop, bind_return.
    assert (Hn : includes "{{#" (pre ++ String.concat "" outs ++ post) = false)
      by now rewrite includes_clearOf by now apply clearOf_plain.
    rewrite processConditionals_global, globalConditionals_absent
      by now apply (includes_shorter "{{#" "if ").
    rewrite bind_return, processSubConditionals_absent
      by now apply (includes_shorter "{{#" "subif ").
    rewrite bind_return, globalConditionals_absent
      by now apply (includes_shorter "{{#" "if ").
    rewrite bind_return. apply bind_ext; intros rendered.
    now destruct (unescapeTags rendered). }
  split; [exact Hloop|]. split; [exact Hrender|].
  intros a v b text root -> Ha Hv Hvne Hb Hitems Hroot.
  assert (Hitem : forall item, In item items ->
             resolvedText h item v = Return (text item) /\
             (text item = "{{" ++ v ++ "}}" \/ plainText (text item) = true)).
  { intros item Hin. specialize (Hitems item Hin). unfold resolvedText.
    destruct (getValueFromPath h item v);
      [rewrite Hitems; now auto | destruct Hitems as [E1 E2]; now auto ..]. }
  assert (Heq : outs = map (fun item => a ++ text item ++ b) items).
  { clear Harr Hflat Hout Hloop Hrender Hitems.
    induction Houts as [|item out items outs E _ IH]; [reflexivity|].
    cbn [map]. rewrite <- IH by (intros x Hx; apply Hitem; now right).
    destruct (Hitem item (or_introl eq_refl)) as [E1 _].
    rewrite <- (append_nil_r (oneVariable a v b)) in E.
    rewrite substituteVariables_oneVariable in E by assumption.
    rewrite E1, substituteVariables_absent in E by reflexivity.
    rewrite !bind_return, append_nil_r in E. now injection E as <-. }
  split; [exact Heq|].
  rewrite Hrender, Heq.
  assert (Htexts : Forall (fun t => t = "{{" ++ v ++ "}}" \/ plainText t = true)
                          (map text items)).
  { apply Forall_forall. intros t Hin.
    apply in_map_iff in Hin as (item & <- & Hin).
    now destruct (Hitem item Hin) as (_ & E). }
  assert (Hmap : map (fun item => a ++ text item ++ b) items
                 = map (fun t => a ++ t ++ b) (map text items))
    by now rewrite map_map.
  rewrite substituteVariables_plain_prefix by exact Hpre.
  rewrite Hmap.
  rewrite (substituteVariables_pieces h a v b Ha Hv Hvne Hb data root)
    by assumption.
  rewrite substituteVariables_absent by now apply plain_clear.
  rewrite !bind_return.
  assert (E : map (fun t => a ++ (if plainText t then t else root) ++ b)
                  (map text items)
              = map (fun item => a ++ match getValueFromPath h item v with
                                      | VUndefined => root
                                      | _ => text item
                                      end ++ b) items).
  { rewrite map_map. apply map_ext_in. intros item Hin.
    specialize (Hitems item Hin).
    destruct (getValueFromPath h item v);
      [now rewrite Hitems
      | destruct Hitems as [_ ->]; reflexivity ..]. }
  now rewrite E.
Qed.

End Claims.

Section ClosedExamples.

Import Examples.

(** C9 at an identifier the store does not hold. *)
Lemma renderTemplate_unresolved_witness :
  renderTemplate literalHost (oneTemplate "greeting" "Hi") "missing" noData
  = Return "".
Proof.
  apply renderTemplate_unresolved.
  intros doc [= <-]. reflexivity.
Defined.

(** C10 at a source with white space on both sides. *)
Lemma renderTemplate_trimmed_witness :
  _getTemplate (oneTemplate "t" "  <b>Hi</b> ") "t" = Some "<b>Hi</b>" /\
  renderTemplate literalHost (oneTemplate "t" "  <b>Hi</b> ") "t" noData
  = renderTemplate literalHost (oneTemplate "t" "<b>Hi</b>") "t" noData /\
  renderTemplate literalHost (oneTemplate "t" "  <b>Hi</b> ") "t" noData
  = Return "<b>Hi</b>".
Proof.
  destruct (renderTemplate_trimmed literalHost
              {| getElementById := fun id =>
                   if String.eqb id "t"
                   then Some {| innerHTML := "  <b>Hi</b> " |} else None |}
              {| getElementById := fun id =>
                   if String.eqb id "t"
                   then Some {| innerHTML := "<b>Hi</b>" |} else None |}
              "t" "  " "<b>Hi</b>" " " noData
              eq_refl eq_refl eq_refl eq_refl eq_refl eq_refl)
    as (E1 & E2 & E3).
  split; [exact E1|]. split; [exact E2 | exact (E3 eq_refl eq_refl)].
Defined.

(** C7: the pass applied to its own output changes it again. *)
Lemma unescapeTags_not_idempotent :
  unescapeTags escapedTwice = Return "nedara-div" /\
  unescapeTags "nedara-div" = Return "div" /\
  exists once,
    unescapeTags escapedTwice = Return once /\
    unescapeTags once <> Return once.
Proof.
  split; [reflexivity|]. split; [reflexivity|].
  exists "nedara-div". split; [reflexivity | discriminate].
Qed.

(** C8: a template without any brace marker that does not render as its
    source. *)
Lemma tagless_template_changed :
  includes "{{" escapedParagraph = false /\
  renderTemplate literalHost (oneTemplate "t" escapedParagraph) "t" noData
  = Return "<p>Hi</p>" /\
  renderTemplate literalHost (oneTemplate "t" escapedParagraph) "t" noData
  <> Return escapedParagraph.
Proof. split; [reflexivity|]. split; [reflexivity | discriminate]. Qed.

(** C8, as amended, at a source without markers. *)
Lemma renderTemplate_plain_witness :
  renderTemplate literalHost (oneTemplate "t" " <b>Hi</b> ") "t" noData
  = Return (trim " <b>Hi</b> ").
Proof.
  apply (renderTemplate_plain literalHost _ "t" {| innerHTML := " <b>Hi</b> " |});
    reflexivity.
Defined.

(** C6: the conversion of a resolved value to a string throws, and the
    exception leaves the variable pass and [renderTemplate]. *)
Lemma substituteVariables_throws :
  getValueFromPath literalHost unprintableData "a"
  = VObj [("toString", VNum 1)] /\
  toString literalHost (VObj [("toString", VNum 1)]) = Throw TypeError /\
  substituteVariables literalHost unprintableData "{{a}}" = Throw TypeError /\
  renderTemplate literalHost (oneTemplate "t" "{{a}}") "t" unprintableData
  = Throw TypeError.
Proof. repeat split; reflexivity. Qed.

(** C6, as amended, at a text whose first marker follows a brace pair that
    is not one: with data that hold the name, and with data that do not. *)
Lemma substituteVariables_fail_open_witness :
  substituteVariables literalHost annData "{{ a }} Hi {{name}}!"
  = Return "{{ a }} Hi Ann!" /\
  substituteVariables literalHost noData "{{ a }} Hi {{name}}!"
  = Return "{{ a }} Hi {{name}}!".
Proof.
  assert (Hpre : clearBefore variablePattern "{{ a }} Hi "
                             ("{{" ++ "name" ++ "}}" ++ "!"))
    by clear_by_cases.
  split.
  - exact (proj1 (proj2 (proj2
             (substituteVariables_fail_open literalHost annData
                "{{ a }} Hi " "name" "!" Hpre eq_refl eq_refl)))
             [("name", VStr "Ann")] "Ann" eq_refl eq_refl eq_refl).
  - exact (proj1
             (substituteVariables_fail_open literalHost noData
                "{{ a }} Hi " "name" "!" Hpre eq_refl eq_refl)
             eq_refl).
Defined.

(** C3 at a loop that follows the opening marker of a conditional: over
    an array of two elements, and with data that have no such array. *)
Lemma processNestedLoops_expansion_witness :
  processNestedLoops literalHost
    "{{#if 1}}<ul>{{#items}}<li>{{name}}</li>{{/items}}</ul>{{/if}}" listData
  = Return "{{#if 1}}<ul><li>a</li><li>b</li></ul>{{/if}}" /\
  processNestedLoops literalHost
    "{{#if 1}}<ul>{{#items}}<li>{{name}}</li>{{/items}}</ul>{{/if}}" annData
  = Return "{{#if 1}}<ul></ul>{{/if}}".
Proof.
  assert (Hpre : clearBefore loopPattern "{{#if 1}}<ul>"
                   ("{{#" ++ "items" ++ "}}" ++ "<li>{{name}}</li>"
                    ++ closingMarker "items" ++ "</ul>{{/if}}"))
    by clear_by_cases.
  split.
  - refine (proj2
              (processNestedLoops_expansion literalHost listData
                 "{{#if 1}}<ul>" "items" "<li>{{name}}</li>" "</ul>{{/if}}"
                 Hpre eq_refl eq_refl eq_refl)
              [VObj [("name", VStr "a")]; VObj [("name", VStr "b")]]
              ["<li>a</li>"; "<li>b</li>"] eq_refl _).
    repeat constructor.
  - refine (proj1
              (processNestedLoops_expansion literalHost annData
                 "{{#if 1}}<ul>" "items" "<li>{{name}}</li>" "</ul>{{/if}}"
                 Hpre eq_refl eq_refl eq_refl) _).
    intros items. discriminate.
Defined.

(** C2. The recursive call of [processConditionals] on the body of a
    block never meets a nested block: the first closing marker ends the
    outer block.  At [nestedConditional], whose condition is false and
    whose else part is [D], the output is not [D]: the block ends at the
    closing marker of the inner block, its body has no else marker, and
    the text after the inner block, the else marker and the outer closing
    marker are left in the output. *)
Theorem conditional_nesting_untracked :
  processConditionals literalHost nestedConditional noData
  = Return "C{{else}}D{{/if}}" /\
  renderTemplate literalHost (oneTemplate "t" nestedConditional) "t" noData
  = Return "C{{else}}D{{/if}}" /\
  processConditionals literalHost nestedConditional noData <> Return "D".
Proof. split; [reflexivity|]. split; [reflexivity | discriminate]. Qed.

(** C5: a condition made of one identifier that the data do not resolve
    and that names a global: the block gives its then part. *)
Lemma unresolved_global_is_truthy :
  getValueFromPath literalHost noData "Infinity" = VUndefined /\
  evaluateExpression literalHost "Infinity" noData
  = Return (VNumber Number.infinity) /\
  processConditionals literalHost globalCondition noData = Return "Y" /\
  renderTemplate literalHost (oneTemplate "t" globalCondition) "t" noData
  = Return "Y".
Proof. repeat split; reflexivity. Qed.

(** C5, as amended, at a condition naming a flag that neither the data
    nor the global scope have. *)
Lemma evaluateExpression_failure_witness :
  sanitize literalHost "flag" noData = Return "flag" /\
  evaluateExpression literalHost "flag" noData = Return (VBool false) /\
  processConditionals literalHost "{{#if flag}}Y{{else}}N{{/if}}" noData
  = Return "N".
Proof.
  destruct (evaluateExpression_failure literalHost noData "" "flag"
              "Y{{else}}N" "" (clearBefore_nil _ _) eq_refl eq_refl)
    as (_ & E1 & E2 & _).
  - repeat constructor.
  - split; [exact E1|]. exact (E2 (Thrown "ReferenceError") eq_refl).
Defined.

(** C4. [renderTemplate] throws on [slipTemplate]: the first conditional
    pass leaves an [if] block around the [subelse] marker, the sub-conditional
    pass expands that block to nothing, and the else part it then looks for
    is [undefined]. *)
Theorem renderTemplate_throws :
  renderTemplate literalHost (oneTemplate "t" slipTemplate) "t" slipData
  = Throw TypeError.
Proof. reflexivity. Qed.

(** C1: the elements lack [title], the root data have it, and the marker
    left by the loop pass is replaced by the root value in the output. *)
Lemma loop_marker_falls_back :
  getValueFromPath literalHost (VObj []) "title" = VUndefined /\
  getValueFromPath literalHost scopeData "title" = VStr "T" /\
  processNestedLoops literalHost scopeTemplate scopeData
  = Return "<li>{{title}}</li><li>{{title}}</li>" /\
  renderTemplate literalHost (oneTemplate "t" scopeTemplate) "t" scopeData
  = Return "<li>T</li><li>T</li>" /\
  includes "{{title}}" "<li>T</li><li>T</li>" = false.
Proof. repeat split; reflexivity. Qed.

(** C1, as amended, at [mixedTemplate]: the first element has [title],
    the second takes it from the root data in the last pass. *)
Lemma loop_marker_scope_witness :
  processNestedLoops literalHost mixedTemplate mixedData
  = Return "<ul><li>own</li><li>{{title}}</li></ul>" /\
  renderTemplate literalHost (oneTemplate "t" mixedTemplate) "t" mixedData
  = Return "<ul><li>own</li><li>T</li></ul>".
Proof.
  destruct (loop_marker_scope literalHost (oneTemplate "t" mixedTemplate) "t"
              mixedData "items" [VObj [("title", VStr "own")]; VObj []]
              "<ul>" "<li>{{title}}</li>" "</ul>"
              ["<li>own</li>"; "<li>{{title}}</li>"]
              eq_refl eq_refl eq_refl eq_refl eq_refl eq_refl eq_refl eq_refl)
    as (_ & E1 & _ & E2).
  - repeat constructor.
  - reflexivity.
  - split; [exact E1|].
    refine (proj2 (E2 "<li>" "title" "</li>"
                      (fun item =>
                         match getValueFromPath literalHost item "title" with
                         | VStr s => s
                         | _ => "{{title}}"
                         end)
                      "T" eq_refl eq_refl eq_refl eq_refl eq_refl _ eq_refl)).
    intros item [<-|[<-|[]]]; [split; reflexivity | reflexivity].
Defined.

(** In a nested loop the variable pass of the outer element runs over the
    body of the inner loop before the inner loop is expanded. *)
Lemma nested_loop_outer_first :
  renderTemplate literalHost (oneTemplate "t" catalogTemplate) "t" catalogData
  = Return "<h2>Books</h2><li>Books</li>".
Proof. reflexivity. Qed.

End ClosedExamples.

(* ================================================================== *)
(** * Further properties of the code

    What follows covers the parts of [nedara.js] that the claims above
    leave out: the walk of [getValueFromPath], what [evaluateExpression]
    hands to the evaluator, which passes may throw, templates without
    blocks, the rendering of loop elements, and the event bindings of
    [createWidget]. *)
(* ================================================================== *)

(* ================================================================== *)
(** ** Walking a path: [getValueFromPath] *)
(* ================================================================== *)

Section PathFacts.

Variable h : Host.

Lemma startsWith_unit c d s :
  startsWith (String c "") (String d s) = Ascii.eqb c d.
Proof. cbn [startsWith]. now rewrite andb_true_r. Qed.

(** Splitting at a one-unit separator is done piece by piece. *)
Lemma splitFrom_unit c a b : forall piece,
  splitFrom (String c "") (a ++ String c b) 0 piece =
  (splitFrom (String c "") a 0 piece ++ split (String c "") b)%list.
Proof.
  induction a as [|x a IH]; intros piece.
  - cbn [append splitFrom]. rewrite startsWith_unit, Ascii.eqb_refl.
    reflexivity.
  - cbn [append splitFrom]. rewrite !startsWith_unit.
    destruct (Ascii.eqb c x).
    + cbn [String.length Nat.sub]. now rewrite IH.
    + apply IH.
Qed.

Lemma split_unit c a b :
  split (String c "") (a ++ String c b) =
  (split (String c "") a ++ split (String c "") b)%list.
Proof. apply splitFrom_unit. Qed.

Lemma getValueFromPath_steps obj path :
  getValueFromPath h obj path = fold_left (pathStep h) (split "." path) obj.
Proof. reflexivity. Qed.

Lemma pathStep_scalar obj key :
  truthy obj && typeofObject obj = false -> pathStep h obj key = VUndefined.
Proof. intros H. unfold pathStep. now rewrite H. Qed.

Lemma getValueFromPath_single obj key :
  includes "." key = false ->
  getValueFromPath h obj key = pathStep h obj key.
Proof.
  intros H. rewrite getValueFromPath_steps, split_absent by exact H.
  reflexivity.
Qed.

Lemma numberToString_inj z z' :
  numberToString z = numberToString z' -> z = z'.
Proof.
  unfold numberToString. intros H. apply DecimalZ.to_int_inj.
  pose proof (NilEmpty.isi (Z.to_int z)) as E. rewrite H in E.
  rewrite NilEmpty.isi in E. now injection E.
Qed.

Lemma digits_numeric d :
  JsString.forallb (between 48 57) (NilEmpty.string_of_uint d) = true.
Proof. induction d; cbn [NilEmpty.string_of_uint JsString.forallb]; auto. Qed.

Lemma numberToString_nat n :
  JsString.forallb (between 48 57) (numberToString (Z.of_nat n)) = true.
Proof.
  unfold numberToString. destruct (Z.of_nat n) eqn:E;
    cbn [Z.to_int NilEmpty.string_of_int]; try apply digits_numeric.
  lia.
Qed.

Lemma forallb_includes q c s :
  q c = false -> JsString.forallb q s = true ->
  includes (String c "") s = false.
Proof.
  intros Hc. induction s as [|x s IH]; [reflexivity|].
  cbn [JsString.forallb]. intros Hs. apply andb_prop in Hs as [Hx Hs].
  rewrite includes_unfold, startsWith_unit, (IH Hs), orb_false_r.
  destruct (Ascii.eqb_spec c x) as [->|]; congruence.
Qed.

Lemma elementAt_nth items : forall i j,
  j < List.length items ->
  elementAt items i (numberToString (Z.of_nat (i + j))) = nth_error items j.
Proof.
  induction items as [|x items IH]; intros i j Hj; [simpl in Hj; lia|].
  cbn [elementAt]. destruct j as [|j].
  - now rewrite Nat.add_0_r, String.eqb_refl.
  - destruct (String.eqb_spec (numberToString (Z.of_nat i))
                              (numberToString (Z.of_nat (i + S j)))) as [E|_].
    + apply numberToString_inj in E. lia.
    + rewrite <- Nat.add_succ_comm. apply IH. simpl in Hj. lia.
Qed.

Lemma elementAt_word items key : forall i,
  JsString.forallb (between 48 57) key = false ->
  elementAt items i key = None.
Proof.
  intros i Hk. revert i. induction items as [|x items IH]; intros i;
    [reflexivity|].
  cbn [elementAt].
  destruct (String.eqb_spec (numberToString (Z.of_nat i)) key) as [E|_];
    [|apply IH].
  rewrite <- E, numberToString_nat in Hk. discriminate.
Qed.

Lemma getValueFromPath_nonobject obj path :
  truthy obj && typeofObject obj = false ->
  getValueFromPath h obj path = VUndefined.
Proof.
  intros H. rewrite getValueFromPath_steps.
  destruct (split "." path) as [|key keys] eqn:E.
  - now apply splitFrom_nonempty in E.
  - cbn [fold_left]. rewrite pathStep_scalar by exact H.
    apply fold_undefined.
Qed.

Lemma getValueFromPath_dot obj a b :
  getValueFromPath h obj (a ++ "." ++ b) =
  getValueFromPath h (getValueFromPath h obj a) b.
Proof.
  rewrite !getValueFromPath_steps.
  change (a ++ "." ++ b) with (a ++ String "." b).
  now rewrite split_unit, fold_left_app.
Qed.

(** X1. [getValueFromPath]: with [null], [undefined], a number, a string,
    a boolean or a function as the root, every path resolves to
    [undefined]; the walk does not throw on a root without members. *)
Theorem getValueFromPath_scalar obj path :
  truthy obj && typeofObject obj = false ->
  getValueFromPath h obj path = VUndefined.
Proof.
  intros H. rewrite getValueFromPath_steps.
  pose proof (splitFrom_nonempty "." path 0 "") as Hs.
  fold (split "." path) in Hs.
  destruct (split "." path) as [|key keys]; [contradiction|].
  cbn [fold_left]. unfold pathStep at 2. rewrite H. clear Hs.
  induction keys as [|k keys IH]; [reflexivity | exact IH].
Qed.

(** X2. [getValueFromPath]: a dotted path is walked from left to right;
    the value found for the part before a dot is the root from which the
    part after it is resolved. *)
Theorem getValueFromPath_compose obj a b :
  getValueFromPath h obj (a ++ "." ++ b) =
  getValueFromPath h (getValueFromPath h obj a) b.
Proof.
  unfold getValueFromPath.
  change (a ++ "." ++ b) with (a ++ String "." b).
  now rewrite split_unit, fold_left_app.
Qed.

(** X3. [getValueFromPath]: a key held by a mapping itself resolves to the
    value stored under it, whatever the mapping inherits under the same
    name; the rest of a dotted path is walked from that value. *)
Theorem getValueFromPath_field fields key v rest :
  assoc key fields = Some v ->
  includes "." key = false ->
  getValueFromPath h (VObj fields) key = v /\
  getValueFromPath h (VObj fields) (key ++ "." ++ rest) =
  getValueFromPath h v rest.
Proof.
  intros Hk Hd.
  assert (E : getValueFromPath h (VObj fields) key = v).
  { rewrite getValueFromPath_single by exact Hd.
    unfold pathStep. cbn [truthy typeofObject andb member].
    now rewrite Hk. }
  split; [exact E|]. now rewrite getValueFromPath_dot, E.
Qed.

(** X4. [getValueFromPath]: when a key is not in the value reached, the
    result is [undefined] there and for every longer path through that
    key; the walk goes on without throwing. *)
Theorem getValueFromPath_missing obj key rest :
  member h obj key = None ->
  includes "." key = false ->
  getValueFromPath h obj key = VUndefined /\
  getValueFromPath h obj (key ++ "." ++ rest) = VUndefined.
Proof.
  intros Hm Hd.
  assert (E : getValueFromPath h obj key = VUndefined).
  { rewrite getValueFromPath_single by exact Hd.
    unfold pathStep. rewrite Hm. now destruct (truthy obj && typeofObject obj). }
  split; [exact E|].
  now rewrite getValueFromPath_dot, E, getValueFromPath_undefined.
Qed.

(** X5. [getValueFromPath]: the decimal index of an element of an array
    resolves to that element. *)
Theorem getValueFromPath_index items i x :
  nth_error items i = Some x ->
  getValueFromPath h (VArr items) (numberToString (Z.of_nat i)) = x.
Proof.
  intros Hx.
  assert (Hi : i < List.length items).
  { apply nth_error_Some. congruence. }
  rewrite getValueFromPath_single.
  - unfold pathStep. cbn [truthy typeofObject andb member].
    pose proof (elementAt_nth items 0 i Hi) as E. cbn [Nat.add] in E.
    now rewrite E, Hx.
  - apply (forallb_includes (between 48 57)); [reflexivity|].
    apply numberToString_nat.
Qed.

(** X6. [getValueFromPath]: on an array the key [length] resolves to the
    number of its elements, whatever the elements are. *)
Theorem getValueFromPath_length items :
  getValueFromPath h (VArr items) "length"
  = VNum (Z.of_nat (List.length items)).
Proof.
  rewrite getValueFromPath_single by reflexivity.
  unfold pathStep. cbn [truthy typeofObject andb member].
  now rewrite elementAt_word by reflexivity.
Qed.

End PathFacts.

(* ================================================================== *)
(** ** Conditions: [evaluateExpression] *)
(* ================================================================== *)

Section ConditionFacts.

Variable h : Host.

(** A replacer that gives back what was matched changes nothing. *)
Lemma replaceLoop_matched r f :
  (forall p t res, exec r p [] t = Some res ->
                   f (matchAt t res) = Return (matched (matchAt t res))) ->
  forall s skip p, replaceLoop r f p s skip = Return (drop skip s).
Proof.
  intros Hf. induction s as [|c s IH]; intros skip p.
  - destruct skip; [|reflexivity]. rewrite replaceLoop_search.
    destruct (exec r p [] "") as [res|] eqn:E; [|reflexivity].
    rewrite (Hf _ _ _ E). reflexivity.
  - destruct skip as [|k]; [|apply IH]. rewrite replaceLoop_search.
    destruct (exec r p [] (String c s)) as [res|] eqn:E.
    + rewrite (Hf _ _ _ E). cbn [bind]. unfold matchAt. cbn [matched].
      destruct (String.length (String c s) - String.length (snd res)) as [|k];
        rewrite IH; cbn [bind take drop append]; [reflexivity|].
      now rewrite take_drop.
    + rewrite IH. reflexivity.
Qed.

Lemma sanitize_inert expr context :
  (forall path, getValueFromPath h context path = VUndefined) ->
  sanitize h expr context = Return expr.
Proof.
  intros Hu. unfold sanitize, replace.
  rewrite replaceLoop_matched; [reflexivity|].
  intros p t res _. cbv beta zeta. now rewrite Hu.
Qed.

Lemma identifier_match v p :
  JsString.forallb isWordOrDot v = true ->
  isWordAt p = false ->
  isWordAt (head v) = true ->
  isWordAt (lastOr None v) = true ->
  exec identifierPattern p [] v = Some ([], "").
Proof.
  intros Hv Hp Hh Hl. unfold identifierPattern.
  cbn [exec]. rewrite Hp, Hh. cbn [xorb rep].
  rewrite <- (append_nil_r v) at 1.
  apply greedyRep_full; [exact Hv | | reflexivity |].
  - destruct v; [discriminate | simpl; lia].
  - cbn [exec head isWordAt].
    assert (E : lastOr p v = lastOr None v).
    { destruct v; [discriminate | reflexivity]. }
    rewrite E, Hl. reflexivity.
Qed.

(** X7. [evaluateExpression]: a condition that is one path (word
    characters and dots, starting and ending with a word character) is
    replaced as a whole: it is left as written when the path does not
    resolve, replaced by the JSON text of a string value, and by the
    outcome of the conversion to a string of any other value, which is a
    text or an exception. *)
Theorem sanitize_path context v :
  JsString.forallb isWordOrDot v = true ->
  isWordAt (head v) = true ->
  isWordAt (lastOr None v) = true ->
  sanitize h v context =
  match getValueFromPath h context v with
  | VUndefined => Return v
  | VStr s => Return (jsonStringify s)
  | x => toString h x
  end.
Proof.
  intros Hv Hh Hl. unfold sanitize, replace.
  destruct v as [|c v]; [discriminate|].
  pose proof (identifier_match (String c v) None Hv eq_refl Hh Hl) as E.
  rewrite <- (append_nil_r (String c v)) in E.
  match goal with
  | |- replaceLoop _ ?f _ _ _ = _ =>
      pose proof (replaceLoop_match identifierPattern f c v "" None [] E) as R
  end.
  rewrite append_nil_r in R. rewrite R. clear R.
  assert (R : forall f p, replaceLoop identifierPattern f p "" 0 = Return "").
  { intros f p. cbn [replaceLoop identifierPattern exec head isWordAt].
    destruct (xorb (isWordAt p) false); reflexivity. }
  rewrite R. cbv beta zeta. cbn [matched].
  destruct (getValueFromPath h context (String c v)) as [| | | | | | | |x];
    try (cbn [bind]; now rewrite append_nil_r);
    match goal with
    | |- context [toString h ?x] =>
        destruct (toString h x); cbn [bind]; now rewrite ?append_nil_r
    end.
Qed.

(** X8. [evaluateExpression]: with a context in which no path resolves
    (such as [null] or a number), the condition reaches the evaluator
    exactly as it is written in the template. *)
Theorem evaluateExpression_unresolved expr context :
  (forall path, getValueFromPath h context path = VUndefined) ->
  sanitize h expr context = Return expr /\
  evaluateExpression h expr context =
  match runFunction h (functionBody expr) with
  | Return v => Return v
  | Throw _ => Return (VBool false)
  | Diverge => Diverge
  end.
Proof.
  intros Hu.
  assert (E : sanitize h expr context = Return expr).
  { unfold sanitize, replace.
    rewrite replaceLoop_matched; [reflexivity|].
    intros p t res _. cbv beta zeta. now rewrite Hu. }
  split; [exact E|]. unfold evaluateExpression. now rewrite E.
Qed.

End ConditionFacts.

(* ================================================================== *)
(** ** What can make a conditional pass fail *)
(* ================================================================== *)

Section TotalityFacts.

Variable h : Host.

Lemma includes_inside l a body b :
  includes l (a ++ body ++ b) = false -> includes l body = false.
Proof.
  intros H. apply includes_suffix in H. now apply includes_prefix in H.
Qed.

(** X9. [processConditionals]: the recursive call never changes the body
    it is given, so the function computes what the pass written inline in
    [renderTemplate] computes, on every text and context. *)
Theorem processConditionals_is_global content context :
  processConditionals h content context =
  globalConditionals h context content.
Proof.
  unfold processConditionals.
  destruct (String.length content) as [|n] eqn:E.
  - destruct content; [reflexivity | discriminate].
  - apply processConditionals_rec_global.
Qed.

(** X10. [processConditionals]: the pass itself throws nothing.  When
    the conversion to a string of the values found in the context does
    not throw, the pass does not throw; when moreover that conversion and
    the evaluator return, the pass returns a text: the second piece of
    the split is only read when the body holds the [else] marker. *)
Theorem processConditionals_total content context :
  ((forall path, quiet (toString h (getValueFromPath h context path))) ->
   quiet (processConditionals h content context)) /\
  ((forall path, returns (toString h (getValueFromPath h context path))) ->
   (forall body, runFunction h body <> Diverge) ->
   returns (processConditionals h content context)).
Proof.
  rewrite processConditionals_global. unfold globalConditionals, replace.
  split.
  - intros Hc. apply replaceLoop_quiet. intros m _. cbv beta zeta.
    apply bind_quiet;
      [now apply evaluateExpression_quiet, sanitize_quiet|].
    intros v _. destruct (truthy v).
    + rewrite trimAt_first. apply return_quiet.
    + destruct (includes "{{else}}" (group 2 m)) eqn:E;
        [|apply return_quiet].
      rewrite trimAt_second by (reflexivity || exact E). apply return_quiet.
  - intros Hc Hrun. apply replaceLoop_returns. intros m _. cbv beta zeta.
    apply bind_returns;
      [now apply evaluateExpression_returns, sanitize_returns|].
    intros v _. destruct (truthy v).
    + rewrite trimAt_first. apply return_returns.
    + destruct (includes "{{else}}" (group 2 m)) eqn:E;
        [|apply return_returns].
      rewrite trimAt_second by (reflexivity || exact E). apply return_returns.
Qed.

(** X11. [processSubConditionals]: on a text without the marker that
    closes an [if] block, the body the pass splits is the body it tested
    for the [subelse] marker.  When the conversion to a string of the
    values found in the context does not throw, the pass does not throw;
    when moreover that conversion and the evaluator return, the pass
    returns a text. *)
Theorem processSubConditionals_total content context :
  includes "{{/if}}" content = false ->
  ((forall path, quiet (toString h (getValueFromPath h context path))) ->
   quiet (processSubConditionals h content context)) /\
  ((forall path, returns (toString h (getValueFromPath h context path))) ->
   (forall body, runFunction h body <> Diverge) ->
   returns (processSubConditionals h content context)).
Proof.
  intros Hc.
  assert (Hm : forall m,
             In m (matchesFrom subifPattern None content 0) ->
             exists e body,
               group 1 m = e /\ group 2 m = body /\
               includes "{{/if}}" body = false).
  { intros m Hin.
    apply matchesFrom_inv in Hin as (n & q & [caps rest] & E & ->).
    pose proof (includes_drop _ _ n Hc) as Hd.
    apply (conditional_inv "{{#subif " "{{/subif}}") in E
      as (e & body & -> & Ht & _); [|reflexivity].
    rewrite Ht in Hd.
    replace ("{{#subif " ++ e ++ "}}" ++ body ++ "{{/subif}}" ++ rest)
      with (("{{#subif " ++ e ++ "}}") ++ body ++ "{{/subif}}" ++ rest) in Hd
      by now rewrite !append_assoc.
    apply includes_inside in Hd.
    exists e, body. unfold matchAt, group. cbn [fst snd groups nth Nat.sub].
    now repeat split. }
  unfold processSubConditionals, replace. split.
  - intros Hq. apply replaceLoop_quiet. intros m Hin. cbv beta zeta.
    destruct (Hm m Hin) as (e & body & -> & -> & Hd).
    apply bind_quiet;
      [now apply evaluateExpression_quiet, sanitize_quiet|].
    intros v _. unfold processConditionals.
    rewrite processConditionals_rec_noop by exact Hd. cbn [bind].
    destruct (truthy v).
    + rewrite trimAt_first. apply return_quiet.
    + destruct (includes "{{subelse}}" body) eqn:Eb; [|apply return_quiet].
      rewrite trimAt_second by (reflexivity || exact Eb). apply return_quiet.
  - intros Hr Hrun. apply replaceLoop_returns. intros m Hin. cbv beta zeta.
    destruct (Hm m Hin) as (e & body & -> & -> & Hd).
    apply bind_returns;
      [now apply evaluateExpression_returns, sanitize_returns|].
    intros v _. unfold processConditionals.
    rewrite processConditionals_rec_noop by exact Hd. cbn [bind].
    destruct (truthy v).
    + rewrite trimAt_first. apply return_returns.
    + destruct (includes "{{subelse}}" body) eqn:Eb; [|apply return_returns].
      rewrite trimAt_second by (reflexivity || exact Eb). apply return_returns.
Qed.

(** X12. The tag-escape pass [replace(/nedara-(\w+)/g, "$1")] returns a
    text for every input, and the text it returns is never longer than
    the input. *)
Theorem unescapeTags_never_longer text :
  exists out,
    unescapeTags text = Return out /\
    String.length out <= String.length text.
Proof.
  destruct (unescapeTags_total text) as [out E]. exists out.
  split; [exact E|].
  pose proof (unescape_length text None 0 out E) as H. lia.
Qed.

(** X13. [renderTemplate]: a template whose stored source is white space
    only is empty once trimmed, and renders as the empty string without
    any pass being run. *)
Theorem renderTemplate_blank doc id template data :
  getElementById doc id = Some template ->
  JsString.forallb isWhitespace (innerHTML template) = true ->
  renderTemplate h (Some doc) id data = Return "".
Proof.
  intros Ht Hw. unfold renderTemplate, _getTemplate. rewrite Ht.
  assert (E : trim (innerHTML template) = "").
  { unfold trim. rewrite <- (append_nil_r (innerHTML template)).
    now rewrite trimStart_lead. }
  now rewrite E.
Qed.

End TotalityFacts.

(* ================================================================== *)
(** ** Templates without blocks *)
(* ================================================================== *)

Section FlatTemplates.

Variable h : Host.

(** A match of [loopPattern] holds the opening of a closing marker. *)
Lemma loop_inv p t caps rest :
  exec loopPattern p [] t = Some (caps, rest) -> includes "{{/" t = true.
Proof.
  intros H. unfold loopPattern in H.
  apply exec_lit_inv in H as (t1 & -> & H).
  rewrite exec_group in H. unfold rep in H.
  apply greedyRep_inv in H as (key & t2 & -> & _ & _ & H).
  cbv beta in H.
  apply exec_lit_inv in H as (t3 & -> & H).
  rewrite exec_group in H. unfold rep in H.
  apply lazyRep_inv in H as (body & t4 & -> & _ & _ & H & _).
  cbv beta in H.
  apply exec_lit_inv in H as (t5 & -> & _).
  replace ("{{#" ++ key ++ "}}" ++ body ++ "{{/" ++ t5)
    with (("{{#" ++ key ++ "}}" ++ body) ++ "{{/" ++ t5)
    by now rewrite !append_assoc.
  apply includes_app.
Qed.

Lemma noMatch_loop s : includes "{{/" s = false -> noMatch loopPattern s.
Proof.
  intros Hs n p.
  destruct (exec loopPattern p [] (drop n s)) as [[caps rest]|] eqn:E;
    [|reflexivity].
  apply loop_inv in E. now rewrite (includes_drop _ _ n Hs) in E.
Qed.

Lemma processNestedLoops_unclosed context s :
  includes "{{/" s = false -> processNestedLoops h s context = Return s.
Proof.
  intros Hs. rewrite processNestedLoops_equation. unfold replace.
  now apply replaceLoop_noMatch, noMatch_loop.
Qed.

Lemma renderContent_flat s data :
  includes "{{/" s = false ->
  renderContent h s data =
  rendered <- substituteVariables h data s ;; unescapeTags rendered.
Proof.
  intros Hs. unfold renderContent.
  assert (Hif : noMatch ifPattern s).
  { apply (noMatch_conditional "{{#if " "{{/if}}"); [reflexivity|].
    now apply (includes_shorter "{{/" "if}}"). }
  assert (Hsub : noMatch subifPattern s).
  { apply (noMatch_conditional "{{#subif " "{{/subif}}"); [reflexivity|].
    now apply (includes_shorter "{{/" "subif}}"). }
  rewrite processNestedLoops_unclosed, bind_return by exact Hs.
  rewrite processConditionals_global.
  unfold globalConditionals, processSubConditionals, replace.
  rewrite (replaceLoop_noMatch _ _ _ Hif), bind_return.
  rewrite (replaceLoop_noMatch _ _ _ Hsub), bind_return.
  rewrite (replaceLoop_noMatch _ _ _ Hif), bind_return.
  apply bind_ext; intros rendered. now destruct (unescapeTags rendered).
Qed.

(** X14. [renderTemplate]: a template that holds no closing marker
    [{{/] has no block: the loop pass and the conditional passes leave it
    as it is, no condition is evaluated, and the result is that of the
    variable pass followed by the tag-escape pass. *)
Theorem renderTemplate_unclosed templateDoc id data source :
  _getTemplate templateDoc id = Some source ->
  isEmpty source = false ->
  includes "{{/" source = false ->
  processNestedLoops h source (orEmptyObject data) = Return source /\
  processConditionals h source (orEmptyObject data) = Return source /\
  processSubConditionals h source (orEmptyObject data) = Return source /\
  renderTemplate h templateDoc id data =
  rendered <- substituteVariables h (orEmptyObject data) source ;;
  unescapeTags rendered.
Proof.
  intros Ht Hne Hs.
  split; [now apply processNestedLoops_unclosed|].
  split; [apply processConditionals_rec_noop;
          now apply (includes_shorter "{{/" "if}}")|].
  split.
  - unfold processSubConditionals, replace. apply replaceLoop_noMatch.
    apply (noMatch_conditional "{{#subif " "{{/subif}}"); [reflexivity|].
    now apply (includes_shorter "{{/" "subif}}").
  - unfold renderTemplate. rewrite Ht, Hne.
    now apply renderContent_flat.
Qed.

(** X15. The variable pass replaces every marker of a text made of
    markers and of pieces in which no brace pair opens, from left to
    right: each one by the string form of the value its path resolves
    to, or by itself when the path does not resolve, the pieces between
    them being copied; the first conversion that throws ends the pass
    with its exception.  When every marker has such a text, the output is
    the pieces and these texts in the order of the input. *)
Theorem substituteVariables_every_marker context segments tail :
  Forall variableSegment segments ->
  includes "{{" tail = false ->
  substituteVariables h context (markup segments tail) =
  substituted h context segments tail /\
  (forall texts,
     Forall2 (fun segment text =>
                resolvedText h context (snd segment) = Return text)
             segments texts ->
     substituteVariables h context (markup segments tail) =
     Return (String.concat ""
               (map (fun piece => fst (fst piece) ++ snd piece)
                    (combine segments texts))
             ++ tail)).
Proof.
  intros Hs Ht.
  rewrite substituteVariables_markup by assumption.
  split; [reflexivity|]. clear Hs.
  intros texts H. induction H as [|[pre path] text rest texts E _ IH];
    [reflexivity|].
  cbn [substituted combine map fst snd] in *.
  rewrite E, IH, !bind_return, concat_cons.
  now rewrite !append_assoc.
Qed.

(** X16. [renderTemplate]: for a template made of one marker between two
    texts without braces, the result is the text with the marker replaced
    by the string form of the value found in [data] (or kept, when there
    is none) and then passed through the tag-escape pass, which applies to
    the substituted value as well; when the conversion of the value to a
    string throws, so does [renderTemplate]. *)
Theorem renderTemplate_variable templateDoc id data a v b :
  _getTemplate templateDoc id = Some (oneVariable a v b) ->
  plainText a = true ->
  JsString.forallb isWordOrDot v = true ->
  isEmpty v = false ->
  plainText b = true ->
  renderTemplate h templateDoc id data =
  text <- resolvedText h (orEmptyObject data) v ;;
  unescapeTags (a ++ text ++ b).
Proof.
  intros Ht Ha Hv Hne Hb. unfold renderTemplate. rewrite Ht.
  assert (Hfull : isEmpty (oneVariable a v b) = false).
  { unfold oneVariable. destruct a; reflexivity. }
  rewrite Hfull. fold (orEmptyObject data).
  rewrite renderContent_flat.
  - rewrite <- (append_nil_r (oneVariable a v b)).
    rewrite substituteVariables_oneVariable by assumption.
    rewrite substituteVariables_absent by reflexivity.
    rewrite bind_assoc. apply bind_ext; intros text.
    now rewrite !bind_return, append_nil_r.
  - apply includes_whole; [|reflexivity].
    now apply clearOf_oneVariable.
Qed.

End FlatTemplates.

(* ================================================================== *)
(** ** Loops over elements *)
(* ================================================================== *)

Section ElementFacts.

Variable h : Host.

Lemma clearBefore_cons r c pre s :
  (forall p, exec r p [] (String c pre ++ s) = None) ->
  clearBefore r pre s -> clearBefore r (String c pre) s.
Proof.
  intros H0 H n Hn p. destruct n as [|n]; [apply H0|].
  apply H. simpl in Hn. lia.
Qed.

Lemma clearBefore_app r x y s :
  clearBefore r x (y ++ s) -> clearBefore r y s -> clearBefore r (x ++ y) s.
Proof.
  induction x as [|c x IH]; intros Hx Hy; [exact Hy|].
  cbn [append]. apply clearBefore_cons.
  - intros p. pose proof (Hx 0 ltac:(simpl; lia) p) as E.
    cbn [drop append] in E |- *. now rewrite append_assoc.
  - apply IH; [|exact Hy]. now apply clearBefore_tail in Hx.
Qed.

(** The marker that opens or closes a block is not a variable marker. *)
Lemma variable_clear_block x key rest :
  isWordOrDot x = false ->
  notBrace x = true ->
  JsString.forallb isWordOrDot key = true ->
  clearBefore variablePattern (String "{" (String "{" (String x (key ++ "}}"))))
              rest.
Proof.
  intros Hx Hn Hk. apply clearBefore_cons; [|apply clearBefore_cons].
  - intros p.
    change (String "{" (String "{" (String x (key ++ "}}"))) ++ rest)
      with ("{{" ++ String x ((key ++ "}}") ++ rest)).
    unfold variablePattern. rewrite exec_lit_app, exec_group. unfold rep.
    apply greedyRep_stop. cbn [stopsAt]. now rewrite Hx.
  - intros p. apply exec_lit_none. cbn [append].
    apply negb_true_iff in Hn. rewrite Ascii.eqb_sym in Hn.
    cbn [startsWith]. now rewrite Hn, andb_false_r.
  - apply clearBefore_clearOf, clearOf_plain.
    unfold plainText in *. cbn [JsString.forallb].
    rewrite Hn, forallb_append. fold (plainText key).
    now rewrite (wordOrDot_plain _ Hk).
Qed.

Lemma substituteVariables_marker context x key :
  isWordOrDot x = false ->
  notBrace x = true ->
  JsString.forallb isWordOrDot key = true ->
  substituteVariables h context
    (String "{" (String "{" (String x (key ++ "}}"))))
  = Return (String "{" (String "{" (String x (key ++ "}}")))).
Proof.
  intros Hx Hn Hk. unfold substituteVariables, replace.
  rewrite <- (append_nil_r (String "{" _)) at 1.
  rewrite replaceLoop_prefix by now apply variable_clear_block.
  cbn [replaceLoop variablePattern exec dropPrefix bind].
  now rewrite append_nil_r.
Qed.

Lemma wordOrDot_space c : isWordOrDot c = true -> Ascii.eqb " "%char c = false.
Proof.
  destruct c as [[] [] [] [] [] [] [] []]; vm_compute; intros H;
    try discriminate; reflexivity.
Qed.

Lemma wordOrDot_closing c : isWordOrDot c = true -> Ascii.eqb c "}"%char = false.
Proof.
  destruct c as [[] [] [] [] [] [] [] []]; vm_compute; intros H;
    try discriminate; reflexivity.
Qed.

(** A word followed by a space does not start a key followed by the end
    of its marker. *)
Lemma startsWith_stop w l : forall key rest,
  JsString.forallb isWordOrDot w = true ->
  JsString.forallb isWordOrDot key = true ->
  startsWith (w ++ String " " l) (key ++ String "}" rest) = false.
Proof.
  induction w as [|x w IH]; intros key rest Hw Hk.
  - destruct key as [|c key]; [reflexivity|].
    cbn [JsString.forallb] in Hk. apply andb_true_iff in Hk as [Hc _].
    cbn [append startsWith]. now rewrite (wordOrDot_space _ Hc).
  - cbn [JsString.forallb] in Hw. apply andb_true_iff in Hw as [Hx Hw].
    destruct key as [|c key].
    + cbn [append startsWith]. now rewrite (wordOrDot_closing _ Hx).
    + cbn [JsString.forallb] in Hk. apply andb_true_iff in Hk as [_ Hk].
      cbn [append startsWith]. now rewrite IH, andb_false_r.
Qed.

Lemma block_plain x key :
  notBrace x = true ->
  JsString.forallb isWordOrDot key = true ->
  plainText (String x (key ++ "}}")) = true.
Proof.
  intros Hn Hk. unfold plainText in *. cbn [JsString.forallb].
  rewrite Hn, forallb_append. fold (plainText key).
  now rewrite (wordOrDot_plain _ Hk).
Qed.

Lemma clearOf_opening w l key rest :
  JsString.forallb isWordOrDot w = true ->
  JsString.forallb isWordOrDot key = true ->
  clearOf (String "{" (String "{" (String "#" (w ++ String " " l))))
          (String "{" (String "{" (String "#" (key ++ "}}")))) rest = true.
Proof.
  intros Hw Hk. do 2 rewrite clearOf_cons.
  rewrite (clearOf_plain _ _ _ (block_plain "#" key eq_refl Hk)).
  cbn [startsWith append]. rewrite !Ascii.eqb_refl. cbn [andb].
  rewrite append_assoc. cbn [append].
  rewrite (startsWith_stop w l key (String "}" rest) Hw Hk).
  reflexivity.
Qed.

Lemma clearOf_closing l key rest :
  JsString.forallb isWordOrDot key = true ->
  clearOf (String "{" (String "{" (String "#" l))) (closingMarker key) rest
  = true.
Proof.
  intros Hk. unfold closingMarker.
  change ("{{/" ++ key ++ "}}")
    with (String "{" (String "{" (String "/" (key ++ "}}")))).
  do 2 rewrite clearOf_cons.
  rewrite (clearOf_plain _ _ _ (block_plain "/" key eq_refl Hk)).
  reflexivity.
Qed.

Section OneMarker.

Variables a v b : string.
Hypothesis Ha : plainText a = true.
Hypothesis Hv : JsString.forallb isWordOrDot v = true.
Hypothesis Hne : isEmpty v = false.
Hypothesis Hb : plainText b = true.

(** X17. [processNestedLoops]: a loop whose body is one marker between
    two texts without braces renders, for each element in order, the body
    with the marker replaced by the string form of what the path resolves
    to on that element, or kept when the element does not resolve it;
    the pieces are concatenated without separator. *)
Theorem loop_renders_each_element data key items texts :
  JsString.forallb isWordOrDot key = true ->
  isEmpty key = false ->
  getValueFromPath h data key = VArr items ->
  Forall2 (fun item text =>
             resolvedText h item v = Return text /\
             (text = "{{" ++ v ++ "}}" \/ plainText text = true))
          items texts ->
  processNestedLoops h
    ("{{#" ++ key ++ "}}" ++ oneVariable a v b ++ closingMarker key) data
  = Return (String.concat "" (map (fun text => a ++ text ++ b) texts)).
Proof.
  intros Hk Hkne Harr Hitems.
  rewrite <- (append_nil_r (closingMarker key)).
  etransitivity;
    [apply (processNestedLoops_block h data "" key (oneVariable a v b) "");
     auto using clearBefore_nil|].
  - apply indexOf_clearOf; [|apply startsWith_refl].
    now apply clearOf_oneVariable.
  - rewrite Harr. cbn [arrayItems].
    rewrite (mapM_Forall2 (expandItem h (oneVariable a v b)) items
               (map (fun text => a ++ text ++ b) texts)).
    + rewrite !bind_return, join_concat.
      rewrite processNestedLoops_absent by reflexivity.
      now rewrite bind_return, append_nil_r.
    + clear Harr.
      induction Hitems as [|item text items texts [E Ht] _ IH];
        cbn [map]; constructor; [now apply expandItem_text | exact IH].
Qed.

(** X18. Inside a loop, the markers of the body are replaced from the
    current element before the loops nested in the body are expanded: a
    marker of an inner loop that the outer element resolves is filled with
    the outer element's value in every round of the inner loop, whatever
    the inner elements hold. *)
Theorem nested_loop_outer_value item key inner value :
  JsString.forallb isWordOrDot key = true ->
  isEmpty key = false ->
  resolvedText h item v = Return value ->
  plainText value = true ->
  getValueFromPath h item key = VArr inner ->
  expandItem h ("{{#" ++ key ++ "}}" ++ oneVariable a v b ++ closingMarker key)
             item
  = Return (String.concat "" (map (fun _ => a ++ value ++ b) inner)).
Proof.
  intros Hk Hkne Hr Hp Harr. unfold expandItem.
  set (text := a ++ value ++ b).
  assert (Htext : plainText text = true).
  { unfold text. now rewrite !plainText_append, Ha, Hp, Hb. }
  assert (Hclear : forall w l,
             JsString.forallb isWordOrDot w = true ->
             includes (String "{" (String "{" (String "#" (w ++ String " " l))))
                      ("{{#" ++ key ++ "}}" ++ oneVariable a v b
                       ++ closingMarker key) = false).
  { intros w l Hw. apply includes_whole; [|reflexivity].
    change ("{{#" ++ key ++ "}}" ++ oneVariable a v b ++ closingMarker key)
      with (String "{" (String "{" (String "#"
              (key ++ "}}" ++ oneVariable a v b ++ closingMarker key)))).
    replace (key ++ "}}" ++ oneVariable a v b ++ closingMarker key)
      with ((key ++ "}}") ++ oneVariable a v b ++ closingMarker key)
      by now rewrite append_assoc.
    change (String "{" (String "{" (String "#"
              ((key ++ "}}") ++ oneVariable a v b ++ closingMarker key))))
      with (String "{" (String "{" (String "#" (key ++ "}}")))
            ++ oneVariable a v b ++ closingMarker key).
    rewrite (clearOf_append _ (String "{" _)),
            (clearOf_append _ (oneVariable a v b)).
    rewrite clearOf_opening, clearOf_oneVariable, clearOf_closing;
      auto. }
  rewrite processConditionals_global, globalConditionals_absent
    by apply (Hclear "if" "" eq_refl).
  rewrite bind_return, processSubConditionals_absent
    by apply (Hclear "subif" "" eq_refl).
  rewrite bind_return.
  assert (Hsub : substituteVariables h item
                   ("{{#" ++ key ++ "}}" ++ oneVariable a v b
                    ++ closingMarker key)
                 = Return ("{{#" ++ key ++ "}}" ++ text ++ closingMarker key)).
  { change ("{{#" ++ key ++ "}}" ++ oneVariable a v b ++ closingMarker key)
      with (String "{" (String "{" (String "#"
              (key ++ "}}" ++ oneVariable a v b ++ closingMarker key)))).
    replace (key ++ "}}" ++ oneVariable a v b ++ closingMarker key)
      with ((key ++ "}}") ++ oneVariable a v b ++ closingMarker key)
      by now rewrite append_assoc.
    change (String "{" (String "{" (String "#"
              ((key ++ "}}") ++ oneVariable a v b ++ closingMarker key))))
      with (String "{" (String "{" (String "#" (key ++ "}}")))
            ++ oneVariable a v b ++ closingMarker key).
    unfold substituteVariables, replace at 1.
    rewrite replaceLoop_prefix
      by (apply variable_clear_block; auto).
    rewrite replaceLoop_replace by reflexivity.
    fold (substituteVariables h item (oneVariable a v b ++ closingMarker key)).
    rewrite substituteVariables_oneVariable by assumption.
    unfold closingMarker at 1.
    change ("{{/" ++ key ++ "}}")
      with (String "{" (String "{" (String "/" (key ++ "}}")))).
    rewrite substituteVariables_marker by auto.
    rewrite Hr, !bind_return. fold text. cbn [append].
    now rewrite !append_assoc. }
  rewrite Hsub, bind_return.
  rewrite <- (append_nil_r (closingMarker key)).
  etransitivity;
    [apply (processNestedLoops_block h item "" key text "");
     auto using clearBefore_nil|].
  - apply indexOf_clearOf; [|apply startsWith_refl].
    now apply clearOf_plain.
  - rewrite Harr. cbn [arrayItems].
    rewrite (mapM_return _ (fun _ => text)).
    + rewrite !bind_return, join_concat.
      rewrite processNestedLoops_absent by reflexivity.
      now rewrite bind_return, append_nil_r.
    + intros x _. now apply expandItem_plain.
Qed.

End OneMarker.

End ElementFacts.

(* ================================================================== *)
(** ** Widgets: binding and unbinding events *)
(* ================================================================== *)

Section WidgetFacts.

Lemma split_word sep key :
  includes (String sep "") key = false ->
  forall rest,
    rest = "" \/ startsWith (String sep "") rest = true ->
    exists more, split (String sep "") (key ++ rest) = key :: more.
Proof.
  intros Hk rest [->|Hr].
  - exists []. rewrite append_nil_r. now apply split_absent.
  - apply startsWith_inv in Hr as [r ->]. cbn [append].
    exists (split (String sep "") r).
    now rewrite split_unit, split_absent.
Qed.

(** X19. [_bindEvents] and [destroy]: the key of an event is cut at its
    spaces and only the first two pieces are used, so the handler is
    attached for the selector of the widget followed by the first word of
    the selector written in the key; what follows a second space is
    dropped. *)
Theorem eventTarget_first_selector widgetSelector eventName word rest :
  includes " " eventName = false ->
  includes " " word = false ->
  isEmpty word = false ->
  rest = "" \/ startsWith " " rest = true ->
  Widget.eventTarget widgetSelector (eventName ++ " " ++ word ++ rest)
  = (eventName, widgetSelector ++ " " ++ word).
Proof.
  intros He Hw Hne Hr. unfold Widget.eventTarget.
  change (eventName ++ " " ++ word ++ rest)
    with (eventName ++ String " " (word ++ rest)).
  rewrite split_unit, split_absent by exact He.
  destruct (split_word " "%char word Hw rest Hr) as [more ->].
  cbn [app nth nth_error]. now rewrite Hne.
Qed.

(** X20. [destroy] unbinds what [_bindEvents] bound: it first calls the
    [end] hook, and for every call of [on] made by [_bindEvents] it makes
    a call of [off] with the same event name and the same selector. *)
Theorem destroy_unbinds_bound w eventName target handler :
  In (Widget.On eventName target handler) (Widget._bindEvents w) ->
  List.hd_error (Widget.destroy w) = Some (Widget.Hook "end") /\
  In (Widget.Off eventName target) (Widget.destroy w).
Proof.
  intros H. split; [reflexivity|].
  unfold Widget._bindEvents in H. apply in_flat_map in H as (entry & Hin & H).
  unfold Widget.destroy. right. apply in_map_iff. exists entry.
  split; [|exact Hin].
  destruct (Widget.eventTarget (Widget.selector w) (fst entry)) as [e t].
  destruct (Widget.defined w (snd entry)); [|contradiction].
  destruct H as [H|[]]. now injection H as -> -> _.
Qed.

End WidgetFacts.

(* ================================================================== *)
(** ** Edge cases of lookups, loops and [else] *)
(* ================================================================== *)

Section EdgeFacts.

Variable h : Host.

Lemma word_path key :
  JsString.forallb isWord key = true ->
  JsString.forallb isWordOrDot key = true /\ includes "." key = false.
Proof.
  intros Hk. split.
  - apply (forallb_weaken isWord); [|exact Hk].
    intros c Hc. unfold isWordOrDot. now rewrite Hc.
  - now apply (forallb_includes isWord).
Qed.

(** X21. A key that a mapping does not hold itself but inherits (such as
    [toString] or [constructor]) is in the mapping for the [in] test of
    [getValueFromPath]: the path resolves to the inherited function, and
    the variable pass replaces the marker by the source text of that
    function. *)
Theorem inherited_member_resolves fields key text :
  JsString.forallb isWord key = true ->
  isEmpty key = false ->
  assoc key fields = None ->
  assoc key (objectMembers h) = Some text ->
  getValueFromPath h (VObj fields) key = VFun text /\
  substituteVariables h (VObj fields) ("{{" ++ key ++ "}}") = Return text.
Proof.
  intros Hk Hne Hown Hin. destruct (word_path key Hk) as [Hw Hd].
  assert (E : getValueFromPath h (VObj fields) key = VFun text).
  { rewrite getValueFromPath_single by exact Hd.
    unfold pathStep. cbn [truthy typeofObject andb member].
    unfold inherited. now rewrite Hown, Hin. }
  split; [exact E|].
  pose proof (substituteVariables_block h (VObj fields) "" key ""
                (clearBefore_nil _ _) Hw Hne) as R.
  cbn [append] in R |- *. rewrite R.
  rewrite substituteVariables_absent by reflexivity.
  unfold resolvedText. rewrite E. cbn [bind toString].
  now rewrite append_nil_r.
Qed.

(** X22. A loop over elements that are not objects (strings, numbers,
    booleans, [null]) cannot name its element: whatever the marker in the
    body, no element resolves it, and the loop pass renders the body as
    it is written once per element. *)
Theorem loop_over_scalars data key items a v b :
  JsString.forallb isWordOrDot key = true ->
  isEmpty key = false ->
  plainText a = true ->
  JsString.forallb isWordOrDot v = true ->
  isEmpty v = false ->
  plainText b = true ->
  arrayItems (getValueFromPath h data key) = Some items ->
  (forall item, In item items -> truthy item && typeofObject item = false) ->
  processNestedLoops h
    ("{{#" ++ key ++ "}}" ++ oneVariable a v b ++ closingMarker key) data
  = Return (join "" (map (fun _ => oneVariable a v b) items)).
Proof.
  intros Hk Hkne Ha Hv Hvne Hb Harr Hitems.
  rewrite <- (append_nil_r (closingMarker key)).
  etransitivity;
    [apply (processNestedLoops_block h data "" key (oneVariable a v b) "");
     auto using clearBefore_nil|].
  - apply indexOf_clearOf; [|apply startsWith_refl].
    now apply clearOf_oneVariable.
  - rewrite Harr.
    rewrite (mapM_return _ (fun _ => oneVariable a v b)).
    + rewrite !bind_return.
      rewrite processNestedLoops_absent by reflexivity.
      now rewrite bind_return, append_nil_r.
    + intros item Hin. apply expandItem_oneVariable; auto.
      now apply getValueFromPath_nonobject, Hitems.
Qed.

(** X23. When the condition of an [if] block is falsy and the body holds
    the [else] marker twice, the block is replaced by the trimmed text
    between the two markers: what follows the second marker is dropped. *)
Theorem else_second_piece context pre e x y z post v :
  clearBefore ifPattern pre
    ("{{#if " ++ e ++ "}}" ++ (x ++ "{{else}}" ++ y ++ "{{else}}" ++ z)
     ++ "{{/if}}" ++ post) ->
  plainExpression e = true ->
  indexOf "{{/if}}" ((x ++ "{{else}}" ++ y ++ "{{else}}" ++ z) ++ "{{/if}}")
  = Some (String.length (x ++ "{{else}}" ++ y ++ "{{else}}" ++ z)) ->
  indexOf "{{else}}" (x ++ "{{else}}") = Some (String.length x) ->
  indexOf "{{else}}" (y ++ "{{else}}") = Some (String.length y) ->
  evaluateExpression h (trim e) context = Return v ->
  truthy v = false ->
  processConditionals h
    (pre ++ "{{#if " ++ e ++ "}}" ++ (x ++ "{{else}}" ++ y ++ "{{else}}" ++ z)
     ++ "{{/if}}" ++ post) context =
  out <- processConditionals h post context ;;
  Return (pre ++ trim y ++ out).
Proof.
  intros Hpre He Hbody Hx Hy Hv Hf.
  rewrite !processConditionals_global.
  rewrite globalConditionals_block by assumption.
  rewrite Hv, bind_return, Hf, includes_app.
  rewrite split_first, split_first by (reflexivity || assumption).
  reflexivity.
Qed.

End EdgeFacts.

(* ================================================================== *)
(** ** Conditions in loop bodies, and escaped tags *)
(* ================================================================== *)

Section BodyFacts.

Variable h : Host.

Lemma plainText_trim body : plainText body = true -> plainText (trim body) = true.
Proof.
  intros Hb. destruct (trim_middle body) as (lead & trail & E).
  rewrite E, !plainText_append in Hb.
  apply andb_true_iff in Hb as [_ Hb]. now apply andb_true_iff in Hb as [Hb _].
Qed.

Lemma expandItem_if e body item v :
  plainExpression e = true ->
  plainText body = true ->
  evaluateExpression h (trim e) item = Return v ->
  expandItem h ("{{#if " ++ e ++ "}}" ++ body ++ "{{/if}}") item
  = Return (if truthy v then trim body else "").
Proof.
  intros He Hb Hv. unfold expandItem.
  rewrite processConditionals_global.
  pose proof (globalConditionals_block h item "" e body ""
                (clearBefore_nil _ _) He) as R.
  cbn [append] in R |- *. rewrite R; clear R.
  2:{ apply indexOf_clearOf; [|apply startsWith_refl].
      now apply clearOf_plain. }
  rewrite Hv, bind_return.
  rewrite (plain_clear _ body Hb : includes "{{else}}" body = false).
  rewrite split_absent by now apply plain_clear.
  assert (Hr : plainText (if truthy v then trim body else "") = true).
  { destruct (truthy v); [now apply plainText_trim | reflexivity]. }
  assert (E : (new <- (if truthy v then trimAt [body] 0 else Return "") ;;
               out <- globalConditionals h item "" ;;
               Return (new ++ out))
              = Return (if truthy v then trim body else "")).
  { destruct (truthy v); cbn; now rewrite ?append_nil_r. }
  rewrite E, bind_return; clear E.
  rewrite processSubConditionals_absent by now apply plain_clear.
  rewrite bind_return, substituteVariables_absent by now apply plain_clear.
  rewrite bind_return. now apply processNestedLoops_absent, plain_clear.
Qed.

(** X24. A condition in the body of a loop is evaluated on the element:
    for a body that is one [if] block around a text without braces, the
    loop renders the trimmed text for the elements on which the condition
    is truthy and nothing for the others, in the order of the array. *)
Theorem loop_filters_by_condition data key items e body cond :
  JsString.forallb isWordOrDot key = true ->
  isEmpty key = false ->
  plainExpression e = true ->
  plainText body = true ->
  indexOf (closingMarker key)
          (("{{#if " ++ e ++ "}}" ++ body ++ "{{/if}}") ++ closingMarker key)
  = Some (String.length ("{{#if " ++ e ++ "}}" ++ body ++ "{{/if}}")) ->
  arrayItems (getValueFromPath h data key) = Some items ->
  (forall item, In item items ->
                evaluateExpression h (trim e) item = Return (cond item)) ->
  processNestedLoops h
    ("{{#" ++ key ++ "}}" ++ ("{{#if " ++ e ++ "}}" ++ body ++ "{{/if}}")
     ++ closingMarker key) data
  = Return (join "" (map (fun item =>
                            if truthy (cond item) then trim body else "")
                         items)).
Proof.
  intros Hk Hkne He Hb Hclose Harr Hcond.
  rewrite <- (append_nil_r (closingMarker key)).
  etransitivity;
    [apply (processNestedLoops_block h data "" key
              ("{{#if " ++ e ++ "}}" ++ body ++ "{{/if}}") "");
     auto using clearBefore_nil|].
  rewrite Harr.
  rewrite (mapM_return _ (fun item =>
                            if truthy (cond item) then trim body else "")).
  - rewrite !bind_return.
    rewrite processNestedLoops_absent by reflexivity.
    now rewrite bind_return, append_nil_r.
  - intros item Hin. apply expandItem_if; auto.
Qed.

(** X25. The tag-escape pass drops the prefix [nedara-] wherever a word
    follows it, also in the middle of a word or of substituted data: the
    first occurrence is replaced by the word alone, the text before it is
    copied, and the pass goes on after the word. *)
Theorem unescapeTags_block pre w post :
  clearBefore tagPattern pre ("nedara-" ++ w ++ post) ->
  JsString.forallb isWord w = true ->
  isEmpty w = false ->
  stopsAt isWord post = true ->
  unescapeTags (pre ++ "nedara-" ++ w ++ post) =
  out <- unescapeTags post ;; Return (pre ++ w ++ out).
Proof.
  intros Hpre Hw Hne Hs. unfold unescapeTags.
  replace (pre ++ "nedara-" ++ w ++ post)
    with (pre ++ ("nedara-" ++ w) ++ post) by now rewrite !append_assoc.
  rewrite (replace_block tagPattern _ pre ("nedara-" ++ w) post [w]);
    [reflexivity | reflexivity | | reflexivity |].
  - now rewrite append_assoc.
  - intros p. rewrite append_assoc. unfold tagPattern.
    rewrite exec_lit_app, exec_group. unfold rep.
    apply greedyRep_full;
      [exact Hw | now apply nonempty_length | exact Hs | reflexivity].
Qed.

End BodyFacts.

(* ================================================================== *)
(** ** The first block of a conditional pass *)
(* ================================================================== *)

Section BlockFacts.

Variable h : Host.

(** X26. The first block of a conditional pass runs from its opening
    marker to the nearest closing marker after it, for [if] and for
    [subif] blocks alike.  The body is given to [processConditionals]
    (which, for an [if] block, returns it unchanged), and for the value
    of the condition: when it is truthy the trimmed text before the first
    else marker is put; when it is not and the body holds an else marker,
    the trimmed text between the first else marker and the next one (or
    the end); otherwise nothing.  The pass then goes on after the closing
    marker. *)
Theorem conditional_expansion k context pre e body post v inner :
  clearBefore (conditionalPattern (openingMarker k) (closingOf k)) pre
              (openingMarker k ++ e ++ "}}" ++ body ++ closingOf k ++ post) ->
  plainExpression e = true ->
  indexOf (closingOf k) (body ++ closingOf k) = Some (String.length body) ->
  evaluateExpression h (trim e) context = Return v ->
  processConditionals h body context = Return inner ->
  (includes (elseMarker k) body = true ->
   includes (elseMarker k) inner = true) ->
  (k = IfBlock -> inner = body) /\
  conditionalPass h k
    (pre ++ openingMarker k ++ e ++ "}}" ++ body ++ closingOf k ++ post)
    context =
  out <- conditionalPass h k post context ;;
  Return (pre
          ++ (if truthy v then trim (nth 0 (split (elseMarker k) inner) "")
              else if includes (elseMarker k) body
                   then trim (nth 1 (split (elseMarker k) inner) "")
                   else "")
          ++ out).
Proof.
  intros Hpre He Hbody Hv Hinner Helse.
  destruct k; cbn [openingMarker closingOf elseMarker conditionalPass] in *.
  - assert (inner = body) as ->.
    { pose proof (includes_nearest "{{/if}}" body eq_refl Hbody) as Hn.
      unfold processConditionals in Hinner.
      rewrite processConditionals_rec_noop in Hinner by exact Hn.
      now injection Hinner. }
    split; [reflexivity|].
    rewrite !processConditionals_global.
    rewrite globalConditionals_block by assumption.
    rewrite Hv, bind_return, trimAt_first.
    destruct (truthy v); [now rewrite bind_return|].
    destruct (includes "{{else}}" body) eqn:E; [|now rewrite bind_return].
    now rewrite trimAt_second, bind_return.
  - split; [discriminate|].
    rewrite processSubConditionals_block by assumption.
    rewrite Hv, bind_return.
    rewrite <- processConditionals_global, Hinner, bind_return.
    rewrite trimAt_first.
    destruct (truthy v); [now rewrite bind_return|].
    destruct (includes "{{subelse}}" body) eqn:E; [|now rewrite bind_return].
    now rewrite trimAt_second, bind_return by auto.
Qed.

End BlockFacts.

(* ================================================================== *)
(** ** Closed examples of the further properties *)
(* ================================================================== *)

Section FurtherExamples.

Import Examples.

Lemma getValueFromPath_scalar_witness :
  getValueFromPath literalHost (VStr "Ann") "length" = VUndefined.
Proof. apply getValueFromPath_scalar. reflexivity. Defined.

Lemma getValueFromPath_field_witness :
  getValueFromPath literalHost
    (VObj [("toString", VObj [("name", VStr "Ann")])]) "toString"
  = VObj [("name", VStr "Ann")] /\
  getValueFromPath literalHost
    (VObj [("toString", VObj [("name", VStr "Ann")])])
    ("toString" ++ "." ++ "name")
  = getValueFromPath literalHost (VObj [("name", VStr "Ann")]) "name".
Proof. apply getValueFromPath_field; reflexivity. Defined.

Lemma getValueFromPath_missing_witness :
  getValueFromPath literalHost annData "user" = VUndefined /\
  getValueFromPath literalHost annData ("user" ++ "." ++ "name.first")
  = VUndefined.
Proof. apply getValueFromPath_missing; reflexivity. Defined.

Lemma getValueFromPath_index_witness :
  getValueFromPath literalHost (VArr [VStr "a"; VStr "b"; VStr "c"])
                   (numberToString (Z.of_nat 2))
  = VStr "c".
Proof. apply getValueFromPath_index. reflexivity. Defined.

Lemma sanitize_path_witness :
  sanitize literalHost "user.age"
           (VObj [("user", VObj [("age", VNum 42)])]) = Return "42" /\
  sanitize literalHost "user.age"
           (VObj [("user", VObj [("age", VObj [("toString", VNum 1)])])])
  = Throw TypeError.
Proof.
  split.
  - exact (sanitize_path literalHost
             (VObj [("user", VObj [("age", VNum 42)])]) "user.age"
             eq_refl eq_refl eq_refl).
  - exact (sanitize_path literalHost
             (VObj [("user", VObj [("age", VObj [("toString", VNum 1)])])])
             "user.age" eq_refl eq_refl eq_refl).
Defined.

Lemma evaluateExpression_unresolved_witness :
  sanitize literalHost "a.b == 1" VNull = Return "a.b == 1" /\
  evaluateExpression literalHost "a.b == 1" VNull =
  match runFunction literalHost (functionBody "a.b == 1") with
  | Return v => Return v
  | Throw _ => Return (VBool false)
  | Diverge => Diverge
  end.
Proof.
  apply evaluateExpression_unresolved.
  intros path. now apply getValueFromPath_nonobject.
Defined.

(** The evaluator of the examples stops on every text. *)
Lemma literalHost_halts body : runFunction literalHost body <> Diverge.
Proof.
  cbn [runFunction literalHost LiteralHost.host].
  unfold LiteralHost.run, LiteralHost.evalLiteral.
  repeat match goal with
         | |- context [if ?c then _ else _] => destruct c
         | |- context [match ?x with _ => _ end] => destruct x
         end; discriminate.
Qed.

(** Every value that a path reaches from [flagData] has a string form. *)
Lemma flagData_printable path :
  returns (toString literalHost (getValueFromPath literalHost flagData path)).
Proof.
  rewrite getValueFromPath_steps.
  assert (H : forall keys v,
             (v = flagData \/ v = VProto false \/ v = VNull \/
              v = VUndefined \/ v = VBool true \/ exists text, v = VFun text) ->
             returns (toString literalHost
                        (fold_left (pathStep literalHost) keys v))).
  { induction keys as [|key keys IH]; intros v Hv.
    - cbn [fold_left].
      destruct Hv as [->|[->|[->|[->|[->|[text ->]]]]]];
        now eexists.
    - cbn [fold_left]. apply IH.
      destruct Hv as [->|[->|[->|[->|[->|[text ->]]]]]];
        try (right; right; right; now left).
      + unfold pathStep, flagData. cbn [truthy typeofObject andb]. cbv iota.
        unfold member. cbn [assoc].
        destruct (String.eqb "flag" key); [now do 4 right; left|].
        cbn [orElse]. unfold inherited, protoOf.
        destruct (assoc key (objectMembers literalHost)) as [text|];
          cbn [option_map orElse]; [do 5 right; now exists text|].
        destruct (String.eqb key "__proto__"); [right; now left|].
        right; right; right; now left.
      + unfold pathStep. cbn [truthy typeofObject andb]. cbv iota.
        unfold member, inherited, protoOf.
        destruct (assoc key (objectMembers literalHost)) as [text|];
          cbn [option_map orElse]; [do 5 right; now exists text|].
        destruct (String.eqb key "__proto__"); [right; right; now left|].
        right; right; right; now left. }
  apply H. now left.
Qed.

Lemma returns_quiet {A : Type} (c : completion A) : returns c -> quiet c.
Proof. intros [a ->] e. discriminate. Qed.

Lemma processConditionals_total_witness :
  quiet (processConditionals literalHost
           "{{#if flag}}Y{{else}}N{{/if}}{{#if flag.x}}Z{{/if}}" flagData) /\
  returns (processConditionals literalHost
             "{{#if flag}}Y{{else}}N{{/if}}{{#if flag.x}}Z{{/if}}" flagData) /\
  processConditionals literalHost
    "{{#if flag}}Y{{else}}N{{/if}}{{#if flag.x}}Z{{/if}}" flagData
  = Return "Y".
Proof.
  destruct (processConditionals_total literalHost
              "{{#if flag}}Y{{else}}N{{/if}}{{#if flag.x}}Z{{/if}}" flagData)
    as [Hq Hr].
  split; [|split].
  - apply Hq. intros path. apply returns_quiet, flagData_printable.
  - apply Hr; [apply flagData_printable | apply literalHost_halts].
  - reflexivity.
Defined.

Lemma processSubConditionals_total_witness :
  quiet (processSubConditionals literalHost
           "{{#subif flag}}A{{subelse}}B{{/subif}}{{#if flag}}C" flagData) /\
  returns (processSubConditionals literalHost
             "{{#subif flag}}A{{subelse}}B{{/subif}}{{#if flag}}C" flagData) /\
  processSubConditionals literalHost
    "{{#subif flag}}A{{subelse}}B{{/subif}}{{#if flag}}C" flagData
  = Return "A{{#if flag}}C".
Proof.
  destruct (processSubConditionals_total literalHost
              "{{#subif flag}}A{{subelse}}B{{/subif}}{{#if flag}}C" flagData
              eq_refl)
    as [Hq Hr].
  split; [|split].
  - apply Hq. intros path. apply returns_quiet, flagData_printable.
  - apply Hr; [apply flagData_printable | apply literalHost_halts].
  - reflexivity.
Defined.

Lemma renderTemplate_blank_witness :
  renderTemplate literalHost
    (Some {| getElementById := fun _ => Some {| innerHTML := "   " |} |})
    "t" annData
  = Return "".
Proof.
  apply (renderTemplate_blank literalHost _ "t" {| innerHTML := "   " |});
    reflexivity.
Defined.

Lemma renderTemplate_unclosed_witness :
  processNestedLoops literalHost "{{#if name}}Hi {{name}}"
                     (orEmptyObject annData)
  = Return "{{#if name}}Hi {{name}}" /\
  processConditionals literalHost "{{#if name}}Hi {{name}}"
                      (orEmptyObject annData)
  = Return "{{#if name}}Hi {{name}}" /\
  processSubConditionals literalHost "{{#if name}}Hi {{name}}"
                         (orEmptyObject annData)
  = Return "{{#if name}}Hi {{name}}" /\
  renderTemplate literalHost (oneTemplate "t" "{{#if name}}Hi {{name}}")
                 "t" annData =
  rendered <- substituteVariables literalHost (orEmptyObject annData)
                                  "{{#if name}}Hi {{name}}" ;;
  unescapeTags rendered.
Proof. apply renderTemplate_unclosed; reflexivity. Defined.

Lemma substituteVariables_every_marker_witness :
  substituteVariables literalHost annData "Hi {{name}} of {{city}}!"
  = Return "Hi Ann of {{city}}!".
Proof.
  refine (proj2
            (substituteVariables_every_marker literalHost annData
               [("Hi ", "name"); (" of ", "city")] "!" _ eq_refl)
            ["Ann"; "{{city}}"] _);
    repeat constructor.
Defined.

Lemma renderTemplate_variable_witness :
  renderTemplate literalHost (oneTemplate "t" " Hi {{tag}}! ") "t"
                 (VObj [("tag", VStr "nedara-b")])
  = Return "Hi b!".
Proof.
  exact (renderTemplate_variable literalHost
           (oneTemplate "t" " Hi {{tag}}! ") "t"
           (VObj [("tag", VStr "nedara-b")]) "Hi " "tag" "!"
           eq_refl eq_refl eq_refl eq_refl eq_refl).
Defined.

Lemma loop_renders_each_element_witness :
  processNestedLoops literalHost "{{#items}}<li>{{name}}</li>{{/items}}"
    (VObj [("items", VArr [VObj [("name", VStr "a")]; VObj [];
                           VObj [("name", VNum 3)]])])
  = Return "<li>a</li><li>{{name}}</li><li>3</li>".
Proof.
  refine (loop_renders_each_element literalHost "<li>" "name" "</li>"
            eq_refl eq_refl eq_refl eq_refl
            (VObj [("items", VArr [VObj [("name", VStr "a")]; VObj [];
                                   VObj [("name", VNum 3)]])])
            "items"
            [VObj [("name", VStr "a")]; VObj []; VObj [("name", VNum 3)]]
            ["a"; "{{name}}"; "3"] eq_refl eq_refl eq_refl _).
  constructor; [split; [reflexivity | right; reflexivity]|].
  constructor; [split; [reflexivity | left; reflexivity]|].
  constructor; [split; [reflexivity | right; reflexivity]|].
  constructor.
Defined.

Lemma nested_loop_outer_value_witness :
  expandItem literalHost "{{#items}}<li>{{name}}</li>{{/items}}"
    (VObj [("name", VStr "Books");
           ("items", VArr [VObj [("name", VStr "Fiction")];
                           VObj [("name", VStr "Poetry")]])])
  = Return "<li>Books</li><li>Books</li>".
Proof.
  exact (nested_loop_outer_value literalHost "<li>" "name" "</li>"
           eq_refl eq_refl eq_refl eq_refl
           (VObj [("name", VStr "Books");
                  ("items", VArr [VObj [("name", VStr "Fiction")];
                                  VObj [("name", VStr "Poetry")]])])
           "items"
           [VObj [("name", VStr "Fiction")]; VObj [("name", VStr "Poetry")]]
           "Books" eq_refl eq_refl eq_refl eq_refl eq_refl).
Defined.

Lemma eventTarget_first_selector_witness :
  Widget.eventTarget ".menu" ("click" ++ " " ++ "ul" ++ " li.item")
  = ("click", ".menu" ++ " " ++ "ul").
Proof.
  apply eventTarget_first_selector; try reflexivity. now right.
Defined.

Lemma destroy_unbinds_bound_witness :
  List.hd_error
    (Widget.destroy
       {| Widget.selector := ".menu";
          Widget.events := [("click .item", "onItem"); ("keyup", "onKey")];
          Widget.defined := String.eqb "onItem" |})
  = Some (Widget.Hook "end") /\
  In (Widget.Off "click" ".menu .item")
     (Widget.destroy
        {| Widget.selector := ".menu";
           Widget.events := [("click .item", "onItem"); ("keyup", "onKey")];
           Widget.defined := String.eqb "onItem" |}).
Proof.
  apply (destroy_unbinds_bound _ "click" ".menu .item" "onItem").
  now left.
Defined.

Lemma inherited_member_resolves_witness :
  getValueFromPath literalHost (VObj [("name", VStr "Ann")]) "toString"
  = VFun "function toString() { [native code] }" /\
  substituteVariables literalHost (VObj [("name", VStr "Ann")])
                      ("{{" ++ "toString" ++ "}}")
  = Return "function toString() { [native code] }".
Proof. apply inherited_member_resolves; reflexivity. Defined.

Lemma loop_over_scalars_witness :
  processNestedLoops literalHost
    ("{{#" ++ "tags" ++ "}}" ++ oneVariable "<i>" "length" "</i>"
     ++ closingMarker "tags")
    (VObj [("tags", VArr [VStr "red"; VNum 7; VNull])])
  = Return (join "" (map (fun _ => oneVariable "<i>" "length" "</i>")
                         [VStr "red"; VNum 7; VNull])).
Proof.
  apply loop_over_scalars; try reflexivity.
  intros item [<-|[<-|[<-|[]]]]; reflexivity.
Defined.

Lemma else_second_piece_witness :
  processConditionals literalHost
    ("<p>" ++ "{{#if " ++ "flag" ++ "}}"
     ++ ("A" ++ "{{else}}" ++ " B " ++ "{{else}}" ++ "C")
     ++ "{{/if}}" ++ "</p>") noData =
  out <- processConditionals literalHost "</p>" noData ;;
  Return ("<p>" ++ trim " B " ++ out).
Proof.
  apply (else_second_piece literalHost noData "<p>" "flag" "A" " B " "C"
                           "</p>" (VBool false));
    try reflexivity.
  clear_by_cases.
Defined.

Lemma loop_filters_by_condition_witness :
  processNestedLoops literalHost
    ("{{#" ++ "items" ++ "}}"
     ++ ("{{#if " ++ "on" ++ "}}" ++ " <b>x</b> " ++ "{{/if}}")
     ++ closingMarker "items")
    (VObj [("items", VArr [VObj [("on", VBool true)];
                           VObj [("on", VBool false)];
                           VObj [("on", VBool true)]])])
  = Return (join ""
      (map (fun item =>
              if truthy (getValueFromPath literalHost item "on")
              then trim " <b>x</b> " else "")
           [VObj [("on", VBool true)]; VObj [("on", VBool false)];
            VObj [("on", VBool true)]])).
Proof.
  apply (loop_filters_by_condition literalHost _ "items" _ "on" " <b>x</b> "
           (fun item => getValueFromPath literalHost item "on"));
    try reflexivity.
  intros item [<-|[<-|[<-|[]]]]; reflexivity.
Defined.

Lemma conditional_expansion_witness :
  processConditionals literalHost "{{#if flag}}A{{/if}}{{subelse}}B" flagData
  = Return "A{{subelse}}B" /\
  processSubConditionals literalHost
    "<p>{{#subif flag}}{{#if flag}}A{{/if}}{{subelse}}B{{/subif}}</p>"
    flagData
  = Return "<p>A</p>".
Proof.
  split; [reflexivity|].
  refine (proj2
            (conditional_expansion literalHost SubIfBlock flagData "<p>"
               "flag" "{{#if flag}}A{{/if}}{{subelse}}B" "</p>" (VBool true)
               "A{{subelse}}B" _ eq_refl eq_refl eq_refl eq_refl
               (fun _ => eq_refl))).
  clear_by_cases.
Defined.

Lemma unescapeTags_block_witness :
  unescapeTags ("<td>my" ++ "nedara-" ++ "tr" ++ "-x</td>") =
  out <- unescapeTags "-x</td>" ;; Return ("<td>my" ++ "tr" ++ out).
Proof. apply unescapeTags_block; try reflexivity. clear_by_cases. Defined.

End FurtherExamples.
